(** * Pika: the AMQP field-table codec and the connection engine

    A shallow embedding of [pika/table.py] ([encode_table],
    [decode_table]) and of the parts of [pika/connection.py] that decide
    negotiation, channel allocation, closing, content fragmentation and
    the byte counters, followed by the properties proved about them.

    Python 2 values are modelled as follows: a [str] is a list of bytes,
    an [int] is a [Z], an exception is a [Raise] result, a [dict] is an
    association list whose order is the iteration order, and the
    connection's [_channels] dictionary is a finite map. *)

From Stdlib Require Import ZArith Lia.
From Stdlib.Strings Require Import Byte.
From stdpp Require Import ssreflect base decidable option list numbers strings gmap.

Local Open Scope Z_scope.
Set Warnings "-register-all,-rewrite-rw".

(** ** Exceptions and results *)

Inductive exn :=
| struct_error          (* struct.error: value out of range, buffer too short *)
| IndexError
| AttributeError
| ValueError
| InvalidTableError
| TableDecodingError
| TypeError
| KeyError
| NoFreeChannels
| ProtocolVersionMismatch
| LoginError
| Unmodelled            (* the outcome is decided by code outside these sources *)
| OutOfFuel.            (* the model's recursion bound was reached: not a Python outcome *)

Inductive res (A : Type) :=
| Ok (a : A)
| Raise (e : exn).
Arguments Ok {A} a.
Arguments Raise {A} e.

Global Instance res_ret : MRet res := @Ok.
Global Instance res_bind : MBind res := λ A B f m,
  match m with
  | Ok a => f a
  | Raise e => Raise e
  end.

(** ** Byte strings *)

Abbreviation bytes := (list byte).

Global Instance byte_eq_decision : EqDecision byte := Byte.byte_eq_dec.

Definition byte_of_Z (z : Z) : byte :=
  match Byte.of_N (Z.to_N (z mod 256)) with
  | Some b => b
  | None => "000"%byte
  end.

Definition Z_of_byte (b : byte) : Z := Z.of_N (Byte.to_N b).

(** [len s] is Python's [len(s)]. *)
Definition len {A} (s : list A) : Z := Z.of_nat (length s).

(** [s[lo:hi]] for non-negative bounds: the slice is cut at the end of [s]. *)
Definition slice (s : bytes) (lo hi : Z) : bytes :=
  take (Z.to_nat (hi - lo)) (drop (Z.to_nat lo) s).

(** [s[i]] for a non-negative index. *)
Definition index (s : bytes) (i : Z) : res byte :=
  if decide (0 ≤ i) then
    match s !! Z.to_nat i with
    | Some b => Ok b
    | None => Raise IndexError
    end
  else Raise IndexError.

(** A fold whose step may raise; the step is a parameter of the section
    so that recursive encoders can be passed to it. *)
Section foldM.
Context {A B : Type} (f : B → A → res B).

Fixpoint foldM (l : list A) (b : B) : res B :=
  match l with
  | [] => Ok b
  | a :: l => b' ← f b a; foldM l b'
  end.
End foldM.

(** ** The [struct] module: big-endian packing

    [be_bytes n z] is the [n]-byte big-endian representation of [z]
    (two's complement when [z] is negative); [be_uint] reads an unsigned
    big-endian number. Packing a value outside the range of its format
    code raises [struct.error] (Python 2.7). *)

Fixpoint be_bytes (n : nat) (z : Z) : bytes :=
  match n with
  | O => []
  | S m => byte_of_Z (z / 256 ^ Z.of_nat m) :: be_bytes m z
  end.

Definition be_uint (bs : bytes) : Z :=
  fold_left (λ acc b, acc * 256 + Z_of_byte b) bs 0.

Definition pack_uint (n : nat) (z : Z) : res bytes :=
  if decide (0 ≤ z < 256 ^ Z.of_nat n) then Ok (be_bytes n z)
  else Raise struct_error.

Definition pack_int (n : nat) (z : Z) : res bytes :=
  if decide (- (256 ^ Z.of_nat n / 2) ≤ z < 256 ^ Z.of_nat n / 2)
  then Ok (be_bytes n z)
  else Raise struct_error.

(** Format codes [B] (unsigned char), [I] (unsigned int), [i] (int) and
    [Q] (unsigned long long). *)
Definition pack_B : Z → res bytes := pack_uint 1.
Definition pack_I : Z → res bytes := pack_uint 4.
Definition pack_i : Z → res bytes := pack_int 4.
Definition pack_Q : Z → res bytes := pack_uint 8.

(** [struct.pack('>cI', c, z)] and its relatives: a one-character tag
    followed by the packed numbers. *)
Definition pack_c (c : byte) : bytes := [c].
Definition pack_cI (c : byte) (z : Z) : res bytes :=
  b ← pack_I z; Ok (pack_c c ++ b).
Definition pack_cQ (c : byte) (z : Z) : res bytes :=
  b ← pack_Q z; Ok (pack_c c ++ b).
Definition pack_cBi (c : byte) (x y : Z) : res bytes :=
  bx ← pack_B x; by_ ← pack_i y; Ok (pack_c c ++ bx ++ by_).
Definition pack_cBI (c : byte) (x y : Z) : res bytes :=
  bx ← pack_B x; by_ ← pack_I y; Ok (pack_c c ++ bx ++ by_).

(** [struct.unpack_from(fmt, encoded, offset)[0]] for an unsigned format
    of [n] bytes and an offset that is not negative; the buffer must hold
    [n] bytes from [offset] on. A negative offset, which
    [struct.unpack_from] counts from the end of the buffer, is outside
    this model: the properties below start the decoder at an offset that
    is not negative, and the decoder only moves forward. *)
Definition unpack_from_uint (n : nat) (encoded : bytes) (offset : Z) : res Z :=
  if decide (0 ≤ offset ∧ offset + Z.of_nat n ≤ len encoded)
  then Ok (be_uint (take n (drop (Z.to_nat offset) encoded)))
  else Raise struct_error.

Definition unpack_from_B := unpack_from_uint 1.
Definition unpack_from_I := unpack_from_uint 4.
Definition unpack_from_Q := unpack_from_uint 8.

(** ** [decimal.Decimal] and [datetime.datetime]

    A finite decimal is a sign, a coefficient and an exponent; its value
    is [(-1)^sign * coefficient * 10^exponent]. *)

Record Decimal := mkDecimal {
  _sign : bool;
  _int : Z;
  _exp : Z
}.

(** The precision of the default context. *)
Definition prec : Z := 28.

Fixpoint ndigits_aux (fuel : nat) (c : Z) : Z :=
  match fuel with
  | O => 0
  | S f => if c <? 10 then 1 else 1 + ndigits_aux f (c / 10)
  end.

(** The number of decimal digits of a coefficient. *)
Definition ndigits (c : Z) : Z := ndigits_aux (S (Z.to_nat (Z.log2 c))) c.

(** [Decimal._fix]: a coefficient of more than [prec] digits is rounded
    half-even to [prec] digits. Exponents are taken to lie within the
    context's limits. *)
Definition _fix (d : Decimal) : Decimal :=
  let digits := ndigits (_int d) in
  if digits <=? prec then d
  else
    let k := digits - prec in
    let q := _int d / 10 ^ k in
    let r := _int d mod 10 ^ k in
    let half := 5 * 10 ^ (k - 1) in
    let q' := if (half <? r) || ((r =? half) && Z.odd q) then q + 1 else q in
    if q' =? 10 ^ prec
    then mkDecimal (_sign d) (10 ^ (prec - 1)) (_exp d + k + 1)
    else mkDecimal (_sign d) q' (_exp d + k).

Fixpoint strip_zeros (fuel : nat) (c e : Z) : Z * Z :=
  match fuel with
  | O => (c, e)
  | S f => if c mod 10 =? 0 then strip_zeros f (c / 10) (e + 1) else (c, e)
  end.

(** [Decimal.normalize]: round to the context's precision, then drop the
    trailing zeros of the coefficient; zero becomes [0E0]. *)
Definition normalize (d : Decimal) : Decimal :=
  let dup := _fix d in
  if _int dup =? 0 then mkDecimal (_sign dup) 0 0
  else
    let '(c, e) := strip_zeros (Z.to_nat prec) (_int dup) (_exp dup) in
    mkDecimal (_sign dup) c e.

(** The coefficient with its sign. *)
Definition signed_int (d : Decimal) : Z :=
  if _sign d then - _int d else _int d.

(** [d1 == d2]: decimals compare by value. *)
Definition Decimal_eqb (d1 d2 : Decimal) : bool :=
  let m := Z.min (_exp d1) (_exp d2) in
  signed_int d1 * 10 ^ (_exp d1 - m) =? signed_int d2 * 10 ^ (_exp d2 - m).

(** A naive [datetime] is determined by its whole seconds since the
    epoch and its microseconds. [calendar.timegm(d.utctimetuple())] is
    the first component; [datetime.utcfromtimestamp] builds the datetime
    of a number of seconds, with no microseconds, and raises [ValueError]
    beyond year 9999. *)
Record datetime := mkDatetime {
  seconds : Z;
  microsecond : Z
}.

Definition MAX_TIMESTAMP : Z := 253402300799.

Definition timegm_utctimetuple (value : datetime) : Z := seconds value.

Definition utcfromtimestamp (t : Z) : res datetime :=
  if decide (t ≤ MAX_TIMESTAMP) then Ok (mkDatetime t 0)
  else Raise ValueError.

(** ** Python objects that may occur in a field table *)

Inductive pyobj :=
| VStr (s : bytes)                    (* str *)
| VInt (n : Z)                        (* int, or an integer beyond it *)
| VDecimal (d : Decimal)              (* decimal.Decimal *)
| VDatetime (t : datetime)            (* datetime.datetime *)
| VDict (t : list (bytes * pyobj))    (* dict; keys are str *)
| VList (l : list pyobj)              (* list *)
| VNone                               (* None *)
| VOther.                             (* any other object: float, unicode, long, ... *)

Abbreviation dict := (list (bytes * pyobj)).

(** [d[key] = v] *)
Fixpoint dict_set (d : dict) (key : bytes) (v : pyobj) : dict :=
  match d with
  | [] => [(key, v)]
  | (k, x) :: d' =>
      if decide (k = key) then (k, v) :: d' else (k, x) :: dict_set d' key v
  end.

(** ** [encode_table] *)

Section encode.
(** [encode_value value pieces] is the [isinstance] chain of the loop
    body: it appends the pieces of one value and returns the pieces with
    the amount to add to [tablesize]. *)
Variable encode_value : pyobj → list bytes → res (list bytes * Z).

(** The body of [encode_table] on a dictionary: the placeholder is the
    empty piece, overwritten once the size is known. *)
Definition encode_dict (pieces : list bytes) (table : dict)
  : res (list bytes * Z) :=
  let length_index := length pieces in
  let pieces := pieces ++ [[]] in
  '(pieces, tablesize) ←
    foldM (λ '(pieces, tablesize) '(key, value),
             klen ← pack_B (len key);
             let pieces := pieces ++ [klen; key] in
             let tablesize := tablesize + (1 + len key) in
             '(pieces, n) ← encode_value value pieces;
             Ok (pieces, tablesize + n))
          table (pieces, 0);
  size ← pack_I tablesize;
  Ok (<[length_index := size]> pieces, tablesize + 4).

(** [encode_table(pieces, table)] on an arbitrary object: [None] stands
    for the empty dictionary; a string, an integer, a decimal, a datetime
    and a list have no [iteritems]; an object of another type may have
    one (a [UserDict] has), so that what [table.iteritems()] does with it
    is not decided here. *)
Definition encode_object (pieces : list bytes) (table : pyobj)
  : res (list bytes * Z) :=
  match table with
  | VNone => encode_dict pieces []
  | VDict t => encode_dict pieces t
  | VStr _ | VInt _ | VDecimal _ | VDatetime _ | VList _ =>
      Raise AttributeError
  | VOther => Raise Unmodelled
  end.
End encode.

(** [sys.maxint] where a C long has 64 bits. An [int] lies between
    [- maxint - 1] and [maxint]; an integer beyond them is a [long],
    which is not an instance of [int]. *)
Definition maxint : Z := 2 ^ 63 - 1.

(** The [isinstance] chain of [encode_table]: string, int, decimal,
    datetime, dict, list, and [InvalidTableError] for anything else,
    also for an integer that is a [long]. *)
Fixpoint encode_value (value : pyobj) (pieces : list bytes) {struct value}
  : res (list bytes * Z) :=
  match value with
  | VStr s =>
      hdr ← pack_cI "S" (len s);
      Ok (pieces ++ [hdr; s], 5 + len s)
  | VInt n =>
      if decide (- maxint - 1 ≤ n ≤ maxint) then
        hdr ← pack_cI "I" n;
        Ok (pieces ++ [hdr], 5)
      else Raise InvalidTableError
  | VDecimal d =>
      let value := normalize d in
      if _exp value <? 0 then
        let decimals := - _exp value in
        let raw := signed_int value in
        p ← pack_cBi "D" decimals raw;
        Ok (pieces ++ [p], 6)
      else
        p ← pack_cBI "D" 0 (signed_int value * 10 ^ _exp value);
        Ok (pieces ++ [p], 6)
  | VDatetime t =>
      p ← pack_cQ "T" (timegm_utctimetuple t);
      Ok (pieces ++ [p], 9)
  | VDict t =>
      let pieces := pieces ++ [pack_c "F"] in
      '(pieces, n) ← encode_dict encode_value pieces t;
      Ok (pieces, 1 + n)
  | VList l =>
      '(p, _) ← foldM (λ '(p, _) v, encode_object encode_value p v) l ([], 0);
      let piece := concat p in
      hdr ← pack_cI "A" (len piece);
      Ok (pieces ++ [hdr; piece], 5 + len piece)
  | VNone | VOther => Raise InvalidTableError
  end.

(** [encode_table(pieces, table)]: the pieces with those of the table
    appended, and the number of bytes they hold. *)
Definition encode_table (pieces : list bytes) (table : pyobj)
  : res (list bytes * Z) :=
  encode_object encode_value pieces table.

(** ** [decode_table]

    The loops of the decoder are bounded by [fuel]; every iteration and
    every nested call reads at least one byte of [encoded], so the length
    of [encoded] is enough fuel ([decode_table] below). *)

Fixpoint decode_table_fuel (fuel : nat) (encoded : bytes) (offset : Z)
  : res (dict * Z) :=
  match fuel with
  | O => Raise OutOfFuel
  | S fuel =>
      tablesize ← unpack_from_I encoded offset;
      let offset := offset + 4 in
      let limit := offset + tablesize in
      decode_entries fuel encoded limit [] offset
  end

(** [while offset < limit]: one key and one value per iteration. *)
with decode_entries (fuel : nat) (encoded : bytes) (limit : Z)
       (result : dict) (offset : Z) : res (dict * Z) :=
  match fuel with
  | O => Raise OutOfFuel
  | S fuel =>
      if decide (offset < limit) then
        keylen ← unpack_from_B encoded offset;
        let offset := offset + 1 in
        let key := slice encoded offset (offset + keylen) in
        let offset := offset + keylen in
        kind ← index encoded offset;
        let offset := offset + 1 in
        '(value, offset) ←
          (if decide (kind = "S"%byte) then
             length ← unpack_from_I encoded offset;
             let offset := offset + 4 in
             let value := slice encoded offset (offset + length) in
             Ok (VStr value, offset + length)
           else if decide (kind = "I"%byte) then
             value ← unpack_from_I encoded offset;
             Ok (VInt value, offset + 4)
           else if decide (kind = "D"%byte) then
             decimals ← unpack_from_B encoded offset;
             let offset := offset + 1 in
             raw ← unpack_from_I encoded offset;
             Ok (VDecimal (mkDecimal false raw (- decimals)), offset + 4)
           else if decide (kind = "T"%byte) then
             t ← unpack_from_Q encoded offset;
             value ← utcfromtimestamp t;
             Ok (VDatetime value, offset + 8)
           else if decide (kind = "F"%byte) then
             '(value, offset) ← decode_table_fuel fuel encoded offset;
             Ok (VDict value, offset)
           else if decide (kind = "A"%byte) then
             length ← unpack_from_I encoded offset;
             let offset := offset + 4 in
             let offset_end := offset + length in
             '(value, offset) ← decode_array fuel encoded offset_end [] offset;
             if decide (offset ≠ offset_end) then Raise TableDecodingError
             else Ok (VList value, offset)
           else Raise InvalidTableError);
        decode_entries fuel encoded limit (dict_set result key value) offset
      else Ok (result, offset)
  end

(** [while offset < offset_end]: the tables of an array. *)
with decode_array (fuel : nat) (encoded : bytes) (offset_end : Z)
       (value : list pyobj) (offset : Z) : res (list pyobj * Z) :=
  match fuel with
  | O => Raise OutOfFuel
  | S fuel =>
      if decide (offset < offset_end) then
        '(v, offset) ← decode_table_fuel fuel encoded offset;
        decode_array fuel encoded offset_end (value ++ [VDict v]) offset
      else Ok (value, offset)
  end.

(** [decode_table(encoded, offset)]: the table read at [offset] and the
    offset right behind it. *)
Definition decode_table (encoded : bytes) (offset : Z) : res (dict * Z) :=
  decode_table_fuel (S (length encoded)) encoded offset.

(** [''.join(pieces)] *)
Definition join (pieces : list bytes) : bytes := concat pieces.

Definition str (s : string) : bytes := String.list_byte_of_string s.
Arguments str s%_string.


(** ** The connection: methods, frames and collaborators

    The method classes of [pika.spec] that [connection.py] names, with
    their arguments; [Other_Method] stands for every other class. *)

Inductive method :=
| Connection_Start (version_major version_minor : Z)
    (server_properties : dict) (mechanisms locales : bytes)
| Connection_StartOk (client_properties : dict) (mechanism response : bytes)
| Connection_Tune (channel_max frame_max heartbeat : Z)
| Connection_TuneOk (channel_max frame_max heartbeat : Z)
| Connection_Open (virtual_host : bytes) (insist : bool)
| Connection_OpenOk (known_hosts : bytes)
| Connection_Close (reply_code : Z) (reply_text : bytes) (class_id method_id : Z)
| Connection_CloseOk
| Channel_CloseOk
| Other_Method (name : string) (arguments : dict).

(** The key under which the callback manager files a method: its class. *)
Definition method_key (m : method) : string :=
  match m with
  | Connection_Start _ _ _ _ _ => "Connection.Start"
  | Connection_StartOk _ _ _ => "Connection.StartOk"
  | Connection_Tune _ _ _ => "Connection.Tune"
  | Connection_TuneOk _ _ _ => "Connection.TuneOk"
  | Connection_Open _ _ => "Connection.Open"
  | Connection_OpenOk _ => "Connection.OpenOk"
  | Connection_Close _ _ _ _ => "Connection.Close"
  | Connection_CloseOk => "Connection.CloseOk"
  | Channel_CloseOk => "Channel.CloseOk"
  | Other_Method name _ => name
  end.

(** Modelled from the spec: the content properties of [pika.spec] (the
    "PropSet" of a content header), which are not among the sources. *)
Record properties := BasicProperties { headers : dict }.

(** The frame classes of [pika.codec]. *)
Inductive frame :=
| FrameProtocolHeader (a b major minor : Z)
| FrameMethod (channel_number : Z) (method : method)
| FrameHeader (channel_number : Z) (body_size : Z) (props : properties)
| FrameBody (channel_number : Z) (fragment : bytes)
| FrameHeartbeat.

(** The [content] argument of [send_method]: [None], a body alone, or a
    tuple of properties and body, each of which may be [None]. *)
Inductive content :=
| NoContent
| Body (body : bytes)
| Content (props : option properties) (body : option bytes).

(** The callables that are registered with the callback manager: the
    connection's own bound methods, the reconnection strategy's hook, and
    callables of the application and of channels. *)
Inductive callback :=
| _on_connection_start_cb
| _on_connection_tune_cb
| _on_connection_open_cb
| _on_remote_close_cb
| _on_connection_closed_cb
| _on_channel_close_cb
| _reconnect_cb
| reconnection_strategy_on_connection_closed
| external (id : nat).

Global Instance callback_eq_decision : EqDecision callback.
Proof. solve_decision. Defined.

Record ConnectionParameters := mkConnectionParameters {
  host : bytes;
  port : option Z;
  virtual_host : bytes;
  credentials : option (bytes * bytes);
  param_channel_max : Z;
  param_frame_max : Z;
  param_heartbeat : Z
}.

Definition CHANNEL_MAX : Z := 32767.
Definition FRAME_MAX : Z := 131072.
Definition PRODUCT : bytes := str "Pika Python AMQP Client Library".
Definition default_credentials : bytes * bytes := (str "guest", str "guest").

(** Modelled from the spec: [spec.PORT], the default TCP port. *)
Definition PORT : Z := 5672.

(** Modelled from the spec: [codec.ConnectionState.HEADER_SIZE] and
    [FOOTER_SIZE], the header overhead (7) and footer overhead (1) of a
    frame. *)
Definition HEADER_SIZE : Z := 7.
Definition FOOTER_SIZE : Z := 1.

(** Modelled from the spec: [codec.ConnectionState], the record of the
    negotiated limits, of which the connection reads [channel_max] and
    [frame_max]; they are [None] until the connection is tuned, as the
    comments of [_next_channel_number] and [suggested_buffer_size] say. *)
Record ConnectionState := mkConnectionState {
  channel_max : option Z;
  frame_max : option Z
}.

(** Modelled from the spec: a channel is a record of its number; the
    callable given at creation is kept with it. The code of its methods
    is not among the sources: a call of one is recorded as an event
    ([channel_close], [deliver]), and what the channel then does, such
    as sending its own [Channel.Close] through the connection, is not
    part of this model. *)
Record Channel := mkChannel {
  number : Z;
  on_open_callback : callback
}.

(** What the engine does to its collaborators, in order. An event
    records that the collaborator was called, not what it did then. *)
Inductive event :=
| connect (host : bytes) (port : Z)              (* adapter: connect(host, port) *)
| disconnect                                     (* adapter: disconnect() *)
| flush_outbound                                 (* adapter: flush_outbound() *)
| sent (f : frame)                               (* _send_frame(f) was entered *)
| consumed (count : Z) (f : frame)               (* a complete frame was taken from the input *)
| initialized                                    (* _init_connection_state() ran *)
| called (cb : callback) (f : option frame)      (* an application callable was invoked *)
| on_connect_attempt                             (* reconnection strategy hooks *)
| on_transport_connected
| erase_credentials
| HeartbeatChecker (interval : Z)
| channel_close (channel_number : Z) (code : Z) (text : bytes)
                                                 (* channel.close(code, text) was called *)
| deliver (channel_number : Z) (f : frame).      (* a frame was handed to its channel *)

(** Modelled from the spec: the callback registry, a mapping from
    (channel, key) to the ordered list of callbacks, each with its
    one-shot flag. *)
Abbreviation registry := (gmap (Z * string) (list (callback * bool))).

(** The attributes of a [Connection]. [outbound_buffer] holds the bytes
    written to it, in order: the adapter, whose [flush_outbound] sends
    them along the socket, is not among the sources, and nothing is
    taken out of the buffer here. [trace] is the record of the calls
    made to the collaborators. *)
Record Connection := mkConnection {
  parameters : ConnectionParameters;
  callbacks : registry;
  buffer : bytes;
  outbound_buffer : bytes;
  state : ConnectionState;
  server_properties_ : option dict;
  known_hosts_ : option bytes;
  _channels : gmap Z Channel;
  bytes_sent : Z;
  bytes_received : Z;
  heartbeat_ : option Z;
  closed : bool;
  closing : option (Z * bytes);
  open : bool;
  trace : list event
}.

Definition set_callbacks (f : registry → registry) (c : Connection) :=
  mkConnection (parameters c) (f (callbacks c)) (buffer c) (outbound_buffer c)
    (state c) (server_properties_ c) (known_hosts_ c) (_channels c)
    (bytes_sent c) (bytes_received c) (heartbeat_ c) (closed c) (closing c)
    (open c) (trace c).
Definition set_buffer (f : bytes → bytes) (c : Connection) :=
  mkConnection (parameters c) (callbacks c) (f (buffer c)) (outbound_buffer c)
    (state c) (server_properties_ c) (known_hosts_ c) (_channels c)
    (bytes_sent c) (bytes_received c) (heartbeat_ c) (closed c) (closing c)
    (open c) (trace c).
Definition set_outbound_buffer (f : bytes → bytes) (c : Connection) :=
  mkConnection (parameters c) (callbacks c) (buffer c) (f (outbound_buffer c))
    (state c) (server_properties_ c) (known_hosts_ c) (_channels c)
    (bytes_sent c) (bytes_received c) (heartbeat_ c) (closed c) (closing c)
    (open c) (trace c).
Definition set_state (f : ConnectionState → ConnectionState) (c : Connection) :=
  mkConnection (parameters c) (callbacks c) (buffer c) (outbound_buffer c)
    (f (state c)) (server_properties_ c) (known_hosts_ c) (_channels c)
    (bytes_sent c) (bytes_received c) (heartbeat_ c) (closed c) (closing c)
    (open c) (trace c).
Definition set_server_properties (v : option dict) (c : Connection) :=
  mkConnection (parameters c) (callbacks c) (buffer c) (outbound_buffer c)
    (state c) v (known_hosts_ c) (_channels c)
    (bytes_sent c) (bytes_received c) (heartbeat_ c) (closed c) (closing c)
    (open c) (trace c).
Definition set_known_hosts (v : option bytes) (c : Connection) :=
  mkConnection (parameters c) (callbacks c) (buffer c) (outbound_buffer c)
    (state c) (server_properties_ c) v (_channels c)
    (bytes_sent c) (bytes_received c) (heartbeat_ c) (closed c) (closing c)
    (open c) (trace c).
Definition set_channels (f : gmap Z Channel → gmap Z Channel) (c : Connection) :=
  mkConnection (parameters c) (callbacks c) (buffer c) (outbound_buffer c)
    (state c) (server_properties_ c) (known_hosts_ c) (f (_channels c))
    (bytes_sent c) (bytes_received c) (heartbeat_ c) (closed c) (closing c)
    (open c) (trace c).
Definition set_bytes_sent (f : Z → Z) (c : Connection) :=
  mkConnection (parameters c) (callbacks c) (buffer c) (outbound_buffer c)
    (state c) (server_properties_ c) (known_hosts_ c) (_channels c)
    (f (bytes_sent c)) (bytes_received c) (heartbeat_ c) (closed c) (closing c)
    (open c) (trace c).
Definition set_bytes_received (f : Z → Z) (c : Connection) :=
  mkConnection (parameters c) (callbacks c) (buffer c) (outbound_buffer c)
    (state c) (server_properties_ c) (known_hosts_ c) (_channels c)
    (bytes_sent c) (f (bytes_received c)) (heartbeat_ c) (closed c) (closing c)
    (open c) (trace c).
Definition set_heartbeat (v : option Z) (c : Connection) :=
  mkConnection (parameters c) (callbacks c) (buffer c) (outbound_buffer c)
    (state c) (server_properties_ c) (known_hosts_ c) (_channels c)
    (bytes_sent c) (bytes_received c) v (closed c) (closing c)
    (open c) (trace c).
Definition set_closed (v : bool) (c : Connection) :=
  mkConnection (parameters c) (callbacks c) (buffer c) (outbound_buffer c)
    (state c) (server_properties_ c) (known_hosts_ c) (_channels c)
    (bytes_sent c) (bytes_received c) (heartbeat_ c) v (closing c)
    (open c) (trace c).
Definition set_closing (v : option (Z * bytes)) (c : Connection) :=
  mkConnection (parameters c) (callbacks c) (buffer c) (outbound_buffer c)
    (state c) (server_properties_ c) (known_hosts_ c) (_channels c)
    (bytes_sent c) (bytes_received c) (heartbeat_ c) (closed c) v
    (open c) (trace c).
Definition set_open (v : bool) (c : Connection) :=
  mkConnection (parameters c) (callbacks c) (buffer c) (outbound_buffer c)
    (state c) (server_properties_ c) (known_hosts_ c) (_channels c)
    (bytes_sent c) (bytes_received c) (heartbeat_ c) (closed c) (closing c)
    v (trace c).
Definition set_trace (f : list event → list event) (c : Connection) :=
  mkConnection (parameters c) (callbacks c) (buffer c) (outbound_buffer c)
    (state c) (server_properties_ c) (known_hosts_ c) (_channels c)
    (bytes_sent c) (bytes_received c) (heartbeat_ c) (closed c) (closing c)
    (open c) (f (trace c)).

(** ** The monad of the engine: a connection that is mutated in place,
    and exceptions that leave the mutations made so far. *)

Definition M (A : Type) : Type := Connection → res A * Connection.

Global Instance M_ret : MRet M := λ A a c, (Ok a, c).
Global Instance M_bind : MBind M := λ A B f m c,
  match m c with
  | (Ok a, c') => f a c'
  | (Raise e, c') => (Raise e, c')
  end.

Definition raise {A} (e : exn) : M A := λ c, (Raise e, c).
Definition gets {A} (f : Connection → A) : M A := λ c, (Ok (f c), c).
Definition modify (f : Connection → Connection) : M unit := λ c, (Ok tt, f c).
Definition emit (e : event) : M unit := modify (set_trace (λ t, t ++ [e])).

(** [for x in l: f x] *)
Section forM.
Context {A : Type} (f : A → M unit).

Fixpoint forM (l : list A) : M unit :=
  match l with
  | [] => mret tt
  | a :: l => f a;; forM l
  end.
End forM.

(** [try: m finally: k] *)
Definition finally {A} (m : M A) (k : M unit) : M A := λ c,
  match m c with
  | (r, c') =>
      match k c' with
      | (Ok _, c'') => (r, c'')
      | (Raise e, c'') => (Raise e, c'')
      end
  end.

(** ** The callback manager

    [pika.callback.CallbackManager] is not among the sources; its four
    operations follow the specification of the callback registry. *)

(** The callbacks registered under a channel and a key, in order. *)
Definition entries (c : Connection) (prefix : Z) (key : string)
  : list (callback * bool) :=
  default [] (callbacks c !! (prefix, key)).

(** Modelled from the spec: [CallbackManager.add] appends the callback;
    a callable that is already registered under the key is not added
    again. *)
Definition registry_add (prefix : Z) (key : string) (cb : callback)
    (one_shot : bool) (reg : registry) : registry :=
  let l := default [] (reg !! (prefix, key)) in
  if decide (cb ∈ l.*1) then reg
  else <[(prefix, key) := l ++ [(cb, one_shot)]]> reg.

(** Modelled from the spec: [CallbackManager.remove] drops every entry
    of the callable under the key, and is silent when there is none. *)
Definition registry_remove (prefix : Z) (key : string) (cb : callback)
    (reg : registry) : registry :=
  match reg !! (prefix, key) with
  | Some l => <[(prefix, key) := filter (λ e, e.1 ≠ cb) l]> reg
  | None => reg
  end.

(** Modelled from the spec: [callbacks.add(prefix, key, callback,
    one_shot)]; a callback is one-shot unless told otherwise, as [rpc]
    relies on. *)
Definition callbacks_add (prefix : Z) (key : string) (cb : callback)
    (one_shot : bool) : M unit :=
  modify (set_callbacks (registry_add prefix key cb one_shot)).

(** Modelled from the spec: [callbacks.remove(prefix, key, callback)]. *)
Definition callbacks_remove (prefix : Z) (key : string) (cb : callback)
  : M unit :=
  modify (set_callbacks (registry_remove prefix key cb)).

(** Modelled from the spec: [callbacks.pending(prefix, key)]. *)
Definition callbacks_pending (prefix : Z) (key : string) : M bool :=
  gets (λ c, bool_decide (entries c prefix key ≠ [])).

Section process.
(** How a registered callable is run on its argument: a frame, or the
    connection itself ([None]). *)
Variable invoke : callback → option frame → M unit.

(** Modelled from the spec: [callbacks.process(prefix, key, caller,
    args)] invokes the callbacks registered at the time of the call, in
    insertion order, and removes each one-shot entry after its
    invocation, whether or not it raised. *)
Definition callbacks_process (prefix : Z) (key : string)
    (args : option frame) : M unit :=
  l ← gets (λ c, entries c prefix key);
  forM (λ '(cb, one_shot),
          finally (invoke cb args)
                  (if one_shot : bool then callbacks_remove prefix key cb
                   else mret tt))
       l.
End process.

(** ** [Connection] *)

(** Python's truth value of an integer and [x or y] on integers. *)
Definition truthy (z : Z) : bool := negb (z =? 0).

Definition or_else (x : option Z) (y : Z) : Z :=
  match x with
  | Some z => if truthy z then z else y
  | None => y
  end.

(** [max(l)] of a non-empty list. *)
Definition py_max (l : list Z) : Z :=
  match l with
  | [] => 0
  | x :: l => foldl Z.max x l
  end.

(** [data[n:]] *)
Definition slice_from (data : bytes) (n : Z) : bytes :=
  if decide (0 ≤ n) then drop (Z.to_nat n) data
  else drop (Z.to_nat (len data + n)) data.

Definition add_on_close_callback (cb : callback) : M unit :=
  callbacks_add 0 "_on_connection_closed" cb false.

Definition add_on_open_callback (cb : callback) : M unit :=
  callbacks_add 0 "_on_connection_open" cb false.

Definition is_open (c : Connection) : bool :=
  open c && (negb (bool_decide (is_Some (closing c))) && negb (closed c)).

Definition _init_connection_state : M unit :=
  modify (set_buffer (λ _, []));;
  modify (set_outbound_buffer (λ _, []));;
  modify (set_state (λ _, mkConnectionState None None));;
  modify (set_server_properties None);;
  modify (set_channels (λ _, ∅));;
  modify (set_bytes_sent (λ _, 0));;
  modify (set_bytes_received (λ _, 0));;
  modify (set_heartbeat None);;
  modify (set_closed true);;
  modify (set_closing None);;
  modify (set_open false);;
  emit initialized;;
  callbacks_add 0 "Connection.Start" _on_connection_start_cb true.

Definition _connect : M unit :=
  emit on_connect_attempt;;
  p ← gets parameters;
  emit (connect (host p) (or_else (port p) PORT)).

Definition _reconnect : M unit :=
  _init_connection_state;;
  _connect.

Definition _combine (a b : Z) : Z :=
  if negb (truthy a) then b
  else if negb (truthy b) then a
  else Z.min a b.

(** [max_piece] and [piece_len] as [send_method] computes them. *)
Definition max_piece (frame_max : Z) : Z :=
  frame_max - HEADER_SIZE - FOOTER_SIZE.

Definition piece_len (body_buf : bytes) (max_piece : Z) : Z :=
  Z.min (len body_buf) max_piece.

(** Modelled from the spec: [SimpleBuffer.read_and_consume] hands out the
    next [size] bytes of the buffer and removes them; what it does for a
    negative size is not described. *)
Definition read_and_consume (body_buf : bytes) (size : Z)
  : res (bytes * bytes) :=
  if decide (0 ≤ size)
  then Ok (take (Z.to_nat size) body_buf, drop (Z.to_nat size) body_buf)
  else Raise Unmodelled.

Section Engine.
(** The collaborators whose code is not among the sources:
    [frame.marshal()], [codec.ConnectionState.handle_input] and [tune],
    [credentials.response_for] and [spec.PROTOCOL_VERSION]. *)
Variable marshal : frame → bytes.
Variable handle_input : bytes → Z * option frame.
Variable tune : ConnectionState → Z → Z → ConnectionState.
Variable response_for : bytes * bytes → method → option (bytes * bytes).
Variable PROTOCOL_VERSION : Z * Z.

Definition _local_protocol_header : frame :=
  FrameProtocolHeader 1 1 PROTOCOL_VERSION.1 PROTOCOL_VERSION.2.

Definition _send_frame (frame : frame) : M unit :=
  emit (sent frame);;
  let marshalled_frame := marshal frame in
  modify (set_bytes_sent (λ n, n + len marshalled_frame));;
  modify (set_outbound_buffer (λ b, b ++ marshalled_frame));;
  emit flush_outbound.

Section Buffer.
(** [SimpleBuffer.read_and_consume], whose code is not among the sources,
    as the loop of [send_method] calls it: from the bytes left in the
    buffer and the size asked for it gives the piece and the bytes left
    after it, or raises. *)
Variable read_and_consume' : bytes → Z → res (bytes * bytes).

(** [while body_buf:] of [send_method]. *)
Fixpoint send_body_with (fuel : nat) (channel_number : Z) (max_piece : Z)
    (body_buf : bytes) : M unit :=
  match body_buf with
  | [] => mret tt
  | _ =>
      match fuel with
      | O => raise OutOfFuel
      | S fuel =>
          let piece_len := piece_len body_buf max_piece in
          match read_and_consume' body_buf piece_len with
          | Ok (piece, body_buf) =>
              _send_frame (FrameBody channel_number piece);;
              send_body_with fuel channel_number max_piece body_buf
          | Raise e => raise e
          end
      end
  end.

Definition send_method_with (channel_number : Z) (method : method)
    (content : content) : M unit :=
  _send_frame (FrameMethod channel_number method);;
  let '(props, body) :=
    match content with
    | Content props body => (props, body)
    | Body body => (None, Some body)
    | NoContent => (None, None)
    end in
  let body := match body with Some (b :: l) => Some (b :: l) | _ => None end in
  match props with
  | Some props =>
      let length := match body with Some body => len body | None => 0 end in
      _send_frame (FrameHeader channel_number length props)
  | None => mret tt
  end;;
  match body with
  | Some body =>
      fm ← gets (λ c, frame_max (state c));
      match fm with
      | Some fm =>
          send_body_with (length body) channel_number (max_piece fm) body
      | None => raise TypeError
      end
  | None => mret tt
  end.
End Buffer.

(** [send_method] over the buffer as the spec describes it. *)
Definition send_body : nat → Z → Z → bytes → M unit :=
  send_body_with read_and_consume.

Definition send_method : Z → method → content → M unit :=
  send_method_with read_and_consume.

Definition rpc (callback : option callback) (channel_number : Z)
    (method : method) (acceptable_replies : list string) : M unit :=
  match callback with
  | Some callback =>
      forM (λ reply, callbacks_add channel_number reply callback true)
           acceptable_replies
  | None => mret tt
  end;;
  send_method channel_number method NoContent.

Definition _on_connected : M unit :=
  _send_frame _local_protocol_header;;
  emit on_transport_connected.

(** Callables run for the lifecycle keys: the application's, the
    reconnection strategy's, and [_reconnect]. A callable of the
    application is recorded as called; what it does then, to the
    connection also (it may call [close]), is its own and is not
    modelled. *)
Definition invoke_lifecycle (cb : callback) (args : option frame) : M unit :=
  match cb with
  | _reconnect_cb => _reconnect
  | reconnection_strategy_on_connection_closed | external _ =>
      emit (called cb args)
  | _ => raise Unmodelled
  end.

Definition _on_connection_open (frame : frame) : M unit :=
  match frame with
  | FrameMethod _ (Connection_OpenOk known_hosts) =>
      modify (set_known_hosts (Some known_hosts));;
      callbacks_add 0 "Connection.Close" _on_remote_close_cb true;;
      modify (set_open true);;
      callbacks_process invoke_lifecycle 0 "_on_connection_open" None
  | _ => raise AttributeError
  end.

Definition _on_connection_start (frame : frame) : M unit :=
  modify (set_closed false);;
  match frame with
  | FrameProtocolHeader _ _ _ _ => raise ProtocolVersionMismatch
  | FrameMethod _ (Connection_Start version_major version_minor
                     server_properties mechanisms locales as method) =>
      if decide ((version_major, version_minor) ≠ PROTOCOL_VERSION)
      then raise ProtocolVersionMismatch
      else
        modify (set_server_properties (Some server_properties));;
        p ← gets parameters;
        let credentials_ := default default_credentials (credentials p) in
        match response_for credentials_ method with
        | None =>
            (* [self.parameters.credentials.TYPE] *)
            match credentials p with
            | Some _ => raise LoginError
            | None => raise AttributeError
            end
        | Some response =>
            emit erase_credentials;;
            callbacks_add 0 "Connection.Tune" _on_connection_tune_cb true;;
            send_method 0
              (Connection_StartOk [(str "product", VStr PRODUCT)]
                                  response.1 response.2)
              NoContent
        end
  | _ => raise AttributeError
  end.

Definition _on_connection_tune (frame : frame) : M unit :=
  match frame with
  | FrameMethod _ (Connection_Tune channel_max frame_max heartbeat) =>
      p ← gets parameters;
      let cmax := _combine (param_channel_max p) channel_max in
      let fmax := _combine (param_frame_max p) frame_max in
      let hint := _combine (param_heartbeat p) heartbeat in
      (if truthy hint
       then emit (HeartbeatChecker hint);; modify (set_heartbeat (Some hint))
       else mret tt);;
      modify (set_state (λ st, tune st cmax fmax));;
      send_method 0 (Connection_TuneOk cmax fmax hint) NoContent;;
      let cmd := Connection_Open (virtual_host p) true in
      rpc (Some _on_connection_open_cb) 0 cmd ["Connection.OpenOk"]
  | _ => raise AttributeError
  end.

Definition _on_close_ready : M unit :=
  closed ← gets closed;
  if closed : bool then mret tt
  else
    closing ← gets closing;
    match closing with
    | Some (code, text) =>
        rpc (Some _on_connection_closed_cb) 0
            (Connection_Close code text 0 0) ["Connection.CloseOk"]
    | None => raise TypeError
    end.

Definition close (code : Z) (text : bytes) : M unit :=
  c ← gets id;
  if bool_decide (is_Some (closing c)) || closed c then mret tt
  else
    modify (set_closing (Some (code, text)));;
    callbacks_remove 0 "_on_connection_close"
                     reconnection_strategy_on_connection_closed;;
    channel_numbers ← gets (λ c, (map_to_list (_channels c)).*1);
    forM (λ channel_number, emit (channel_close channel_number code text))
         channel_numbers;;
    n ← gets (λ c, size (_channels c));
    if decide (n = 0%nat) then _on_close_ready else mret tt.

Definition _on_connection_closed (frame : option frame) (from_adapter : bool)
  : M unit :=
  modify (set_closed true);;
  modify (set_closing None);;
  modify (set_open false);;
  callbacks_process invoke_lifecycle 0 "_on_connection_closed" None;;
  if from_adapter then mret tt else emit disconnect.

Definition _on_remote_close (frame : frame) : M unit :=
  match frame with
  | FrameMethod _ (Connection_Close reply_code reply_text _ _) =>
      close reply_code reply_text
  | _ => raise AttributeError
  end.

Definition _ensure_closed : M unit :=
  c ← gets id;
  if is_open c && negb (bool_decide (is_Some (closing c)))
  then close 200 (str "Normal shutdown")
  else mret tt.

Definition reconnect : M unit :=
  c ← gets id;
  if bool_decide (is_Some (closing c))
  then add_on_close_callback _reconnect_cb
  else if open c
  then add_on_close_callback _reconnect_cb;; _ensure_closed
  else _reconnect.

(** *** Channels *)

Definition _next_channel_number : M Z :=
  c ← gets id;
  let limit := or_else (channel_max (state c)) CHANNEL_MAX in
  if decide (Z.of_nat (size (_channels c)) = limit) then raise NoFreeChannels
  else
    let channel_numbers := (map_to_list (_channels c)).*1 in
    if decide (length channel_numbers = 0%nat) then mret 1
    else mret (py_max channel_numbers + 1).

Definition channel (on_open_callback : callback) (channel_number : option Z)
  : M unit :=
  channel_number ←
    match channel_number with
    | Some n => if truthy n then mret n else _next_channel_number
    | None => _next_channel_number
    end;
  callbacks_add channel_number "Channel.CloseOk" _on_channel_close_cb true;;
  modify (set_channels
            (<[channel_number := mkChannel channel_number on_open_callback]>)).

Definition frame_channel_number (frame : frame) : M Z :=
  match frame with
  | FrameMethod n _ | FrameHeader n _ _ | FrameBody n _ => mret n
  | FrameHeartbeat => mret 0
  | FrameProtocolHeader _ _ _ _ => raise Unmodelled
  end.

Definition _on_channel_close (frame : frame) : M unit :=
  n ← frame_channel_number frame;
  modify (set_channels (delete n));;
  c ← gets id;
  if bool_decide (is_Some (closing c)) && bool_decide (size (_channels c) = 0%nat)
  then _on_close_ready
  else mret tt.

(** *** Inbound data *)

Definition invoke (cb : callback) (args : option frame) : M unit :=
  match cb, args with
  | _on_connection_start_cb, Some f => _on_connection_start f
  | _on_connection_tune_cb, Some f => _on_connection_tune f
  | _on_connection_open_cb, Some f => _on_connection_open f
  | _on_remote_close_cb, Some f => _on_remote_close f
  | _on_connection_closed_cb, f => _on_connection_closed f false
  | _on_channel_close_cb, Some f => _on_channel_close f
  | _reconnect_cb, _ => _reconnect
  | (reconnection_strategy_on_connection_closed | external _), _ =>
      emit (called cb args)
  | _, None => raise Unmodelled
  end.

(** [self._channels[frame.channel_number].transport.deliver(frame)]
    when the frame's channel number is positive. *)
Definition deliver_to_channel (frame : frame) : M unit :=
  channel_number ← frame_channel_number frame;
  if decide (0 < channel_number) then
    ch ← gets (λ c, _channels c !! channel_number);
    match ch with
    | Some _ => emit (deliver channel_number frame)
    | None => raise KeyError
    end
  else mret tt.

(** What [on_data_available] does with one complete frame. *)
Definition dispatch (frame : frame) : M unit :=
  match frame with
  | FrameMethod channel_number method =>
      pending ← callbacks_pending channel_number (method_key method);
      if pending : bool
      then callbacks_process invoke channel_number (method_key method)
                             (Some frame)
      else deliver_to_channel frame
  | FrameHeartbeat => mret tt
  | _ => deliver_to_channel frame
  end.

(** [while data:] of [on_data_available]. *)
Fixpoint read_frames (fuel : nat) (data : bytes) : M unit :=
  match data with
  | [] => mret tt
  | _ =>
      match fuel with
      | O => raise OutOfFuel
      | S fuel =>
          let '(consumed_count, frame) := handle_input data in
          match frame with
          | None => modify (set_buffer (λ b, b ++ data))
          | Some frame =>
              let data := slice_from data consumed_count in
              modify (set_bytes_received (λ n, n + consumed_count));;
              emit (consumed consumed_count frame);;
              dispatch frame;;
              read_frames fuel data
          end
      end
  end.

Definition on_data_available (data : bytes) : M unit :=
  modify (set_buffer (λ b, b ++ data));;
  data ← gets buffer;
  modify (set_buffer (λ _, []));;
  read_frames (length data) data.

Definition suggested_buffer_size (c : Connection) : Z :=
  or_else (frame_max (state c)) FRAME_MAX.

(** [Connection.__init__], on an object whose callback manager already
    holds [callbacks]. *)
Definition __init__ (parameters : ConnectionParameters)
    (on_open_callback : option callback) (callbacks : registry)
  : res unit * Connection :=
  ((match on_open_callback with
    | Some cb => add_on_open_callback cb
    | None => mret tt
    end;;
    add_on_close_callback reconnection_strategy_on_connection_closed;;
    _init_connection_state;;
    _connect) : M unit)
    (mkConnection parameters callbacks [] [] (mkConnectionState None None)
       None None ∅ 0 0 None true None false []).
End Engine.

(** ** Vocabulary of the properties *)

(** The negotiation rule in the words of the specification. *)
Definition combine (client server : Z) : Z :=
  if client =? 0 then server
  else if server =? 0 then client
  else Z.min client server.

(** The frames handed to [_send_frame], in order. *)
Definition sent_frames (t : list event) : list frame :=
  omap (λ e, match e with sent f => Some f | _ => None end) t.

(** The application callables invoked, with their argument. *)
Definition calls (t : list event) : list (callback * option frame) :=
  omap (λ e, match e with called cb a => Some (cb, a) | _ => None end) t.

(** The bound on channel numbers: [channel_max], or 32767 when it is
    unset or 0. *)
Definition channel_limit (c : Connection) : Z :=
  or_else (channel_max (state c)) CHANNEL_MAX.

(** Every channel number in [_channels] lies in [1, channel_max]. *)
Definition channels_in_range (c : Connection) : Prop :=
  ∀ k, is_Some (_channels c !! k) → 1 ≤ k ≤ channel_limit c.

(** [codec.ConnectionState.tune] as a plain record of the two limits,
    used where a concrete collaborator is needed. *)
Definition record_tune (st : ConnectionState) (cmax fmax : Z) : ConnectionState :=
  mkConnectionState (Some cmax) (Some fmax).

(** A marshalling that wraps a body fragment in seven header bytes and
    the frame end, and gives every other frame eight bytes; used where a
    concrete collaborator is needed. *)
Definition sample_marshal (f : frame) : bytes :=
  match f with
  | FrameBody _ piece => be_bytes 7 0 ++ piece ++ be_bytes 1 206
  | _ => be_bytes 8 0
  end.

(** A connection that has been opened: tuned to the given limits, no
    channel open, waiting for the server to close. *)
Definition open_connection (p : ConnectionParameters) (st : ConnectionState)
  : Connection :=
  mkConnection p
    (<[(0, "Connection.Close") := [(_on_remote_close_cb, true)]]>
       (<[(0, "_on_connection_closed") :=
            [(reconnection_strategy_on_connection_closed, false);
             (external 1, false)]]> ∅))
    [] [] st None None ∅ 0 0 None false None true [].

Definition sample_parameters : ConnectionParameters :=
  mkConnectionParameters (str "localhost") None (str "/") None 0 131072 0.

(** The state from which the handshake starts: a connection as
    [__init__] leaves it. *)
Definition new_connection : Connection := (__init__ sample_parameters None ∅).2.

(** The number [channel] settles on. *)
Definition chosen_number (channel_number : option Z) (c : Connection) : res Z :=
  match channel_number with
  | Some n => if truthy n then Ok n else (_next_channel_number c).1
  | None => (_next_channel_number c).1
  end.

(** The body and the properties that [send_method] finds in its
    [content] argument. *)
Definition content_body (content : content) : bytes :=
  match content with
  | Body body | Content _ (Some body) => body
  | _ => []
  end.

Definition content_props (content : content) : option properties :=
  match content with
  | Content props _ => props
  | _ => None
  end.

(** The successive pieces that the loop of [send_method] cuts off a
    body, and their lengths. *)
Fixpoint chunks (fuel : nat) (max_piece : Z) (body_buf : bytes) : list bytes :=
  match body_buf, fuel with
  | [], _ | _, O => []
  | _, S fuel =>
      let n := Z.to_nat (piece_len body_buf max_piece) in
      take n body_buf :: chunks fuel max_piece (drop n body_buf)
  end.

Fixpoint chunk_sizes (fuel : nat) (max_piece : Z) (size : Z) : list Z :=
  match fuel with
  | O => []
  | S fuel =>
      if size <=? 0 then []
      else Z.min size max_piece
             :: chunk_sizes fuel max_piece (size - Z.min size max_piece)
  end.

(** The callables of the application and of the reconnection strategy,
    as opposed to the connection's own bound methods. *)
Definition application_callable (cb : callback) : Prop :=
  match cb with
  | external _ | reconnection_strategy_on_connection_closed => True
  | _ => False
  end.

(** Modelled from the spec: the built-in PLAIN mechanism answers with
    [\0username\0password]. *)
Definition sample_response_for (credentials : bytes * bytes) (_ : method)
  : option (bytes * bytes) :=
  Some (str "PLAIN",
        ["000"%byte] ++ credentials.1 ++ ["000"%byte] ++ credentials.2).

(** The two byte counters, and what each event does to them: a frame
    handed to [_send_frame] adds the length of its marshalled form to
    [bytes_sent], a frame taken from the input adds the number of bytes
    consumed to [bytes_received], [_init_connection_state] resets both,
    and nothing else touches them. *)
Definition counters (c : Connection) : Z * Z := (bytes_sent c, bytes_received c).

Definition account (marshal : frame → bytes) (n : Z * Z) (e : event) : Z * Z :=
  match e with
  | sent f => (n.1 + len (marshal f), n.2)
  | consumed count _ => (n.1, n.2 + count)
  | initialized => (0, 0)
  | _ => n
  end.

(** An operation is accounted when the counters it leaves are the
    counters it found, moved by the events it added to the trace. *)
Definition accounted (marshal : frame → bytes) {A} (m : M A) : Prop :=
  ∀ c, ∃ evs,
    trace (m c).2 = trace c ++ evs
    ∧ counters (m c).2 = foldl (account marshal) (counters c) evs.

(** The events that leave the counters alone. *)
Definition quiet (e : event) : Prop :=
  match e with
  | sent _ | consumed _ _ | initialized => False
  | _ => True
  end.

(** The total marshalled length of the frames sent, and the total count
    of the bytes consumed, in a run of events. *)
Definition sent_total (marshal : frame → bytes) (evs : list event) : Z :=
  foldr (λ e n, match e with sent f => len (marshal f) + n | _ => n end) 0 evs.

Definition consumed_total (evs : list event) : Z :=
  foldr (λ e n, match e with consumed count _ => count + n | _ => n end) 0 evs.

(** A decoder that takes the input to be one heartbeat frame of eight
    bytes, used where a concrete collaborator is needed. *)
Definition sample_handle_input (data : bytes) : Z * option frame :=
  if decide (8 ≤ len data) then (8, Some FrameHeartbeat) else (0, None).

(** ** Vocabulary of the field-table properties *)

(** The wire form of a field value: its tag and its payload. The wire
    form of a table is that of the value without the tag. *)
Fixpoint wire (v : pyobj) : bytes :=
  match v with
  | VStr s => ["S"%byte] ++ be_bytes 4 (len s) ++ s
  | VInt n => ["I"%byte] ++ be_bytes 4 n
  | VDecimal d =>
      let value := normalize d in
      if _exp value <? 0
      then ["D"%byte] ++ be_bytes 1 (- _exp value) ++ be_bytes 4 (signed_int value)
      else ["D"%byte] ++ be_bytes 1 0
             ++ be_bytes 4 (signed_int value * 10 ^ _exp value)
  | VDatetime t => ["T"%byte] ++ be_bytes 8 (seconds t)
  | VDict t =>
      let body := flat_map (λ e, be_bytes 1 (len e.1) ++ e.1 ++ wire e.2) t in
      ["F"%byte] ++ be_bytes 4 (len body) ++ body
  | VList l =>
      let piece := flat_map (λ v, drop 1 (wire v)) l in
      ["A"%byte] ++ be_bytes 4 (len piece) ++ piece
  | VNone | VOther => []
  end.

Definition entry_wire (e : bytes * pyobj) : bytes :=
  be_bytes 1 (len e.1) ++ e.1 ++ wire e.2.

Definition body_wire (t : dict) : bytes := flat_map entry_wire t.

Definition table_wire (t : dict) : bytes :=
  be_bytes 4 (len (body_wire t)) ++ body_wire t.

(** What decoding the wire form of a value yields: the same value, with
    every decimal in the representation the decoder builds. *)
Fixpoint decoded (v : pyobj) : pyobj :=
  match v with
  | VDecimal d =>
      let value := normalize d in
      if _exp value <? 0
      then VDecimal (mkDecimal false (signed_int value) (_exp value))
      else VDecimal (mkDecimal false (signed_int value * 10 ^ _exp value) 0)
  | VDict t => VDict (map (λ e, (e.1, decoded e.2)) t)
  | VList l => VList (map decoded l)
  | _ => v
  end.

Definition decoded_dict (t : dict) : dict := map (λ e, (e.1, decoded e.2)) t.

(** The decimals that the codec carries: not negative, of at most 28
    digits, and after normalisation either a scale of at most 255 with a
    coefficient below 2^31, or an integer below 2^32. *)
Definition wf_decimal (d : Decimal) : bool :=
  let value := normalize d in
  bool_decide (_sign d = false ∧ 0 ≤ _int d < 10 ^ prec)
  && (if _exp value <? 0
      then bool_decide (- _exp value ≤ 255 ∧ _int value < 2 ^ 31)
      else bool_decide (_int value * 10 ^ _exp value < 2 ^ 32)).

(** The values that the codec carries: strings, integers of 32 bits
    without sign, the decimals above, datetimes of whole seconds from the
    epoch to year 9999, dictionaries with distinct keys of at most 255
    bytes, and lists of dictionaries; every length field fits 32 bits. *)
Fixpoint wf (v : pyobj) : bool :=
  match v with
  | VStr s => bool_decide (len s < 2 ^ 32)
  | VInt n => bool_decide (0 ≤ n < 2 ^ 32)
  | VDecimal d => wf_decimal d
  | VDatetime t =>
      bool_decide (0 ≤ seconds t ≤ MAX_TIMESTAMP ∧ microsecond t = 0)
  | VDict t =>
      forallb (λ e, bool_decide (len e.1 ≤ 255) && wf e.2) t
      && bool_decide (NoDup t.*1)
      && bool_decide (len (wire v) < 2 ^ 32 + 5)
  | VList l =>
      forallb (λ v, match v with VDict _ => wf v | _ => false end) l
      && bool_decide (len (wire v) < 2 ^ 32 + 5)
  | VNone | VOther => false
  end.

Global Instance datetime_eq_decision : EqDecision datetime.
Proof. solve_decision. Defined.

(** [a == b] on the values above; dictionaries are compared entry by
    entry in iteration order, which entails their equality as
    mappings. *)
Fixpoint py_eqb (a b : pyobj) : bool :=
  match a, b with
  | VStr s, VStr s' => bool_decide (s = s')
  | VInt n, VInt n' => bool_decide (n = n')
  | VDecimal d, VDecimal d' => Decimal_eqb d d'
  | VDatetime t, VDatetime t' => bool_decide (t = t')
  | VDict t, VDict t' =>
      (fix go (t t' : dict) : bool :=
         match t, t' with
         | [], [] => true
         | (k, v) :: t, (k', v') :: t' =>
             bool_decide (k = k') && py_eqb v v' && go t t'
         | _, _ => false
         end) t t'
  | VList l, VList l' =>
      (fix go (l l' : list pyobj) : bool :=
         match l, l' with
         | [], [] => true
         | v :: l, v' :: l' => py_eqb v v' && go l l'
         | _, _ => false
         end) l l'
  | VNone, VNone => true
  | _, _ => false
  end.

(** A table with one value of each kind. *)
Definition sample_table : dict :=
  [(str "x-max-length", VInt 1000);
   (str "x-stamp", VDatetime (mkDatetime 1577836800 0));
   (str "nested", VDict [(str "a", VStr (str "b"))]);
   (str "price", VDecimal (mkDecimal false 1250 (-2)));
   (str "hops", VList [VDict [(str "n", VInt 1)]; VDict []])].

(** The part of the loop body of [decode_table] that reads a value
    of a given kind. *)
Definition decode_value (fuel : nat) (encoded : bytes) (kind : byte)
    (offset : Z) : res (pyobj * Z) :=
  if decide (kind = "S"%byte) then
    length ← unpack_from_I encoded offset;
    let offset := offset + 4 in
    let value := slice encoded offset (offset + length) in
    Ok (VStr value, offset + length)
  else if decide (kind = "I"%byte) then
    value ← unpack_from_I encoded offset;
    Ok (VInt value, offset + 4)
  else if decide (kind = "D"%byte) then
    decimals ← unpack_from_B encoded offset;
    let offset := offset + 1 in
    raw ← unpack_from_I encoded offset;
    Ok (VDecimal (mkDecimal false raw (- decimals)), offset + 4)
  else if decide (kind = "T"%byte) then
    t ← unpack_from_Q encoded offset;
    value ← utcfromtimestamp t;
    Ok (VDatetime value, offset + 8)
  else if decide (kind = "F"%byte) then
    '(value, offset) ← decode_table_fuel fuel encoded offset;
    Ok (VDict value, offset)
  else if decide (kind = "A"%byte) then
    length ← unpack_from_I encoded offset;
    let offset := offset + 4 in
    let offset_end := offset + length in
    '(value, offset) ← decode_array fuel encoded offset_end [] offset;
    if decide (offset ≠ offset_end) then Raise TableDecodingError
    else Ok (VList value, offset)
  else Raise InvalidTableError.

(** The tag of a value on the wire. *)
Definition tag_of (v : pyobj) : byte :=
  match v with
  | VStr _ => "S"
  | VInt _ => "I"
  | VDecimal _ => "D"
  | VDatetime _ => "T"
  | VDict _ => "F"
  | _ => "A"
  end.

(** The dictionary that the decoder builds from the entries it reads. *)
Definition collect (result : dict) (t : dict) : dict :=
  foldl (λ d e, dict_set d e.1 (decoded e.2)) result t.

Definition piece_wire (l : list pyobj) : bytes :=
  flat_map (λ v, drop 1 (wire v)) l.

(** Decoding the wire form of a value, after its tag, gives the value
    back and stops right behind it. *)
Definition decodes_value (v : pyobj) : Prop :=
  ∀ fuel (encoded pre post : bytes),
    wf v = true →
    encoded = pre ++ wire v ++ post →
    (length (wire v) ≤ fuel)%nat →
    decode_value fuel encoded (tag_of v) (len pre + 1)
    = Ok (decoded v, len pre + len (wire v)).

(** Decoding the wire form of a table gives the table back. *)
Definition decodes_table (t : dict) : Prop :=
  wf (VDict t) = true →
  ∀ fuel (encoded pre post : bytes),
    encoded = pre ++ table_wire t ++ post →
    (length (table_wire t) ≤ fuel)%nat →
    decode_table_fuel fuel encoded (len pre)
    = Ok (decoded_dict t, len pre + len (table_wire t)).

(** [encode_value] appends pieces whose concatenation is the wire form
    of the value and returns its length. *)
Definition encodes_value (v : pyobj) : Prop :=
  wf v = true →
  ∀ pieces, ∃ ps,
    encode_value v pieces = Ok (pieces ++ ps, len (wire v))
    ∧ concat ps = wire v.

Definition encodes_table (t : dict) : Prop :=
  wf (VDict t) = true →
  ∀ pieces, ∃ ps,
    encode_dict encode_value pieces t = Ok (pieces ++ ps, len (table_wire t))
    ∧ concat ps = table_wire t.

(** ** Vocabulary of the further properties *)

(** The outcome of a decoding step that came to an end: a result whose
    offset is not before the given one, or a Python exception. *)
Definition ends_from {A} (offset : Z) (r : res (A * Z)) : Prop :=
  match r with
  | Ok (_, o) => offset ≤ o
  | Raise e => e ≠ OutOfFuel
  end.


(** An operation of the engine is bounded when it never reaches the
    recursion bound of its loops. *)
Definition bounded {A} (m : M A) : Prop := ∀ c, (m c).1 ≠ Raise OutOfFuel.

(** The frames that [on_data_available] hands to the channel numbered
    [n]: content frames, and method frames for which no callback is
    pending. *)
Definition for_channel (c : Connection) (n : Z) (f : frame) : Prop :=
  match f with
  | FrameHeader k _ _ | FrameBody k _ => k = n
  | FrameMethod k m => k = n ∧ entries c n (method_key m) = []
  | _ => False
  end.

(** A connection as [__init__] leaves it when it is given a callable to
    notify of the opening. *)
Definition fresh_connection : Connection :=
  (__init__ sample_parameters (Some (external 1)) ∅).2.

(** An open connection with the channels 1 and 2. *)
Definition busy_connection : Connection :=
  set_channels (λ _, <[1 := mkChannel 1 (external 1)]>
                       (<[2 := mkChannel 2 (external 2)]> ∅))
    (open_connection sample_parameters
       (mkConnectionState (Some 0) (Some 131072))).

(** * Properties *)

(** ** Lengths *)

Lemma len_nil {A} : len (@nil A) = 0.
Proof. done. Qed.

Lemma len_cons {A} (x : A) l : len (x :: l) = 1 + len l.
Proof. unfold len. simpl. lia. Qed.

Lemma len_app {A} (l1 l2 : list A) : len (l1 ++ l2) = len l1 + len l2.
Proof. unfold len. rewrite length_app. lia. Qed.

Lemma len_nonneg {A} (l : list A) : 0 ≤ len l.
Proof. unfold len. lia. Qed.

Lemma len_take {A} (l : list A) n :
  0 ≤ n ≤ len l → len (take (Z.to_nat n) l) = n.
Proof. unfold len. intros H. rewrite length_take. lia. Qed.

Lemma len_drop {A} (l : list A) n :
  0 ≤ n ≤ len l → len (drop (Z.to_nat n) l) = len l - n.
Proof. unfold len. intros H. rewrite length_drop. lia. Qed.

(** ** The struct module *)

Lemma Z_of_byte_of_Z z : Z_of_byte (byte_of_Z z) = z mod 256.
Proof.
  unfold Z_of_byte, byte_of_Z.
  pose proof (Z.mod_pos_bound z 256 ltac:(lia)) as Hb.
  destruct (Byte.of_N (Z.to_N (z mod 256))) as [b|] eqn:E.
  - apply Byte.to_of_N in E. rewrite E. lia.
  - apply Byte.of_N_None_iff in E. lia.
Qed.

Lemma be_bytes_length n z : length (be_bytes n z) = n.
Proof. induction n as [|n IH]; simpl; [done|by rewrite IH]. Qed.

Lemma len_be_bytes n z : len (be_bytes n z) = Z.of_nat n.
Proof. unfold len. by rewrite be_bytes_length. Qed.

Lemma be_uint_acc n z a :
  fold_left (λ acc b, acc * 256 + Z_of_byte b) (be_bytes n z) a
  = a * 256 ^ Z.of_nat n + z mod 256 ^ Z.of_nat n.
Proof.
  revert a. induction n as [|n IH]; intros a.
  - simpl. rewrite Z.mod_1_r. lia.
  - cbn [be_bytes fold_left]. rewrite IH Z_of_byte_of_Z.
    rewrite Nat2Z.inj_succ Z.pow_succ_r; [|lia].
    rewrite (Z.mul_comm 256 (256 ^ _)).
    rewrite (Z.rem_mul_r z (256 ^ Z.of_nat n) 256); [|lia|lia]. lia.
Qed.

Lemma be_uint_be_bytes n z :
  0 ≤ z < 256 ^ Z.of_nat n → be_uint (be_bytes n z) = z.
Proof.
  intros H. unfold be_uint. rewrite be_uint_acc Z.mod_small; lia.
Qed.

Lemma pack_uint_ok n z :
  0 ≤ z < 256 ^ Z.of_nat n → pack_uint n z = Ok (be_bytes n z).
Proof. intros H. unfold pack_uint. by rewrite decide_True. Qed.

(** Reading at the end of a prefix. *)
Lemma unpack_from_uint_at n (encoded pre post : bytes) offset z :
  encoded = pre ++ be_bytes n z ++ post → offset = len pre →
  0 ≤ z < 256 ^ Z.of_nat n →
  unpack_from_uint n encoded offset = Ok z.
Proof.
  intros -> -> Hz. unfold unpack_from_uint.
  rewrite decide_True; last first.
  { rewrite !len_app len_be_bytes. pose proof (len_nonneg pre).
    pose proof (len_nonneg post). lia. }
  unfold len. rewrite Nat2Z.id drop_app_length.
  rewrite take_app_length'; [|by rewrite be_bytes_length].
  by rewrite be_uint_be_bytes.
Qed.

Lemma slice_at (encoded pre s post : bytes) lo hi :
  encoded = pre ++ s ++ post → lo = len pre → hi = len pre + len s →
  slice encoded lo hi = s.
Proof.
  intros -> -> ->. unfold slice, len.
  rewrite Nat2Z.id drop_app_length.
  replace (Z.to_nat _) with (length s) by lia.
  by rewrite take_app_length.
Qed.

Lemma index_at (encoded pre post : bytes) b offset :
  encoded = pre ++ b :: post → offset = len pre →
  index encoded offset = Ok b.
Proof.
  intros -> ->. unfold index. rewrite decide_True; [|apply len_nonneg].
  unfold len. rewrite Nat2Z.id list_lookup_middle //.
Qed.

(** ** Induction on values *)

Section pyobj_rect.
Variable P : pyobj → Prop.
Hypothesis HStr : ∀ s, P (VStr s).
Hypothesis HInt : ∀ n, P (VInt n).
Hypothesis HDecimal : ∀ d, P (VDecimal d).
Hypothesis HDatetime : ∀ t, P (VDatetime t).
Hypothesis HDict : ∀ t, Forall (λ e, P e.2) t → P (VDict t).
Hypothesis HList : ∀ l, Forall P l → P (VList l).
Hypothesis HNone : P VNone.
Hypothesis HOther : P VOther.

Fixpoint pyobj_nested_ind (v : pyobj) : P v :=
  match v with
  | VStr s => HStr s
  | VInt n => HInt n
  | VDecimal d => HDecimal d
  | VDatetime t => HDatetime t
  | VDict t =>
      HDict t ((fix go (t : dict) : Forall (λ e, P e.2) t :=
                  match t with
                  | [] => List.Forall_nil _
                  | e :: t => List.Forall_cons _ _ _ (pyobj_nested_ind e.2) (go t)
                  end) t)
  | VList l =>
      HList l ((fix go (l : list pyobj) : Forall P l :=
                  match l with
                  | [] => List.Forall_nil _
                  | v :: l => List.Forall_cons _ _ _ (pyobj_nested_ind v) (go l)
                  end) l)
  | VNone => HNone
  | VOther => HOther
  end.
End pyobj_rect.

(** ** Decoding the wire form *)

Lemma wire_dict t : wire (VDict t) = ["F"%byte] ++ table_wire t.
Proof. done. Qed.

Lemma wire_list l :
  wire (VList l) =
  ["A"%byte] ++ be_bytes 4 (len (flat_map (λ v, drop 1 (wire v)) l))
    ++ flat_map (λ v, drop 1 (wire v)) l.
Proof. done. Qed.

Ltac offsets :=
  repeat first [rewrite len_app | rewrite len_cons | rewrite len_be_bytes
               | rewrite len_nil];
  try lia.

Ltac layout := rewrite -?app_assoc /=; rewrite -?app_assoc //.

Lemma decode_entries_unfold fuel encoded limit result offset :
  decode_entries (S fuel) encoded limit result offset =
    if decide (offset < limit) then
      keylen ← unpack_from_B encoded offset;
      kind ← index encoded (offset + 1 + keylen);
      '(value, offset') ←
        decode_value fuel encoded kind (offset + 1 + keylen + 1);
      decode_entries fuel encoded limit
        (dict_set result (slice encoded (offset + 1) (offset + 1 + keylen)) value)
        offset'
    else Ok (result, offset).
Proof. reflexivity. Qed.

(** Reading the key and the tag of an entry. *)
Lemma decode_entries_entry fuel (encoded pre post key : bytes) tag limit result :
  encoded = pre ++ be_bytes 1 (len key) ++ key ++ [tag] ++ post →
  len key ≤ 255 → len pre < limit →
  decode_entries (S fuel) encoded limit result (len pre) =
    '(value, offset) ←
      decode_value fuel encoded tag (len pre + 1 + len key + 1);
    decode_entries fuel encoded limit (dict_set result key value) offset.
Proof.
  intros -> Hkey Hlim. pose proof (len_nonneg key).
  rewrite decode_entries_unfold decide_True //.
  unfold unpack_from_B.
  rewrite (unpack_from_uint_at 1 _ pre (key ++ [tag] ++ post) _ (len key));
    [|layout|done|simpl; lia].
  cbn [mbind res_bind].
  rewrite (slice_at _ (pre ++ be_bytes 1 (len key)) key ([tag] ++ post));
    [|layout|offsets|offsets].
  rewrite (index_at _ (pre ++ be_bytes 1 (len key) ++ key) post tag);
    [|layout|offsets].
  done.
Qed.

Lemma wire_tag v : wf v = true → wire v = [tag_of v] ++ drop 1 (wire v).
Proof. destruct v; try done. simpl. by destruct (_ <? 0). Qed.

Lemma wire_nonempty v : wf v = true → 1 ≤ len (wire v).
Proof.
  intros H. rewrite (wire_tag v H) len_app len_cons len_nil.
  pose proof (len_nonneg (drop 1 (wire v))). lia.
Qed.

(** ** Decimals *)

Lemma ndigits_aux_le fuel c n :
  0 ≤ c < 10 ^ n → 1 ≤ n → ndigits_aux fuel c ≤ n.
Proof.
  revert c n. induction fuel as [|fuel IH]; intros c n Hc Hn; simpl; [lia|].
  destruct (Z.ltb_spec c 10) as [Hlt|Hge]; [lia|].
  assert (2 ≤ n).
  { destruct (decide (n = 1)) as [->|]; [|lia]. simpl in Hc. lia. }
  assert (ndigits_aux fuel (c / 10) ≤ n - 1); [|lia].
  apply IH; [|lia]. split; [apply Z.div_pos; lia|].
  apply Z.div_lt_upper_bound; [lia|].
  replace n with (Z.succ (n - 1)) in Hc by lia.
  rewrite Z.pow_succ_r in Hc; lia.
Qed.

Lemma _fix_small d : 0 ≤ _int d < 10 ^ prec → _fix d = d.
Proof.
  intros H. unfold _fix.
  rewrite (proj2 (Z.leb_le _ _)) //.
  apply ndigits_aux_le; [done|by unfold prec].
Qed.

Lemma strip_zeros_spec fuel c e :
  0 ≤ c →
  let r := strip_zeros fuel c e in
  0 ≤ r.1 ≤ c ∧ e ≤ r.2 ∧ c = r.1 * 10 ^ (r.2 - e).
Proof.
  revert c e. induction fuel as [|fuel IH]; intros c e Hc; simpl.
  - rewrite Z.sub_diag. lia.
  - destruct (Z.eqb_spec (c mod 10) 0) as [Hm|Hm]; simpl;
      [|rewrite Z.sub_diag; lia].
    destruct (IH (c / 10) (e + 1)) as (H1 & H2 & H3); [apply Z.div_pos; lia|].
    assert (c = 10 * (c / 10)) as Hc10.
    { pose proof (Z.div_mod c 10 ltac:(lia)). lia. }
    destruct (strip_zeros fuel (c / 10) (e + 1)) as [c' e']. simpl in *.
    split_and!; [lia|lia|lia|].
    replace (e' - e) with (Z.succ (e' - (e + 1))) by lia.
    rewrite Z.pow_succ_r; [|lia]. lia.
Qed.

(** What normalisation yields on a decimal that is not negative and
    fits the precision: a coefficient that is not negative, and the same
    value. *)
Lemma normalize_spec d :
  _sign d = false → 0 ≤ _int d < 10 ^ prec →
  let value := normalize d in
  _sign value = false ∧ 0 ≤ _int value ∧ signed_int value = _int value
  ∧ ((_int d = 0 ∧ _int value = 0 ∧ _exp value = 0)
     ∨ (_exp d ≤ _exp value
        ∧ _int d = _int value * 10 ^ (_exp value - _exp d))).
Proof.
  intros Hs Hc. unfold normalize. rewrite _fix_small //.
  destruct (Z.eqb_spec (_int d) 0) as [H0|H0].
  - rewrite /signed_int. cbn [_sign _int _exp]. rewrite Hs.
    split_and!; try done. by left.
  - destruct (strip_zeros_spec (Z.to_nat prec) (_int d) (_exp d))
      as (H1 & H2 & H3); [lia|].
    destruct (strip_zeros (Z.to_nat prec) (_int d) (_exp d)) as [c e].
    cbn [fst snd] in H1, H2, H3.
    rewrite /signed_int. cbn [_sign _int _exp]. rewrite Hs.
    split_and!; try done; [lia|]. right. done.
Qed.

(** ** Values, entries, tables and arrays *)

Ltac pick_kind :=
  unfold decode_value;
  repeat (case_decide; [done|]);
  case_decide; [|done].

Lemma decodes_value_str s : decodes_value (VStr s).
Proof.
  intros fuel encoded pre post Hwf -> Hfuel.
  apply bool_decide_eq_true in Hwf. pose proof (len_nonneg s).
  cbn [tag_of wire decoded]. pick_kind. unfold unpack_from_I.
  rewrite (unpack_from_uint_at 4 _ (pre ++ ["S"%byte]) (s ++ post) _ (len s));
    [|layout|offsets|simpl; lia].
  cbn [mbind res_bind].
  rewrite (slice_at _ (pre ++ ["S"%byte] ++ be_bytes 4 (len s)) s post);
    [|layout|offsets|offsets].
  do 2 f_equal. offsets.
Qed.

Lemma decodes_value_int n : decodes_value (VInt n).
Proof.
  intros fuel encoded pre post Hwf -> Hfuel.
  apply bool_decide_eq_true in Hwf.
  cbn [tag_of wire decoded]. pick_kind. unfold unpack_from_I.
  rewrite (unpack_from_uint_at 4 _ (pre ++ ["I"%byte]) post _ n);
    [|layout|offsets|simpl; lia].
  cbn [mbind res_bind]. do 2 f_equal. offsets.
Qed.

Lemma decodes_value_datetime t : decodes_value (VDatetime t).
Proof.
  intros fuel encoded pre post Hwf -> Hfuel.
  apply bool_decide_eq_true in Hwf as (Hs & Hm).
  cbn [tag_of wire decoded]. pick_kind. unfold unpack_from_Q.
  rewrite (unpack_from_uint_at 8 _ (pre ++ ["T"%byte]) post _ (seconds t));
    [|layout|offsets|unfold MAX_TIMESTAMP in Hs; simpl; lia].
  cbn [mbind res_bind]. unfold utcfromtimestamp.
  rewrite decide_True; [|lia]. cbn [mbind res_bind].
  destruct t as [s m]; simpl in *; subst m. do 2 f_equal. offsets.
Qed.

Lemma decodes_value_decimal d : decodes_value (VDecimal d).
Proof.
  intros fuel encoded pre post Hwf -> Hfuel.
  cbn [wf] in Hwf. unfold wf_decimal in Hwf.
  apply andb_true_iff in Hwf as [Hd Hr].
  apply bool_decide_eq_true in Hd as [Hs Hc].
  destruct (normalize_spec d Hs Hc) as (Hs' & Hc' & Hsi & _).
  cbn [tag_of wire decoded]. cbv zeta.
  destruct (Z.ltb_spec (_exp (normalize d)) 0) as [Hneg|Hpos].
  - apply bool_decide_eq_true in Hr as [Hr1 Hr2].
    pick_kind. unfold unpack_from_B, unpack_from_I.
    rewrite (unpack_from_uint_at 1 _ (pre ++ ["D"%byte])
               (be_bytes 4 (signed_int (normalize d)) ++ post) _
               (- _exp (normalize d))); [|layout|offsets|simpl; lia].
    cbn [mbind res_bind].
    rewrite (unpack_from_uint_at 4 _
               (pre ++ ["D"%byte] ++ be_bytes 1 (- _exp (normalize d))) post _
               (signed_int (normalize d))); [|layout|offsets|simpl; lia].
    cbn [mbind res_bind]. rewrite Z.opp_involutive. do 2 f_equal. offsets.
  - apply bool_decide_eq_true in Hr.
    assert (0 ≤ _int (normalize d) * 10 ^ _exp (normalize d)).
    { apply Z.mul_nonneg_nonneg; [done|]. apply Z.pow_nonneg. lia. }
    pick_kind. unfold unpack_from_B, unpack_from_I.
    rewrite (unpack_from_uint_at 1 _ (pre ++ ["D"%byte])
               (be_bytes 4 (signed_int (normalize d) * 10 ^ _exp (normalize d))
                  ++ post) _ 0); [|layout|offsets|simpl; lia].
    cbn [mbind res_bind].
    rewrite (unpack_from_uint_at 4 _ (pre ++ ["D"%byte] ++ be_bytes 1 0) post _
               (signed_int (normalize d) * 10 ^ _exp (normalize d)));
      [|layout|offsets|rewrite Hsi; simpl; lia].
    cbn [mbind res_bind]. do 2 f_equal. offsets.
Qed.

Lemma body_wire_cons e t : body_wire (e :: t) = entry_wire e ++ body_wire t.
Proof. done. Qed.

Lemma len_entry_wire k v :
  len (entry_wire (k, v)) = 1 + len k + len (wire v).
Proof. unfold entry_wire. cbn [fst snd]. by offsets. Qed.

(** The loop over the entries of a table. *)
Lemma decode_entries_spec t :
  Forall (λ e, decodes_value e.2) t →
  Forall (λ e, len e.1 ≤ 255 ∧ wf e.2 = true) t →
  ∀ fuel (encoded pre post : bytes) result,
    encoded = pre ++ body_wire t ++ post →
    (length (body_wire t) < fuel)%nat →
    decode_entries fuel encoded (len pre + len (body_wire t)) result (len pre)
    = Ok (collect result t, len pre + len (body_wire t)).
Proof.
  induction t as [|[k v] t IH]; intros Hdec Hwf fuel encoded pre post result
    Henc Hfuel.
  - destruct fuel as [|fuel]; [simpl in Hfuel; lia|].
    rewrite decode_entries_unfold decide_False; [|rewrite len_nil; lia].
    by rewrite /collect /= len_nil Z.add_0_r.
  - apply Forall_cons in Hdec as [Hv Hdec].
    apply Forall_cons in Hwf as [[Hk Hwfv] Hwf]. cbn [fst snd] in *.
    destruct fuel as [|fuel]; [simpl in Hfuel; lia|].
    pose proof (wire_nonempty v Hwfv) as Hne.
    pose proof (len_nonneg k). pose proof (len_nonneg (body_wire t)).
    assert (Hlen : len (body_wire ((k, v) :: t))
                   = 1 + len k + len (wire v) + len (body_wire t)).
    { rewrite body_wire_cons len_app len_entry_wire. lia. }
    assert (Hfuel' : (length (wire v) + length (body_wire t) + 1 < S fuel)%nat).
    { revert Hfuel. rewrite body_wire_cons /entry_wire /= !length_app. lia. }
    rewrite (decode_entries_entry fuel encoded pre
               (drop 1 (wire v) ++ body_wire t ++ post) k (tag_of v));
      [|rewrite Henc body_wire_cons /entry_wire /= (wire_tag v Hwfv);
        cbn [app fst snd]; layout|done|lia].
    replace (len pre + 1 + len k + 1)
      with (len (pre ++ be_bytes 1 (len k) ++ k) + 1) by offsets.
    rewrite (Hv fuel encoded (pre ++ be_bytes 1 (len k) ++ k)
               (body_wire t ++ post) Hwfv);
      [|rewrite Henc body_wire_cons /entry_wire /=; layout|lia].
    cbn [mbind res_bind].
    replace (len (pre ++ be_bytes 1 (len k) ++ k) + len (wire v))
      with (len (pre ++ entry_wire (k, v))) by (rewrite /entry_wire /=; offsets).
    replace (len pre + len (body_wire ((k, v) :: t)))
      with (len (pre ++ entry_wire (k, v)) + len (body_wire t))
      by (rewrite len_app len_entry_wire; lia).
    rewrite (IH Hdec Hwf fuel encoded (pre ++ entry_wire (k, v)) post);
      [done|rewrite Henc body_wire_cons; layout|lia].
Qed.

(** A table: the length of its body, then its entries. *)
Lemma decode_table_spec t :
  Forall (λ e, decodes_value e.2) t →
  Forall (λ e, len e.1 ≤ 255 ∧ wf e.2 = true) t →
  len (body_wire t) < 2 ^ 32 →
  ∀ fuel (encoded pre post : bytes),
    encoded = pre ++ table_wire t ++ post →
    (length (table_wire t) ≤ fuel)%nat →
    decode_table_fuel fuel encoded (len pre)
    = Ok (collect [] t, len pre + len (table_wire t)).
Proof.
  intros Hdec Hwf Hsize fuel encoded pre post Henc Hfuel.
  pose proof (len_nonneg (body_wire t)).
  assert (Hl : length (table_wire t) = (4 + length (body_wire t))%nat).
  { by rewrite /table_wire length_app be_bytes_length. }
  destruct fuel as [|fuel]; [lia|].
  cbn [decode_table_fuel]. unfold unpack_from_I.
  rewrite (unpack_from_uint_at 4 _ pre (body_wire t ++ post) _
             (len (body_wire t)));
    [|rewrite Henc /table_wire; layout|done|simpl; lia].
  cbn [mbind res_bind].
  replace (len pre + 4) with (len (pre ++ be_bytes 4 (len (body_wire t))))
    by offsets.
  rewrite (decode_entries_spec t Hdec Hwf fuel encoded
             (pre ++ be_bytes 4 (len (body_wire t))) post);
    [|rewrite Henc /table_wire; layout|lia].
  do 2 f_equal. rewrite /table_wire. offsets.
Qed.

Lemma dict_set_fresh (d : dict) k v :
  k ∉ d.*1 → dict_set d k v = d ++ [(k, v)].
Proof.
  induction d as [|[k' x] d IH]; intros Hk; simpl; [done|].
  rewrite fmap_cons not_elem_of_cons in Hk. destruct Hk as [Hne Hk].
  rewrite decide_False; [|done]. by rewrite IH.
Qed.

Lemma decoded_dict_keys t : (decoded_dict t).*1 = t.*1.
Proof.
  induction t as [|e t IH]; [done|].
  unfold decoded_dict in *. simpl. by f_equal.
Qed.

Lemma collect_NoDup result t :
  NoDup (result.*1 ++ t.*1) → collect result t = result ++ decoded_dict t.
Proof.
  revert result. induction t as [|[k v] t IH]; intros result Hnd.
  - by rewrite /collect /= app_nil_r.
  - rewrite /collect /=. fold (collect (dict_set result k (decoded v)) t).
    simpl in Hnd. apply NoDup_app in Hnd as (H1 & H2 & H3).
    apply NoDup_cons in H3 as [H3 H4].
    assert (k ∉ result.*1) as Hk.
    { intros Hin. apply (H2 k Hin). by left. }
    rewrite dict_set_fresh // IH.
    + by rewrite -app_assoc.
    + rewrite fmap_app /= -app_assoc /=. apply NoDup_app. split_and!; [done| |].
      * intros x Hx [->|Hx']%elem_of_cons; [done|]. apply (H2 x Hx). by right.
      * by apply NoDup_cons.
Qed.

Lemma wf_dict t :
  wf (VDict t) = true →
  Forall (λ e, len e.1 ≤ 255 ∧ wf e.2 = true) t
  ∧ NoDup t.*1 ∧ len (body_wire t) < 2 ^ 32.
Proof.
  cbn [wf]. intros [[H1 H2]%andb_true_iff H3]%andb_true_iff.
  apply bool_decide_eq_true in H2. apply bool_decide_eq_true in H3.
  split_and!; [|done|].
  - apply Forall_forall. intros e He.
    rewrite forallb_forall in H1. apply list_elem_of_In, H1 in He.
    apply andb_true_iff in He as [He1 He2].
    by apply bool_decide_eq_true in He1.
  - revert H3. rewrite wire_dict /table_wire. offsets.
Qed.

Lemma wf_list l :
  wf (VList l) = true →
  Forall (λ v, ∃ t, v = VDict t ∧ wf v = true) l
  ∧ len (piece_wire l) < 2 ^ 32.
Proof.
  cbn [wf]. intros [H1 H3]%andb_true_iff.
  apply bool_decide_eq_true in H3. split.
  - apply Forall_forall. intros v Hv.
    rewrite forallb_forall in H1. apply list_elem_of_In, H1 in Hv.
    destruct v; try done. by eexists.
  - revert H3. rewrite wire_list. fold (piece_wire l). offsets.
Qed.

Lemma decodes_table_intro t :
  Forall (λ e, decodes_value e.2) t → decodes_table t.
Proof.
  intros Hdec Hwf fuel encoded pre post Henc Hfuel.
  destruct (wf_dict t Hwf) as (Hall & Hnd & Hsize).
  rewrite (decode_table_spec t Hdec Hall Hsize fuel encoded pre post) //.
  by rewrite collect_NoDup.
Qed.

(** The loop over the tables of an array. *)
Lemma decode_array_spec l :
  Forall (λ v, ∃ t, v = VDict t ∧ wf v = true ∧ decodes_table t) l →
  ∀ fuel (encoded pre post : bytes) value,
    encoded = pre ++ piece_wire l ++ post →
    (length (piece_wire l) < fuel)%nat →
    decode_array fuel encoded (len pre + len (piece_wire l)) value (len pre)
    = Ok (value ++ map decoded l, len pre + len (piece_wire l)).
Proof.
  induction l as [|v l IH]; intros Hl fuel encoded pre post value Henc Hfuel.
  - destruct fuel as [|fuel]; [simpl in Hfuel; lia|].
    cbn [decode_array]. rewrite decide_False; [|rewrite len_nil; lia].
    by rewrite /= len_nil Z.add_0_r app_nil_r.
  - apply Forall_cons in Hl as [(t & -> & Hwf & Ht) Hl].
    destruct fuel as [|fuel]; [simpl in Hfuel; lia|].
    assert (Hp : piece_wire (VDict t :: l) = table_wire t ++ piece_wire l) by done.
    assert (Hl4 : length (table_wire t) = (4 + length (body_wire t))%nat).
    { by rewrite /table_wire length_app be_bytes_length. }
    assert (Hz4 : len (table_wire t) = 4 + len (body_wire t)).
    { rewrite /table_wire. by offsets. }
    pose proof (len_nonneg (body_wire t)). pose proof (len_nonneg (piece_wire l)).
    rewrite Hp length_app in Hfuel.
    cbn [decode_array]. rewrite decide_True; [|rewrite Hp len_app; lia].
    rewrite (Ht Hwf fuel encoded pre (piece_wire l ++ post));
      [|rewrite Henc Hp; layout|lia].
    cbn [mbind res_bind].
    replace (len pre + len (table_wire t)) with (len (pre ++ table_wire t))
      by offsets.
    replace (len pre + len (piece_wire (VDict t :: l)))
      with (len (pre ++ table_wire t) + len (piece_wire l))
      by (rewrite Hp; offsets).
    rewrite (IH Hl fuel encoded (pre ++ table_wire t) post);
      [|rewrite Henc Hp; layout|lia].
    by rewrite -app_assoc.
Qed.

(** Every value that the codec carries is decoded from its wire form. *)
Lemma decodes_all v :
  decodes_value v ∧ ∀ t, v = VDict t → decodes_table t.
Proof.
  induction v as [s|n|d|t|t IH|l IH| |] using pyobj_nested_ind.
  - split; [apply decodes_value_str|done].
  - split; [apply decodes_value_int|done].
  - split; [apply decodes_value_decimal|done].
  - split; [apply decodes_value_datetime|done].
  - assert (Ht : decodes_table t).
    { apply decodes_table_intro. eapply Forall_impl; [exact IH|].
      by intros e [He _]. }
    split; [|by intros t' [= <-]].
    intros fuel encoded pre post Hwf Henc Hfuel.
    cbn [tag_of]. pick_kind.
    replace (len pre + 1) with (len (pre ++ ["F"%byte])) by offsets.
    rewrite (Ht Hwf fuel encoded (pre ++ ["F"%byte]) post);
      [|rewrite Henc wire_dict; layout|revert Hfuel; rewrite wire_dict /=; lia].
    cbn [mbind res_bind]. do 2 f_equal. rewrite wire_dict. offsets.
  - split; [|done].
    intros fuel encoded pre post Hwf Henc Hfuel.
    destruct (wf_list l Hwf) as (Hall & Hsize).
    pose proof (len_nonneg (piece_wire l)).
    assert (Hl' : Forall (λ v, ∃ t, v = VDict t ∧ wf v = true ∧ decodes_table t) l).
    { apply Forall_forall. intros v Hv.
      rewrite Forall_forall in Hall. destruct (Hall v Hv) as (t & -> & Hwft).
      rewrite Forall_forall in IH. destruct (IH _ Hv) as [_ Ht].
      exists t. split_and!; [done|done|by apply Ht]. }
    rewrite wire_list in Henc. rewrite wire_list in Hfuel.
    fold (piece_wire l) in Henc, Hfuel.
    cbn [tag_of]. pick_kind. unfold unpack_from_I.
    rewrite (unpack_from_uint_at 4 _ (pre ++ ["A"%byte]) (piece_wire l ++ post)
               _ (len (piece_wire l))); [|rewrite Henc; layout|offsets|simpl; lia].
    cbn [mbind res_bind].
    replace (len pre + 1 + 4)
      with (len (pre ++ ["A"%byte] ++ be_bytes 4 (len (piece_wire l))))
      by offsets.
    rewrite (decode_array_spec l Hl' fuel encoded
               (pre ++ ["A"%byte] ++ be_bytes 4 (len (piece_wire l))) post);
      [|rewrite Henc; layout
       |rewrite !length_app be_bytes_length /= in Hfuel; lia].
    cbn [mbind res_bind]. rewrite decide_False; [|by intros Hne; apply Hne].
    cbn [decoded app]. do 2 f_equal. rewrite wire_list. fold (piece_wire l).
    offsets.
  - split; [|done]. by intros fuel encoded pre post Hwf.
  - split; [|done]. by intros fuel encoded pre post Hwf.
Qed.

(** ** Encoding produces the wire form *)

Lemma pack_int_ok n z :
  - (256 ^ Z.of_nat n / 2) ≤ z < 256 ^ Z.of_nat n / 2 →
  pack_int n z = Ok (be_bytes n z).
Proof. intros H. unfold pack_int. by rewrite decide_True. Qed.

(** The loop of [encode_table] over the items of a dictionary. *)
Lemma encode_items_spec t :
  Forall (λ e, encodes_value e.2) t →
  Forall (λ e, len e.1 ≤ 255 ∧ wf e.2 = true) t →
  ∀ pieces tablesize, ∃ qs,
    foldM (λ '(pieces, tablesize) '(key, value),
             klen ← pack_B (len key);
             let pieces := pieces ++ [klen; key] in
             let tablesize := tablesize + (1 + len key) in
             '(pieces, n) ← encode_value value pieces;
             Ok (pieces, tablesize + n))
          t (pieces, tablesize)
    = Ok (pieces ++ qs, tablesize + len (body_wire t))
    ∧ concat qs = body_wire t.
Proof.
  induction t as [|[k v] t IH]; intros Henc Hwf pieces tablesize.
  - exists []. by rewrite /= !app_nil_r len_nil Z.add_0_r.
  - apply Forall_cons in Henc as [Hv Henc].
    apply Forall_cons in Hwf as [[Hk Hwfv] Hwf]. cbn [fst snd] in *.
    pose proof (len_nonneg k).
    cbn [foldM]. unfold pack_B. rewrite pack_uint_ok; [|simpl; lia].
    cbn [mbind res_bind].
    destruct (Hv Hwfv (pieces ++ [be_bytes 1 (len k); k])) as (ps & E & Hps).
    rewrite E. cbn [mbind res_bind].
    destruct (IH Henc Hwf ((pieces ++ [be_bytes 1 (len k); k]) ++ ps)
                (tablesize + (1 + len k) + len (wire v))) as (qs & E' & Hqs).
    rewrite E'. exists ([be_bytes 1 (len k); k] ++ ps ++ qs). split.
    + do 2 f_equal; [by rewrite -!app_assoc|].
      rewrite body_wire_cons len_app len_entry_wire. lia.
    + rewrite body_wire_cons /entry_wire !concat_app Hps Hqs /=.
      by rewrite app_nil_r -!app_assoc.
Qed.

Lemma encodes_table_intro t :
  Forall (λ e, encodes_value e.2) t → encodes_table t.
Proof.
  intros Henc Hwf pieces. destruct (wf_dict t Hwf) as (Hall & _ & Hsize).
  pose proof (len_nonneg (body_wire t)).
  unfold encode_dict.
  destruct (encode_items_spec t Henc Hall (pieces ++ [[]]) 0) as (qs & E & Hqs).
  rewrite E. cbn [mbind res_bind]. unfold pack_I.
  rewrite Z.add_0_l pack_uint_ok; [|simpl; lia]. cbn [mbind res_bind].
  exists (be_bytes 4 (len (body_wire t)) :: qs). split.
  - do 2 f_equal.
    + rewrite -app_assoc insert_app_r_alt; [|lia].
      by rewrite Nat.sub_diag.
    + rewrite /table_wire. offsets.
  - by rewrite /= Hqs.
Qed.

(** The loop of [encode_table] over the tables of a list. *)
Lemma encode_list_spec l :
  Forall (λ v, ∃ t, v = VDict t ∧ wf v = true ∧ encodes_table t) l →
  ∀ p n0, ∃ qs n,
    foldM (λ '(p, _) v, encode_object encode_value p v) l (p, n0)
    = Ok (p ++ qs, n)
    ∧ concat qs = piece_wire l.
Proof.
  induction l as [|v l IH]; intros Hl p n0.
  - exists [], n0. by rewrite /= app_nil_r.
  - apply Forall_cons in Hl as [(t & -> & Hwf & Ht) Hl].
    cbn [foldM encode_object].
    destruct (Ht Hwf p) as (ps & E & Hps). rewrite E. cbn [mbind res_bind].
    destruct (IH Hl (p ++ ps) (len (table_wire t))) as (qs & n & E' & Hqs).
    rewrite E'. exists (ps ++ qs), n. split; [by rewrite -app_assoc|].
    rewrite concat_app Hps Hqs //.
Qed.

Lemma encodes_all v :
  encodes_value v ∧ ∀ t, v = VDict t → encodes_table t.
Proof.
  induction v as [s|n|d|t|t IH|l IH| |] using pyobj_nested_ind.
  - split; [|done]. intros Hwf pieces. apply bool_decide_eq_true in Hwf.
    pose proof (len_nonneg s).
    exists [["S"%byte] ++ be_bytes 4 (len s); s].
    cbn [encode_value]. unfold pack_cI, pack_I.
    rewrite pack_uint_ok; [|simpl; lia]. cbn [mbind res_bind wire].
    split; [do 2 f_equal; offsets|by rewrite /= ?app_nil_r].
  - split; [|done]. intros Hwf pieces. apply bool_decide_eq_true in Hwf.
    exists [["I"%byte] ++ be_bytes 4 n].
    cbn [encode_value]. case_decide as Hint; [|unfold maxint in Hint; lia].
    unfold pack_cI, pack_I.
    rewrite pack_uint_ok; [|simpl; lia]. cbn [mbind res_bind wire].
    split; [do 2 f_equal; offsets|by rewrite /= ?app_nil_r].
  - split; [|done]. intros Hwf pieces.
    cbn [wf] in Hwf. unfold wf_decimal in Hwf.
    apply andb_true_iff in Hwf as [Hd Hr].
    apply bool_decide_eq_true in Hd as [Hs Hc].
    destruct (normalize_spec d Hs Hc) as (Hs' & Hc' & Hsi & _).
    cbn [encode_value wire]. cbv zeta.
    destruct (Z.ltb_spec (_exp (normalize d)) 0) as [Hneg|Hpos].
    + apply bool_decide_eq_true in Hr as [Hr1 Hr2].
      unfold pack_cBi, pack_B, pack_i.
      rewrite pack_uint_ok; [|simpl; lia]. cbn [mbind res_bind].
      rewrite pack_int_ok;
        [|rewrite Hsi; change (256 ^ Z.of_nat 4 / 2) with 2147483648; lia].
      cbn [mbind res_bind].
      eexists [_]. split; [do 2 f_equal; offsets|by rewrite /= ?app_nil_r].
    + apply bool_decide_eq_true in Hr.
      assert (0 ≤ _int (normalize d) * 10 ^ _exp (normalize d)).
      { apply Z.mul_nonneg_nonneg; [done|]. apply Z.pow_nonneg. lia. }
      unfold pack_cBI, pack_B, pack_I.
      rewrite pack_uint_ok; [|rewrite ?Hsi; simpl; lia]. cbn [mbind res_bind].
      rewrite pack_uint_ok; [|rewrite ?Hsi; simpl; lia]. cbn [mbind res_bind].
      eexists [_]. split; [do 2 f_equal; offsets|by rewrite /= ?app_nil_r].
  - split; [|done]. intros Hwf pieces.
    apply bool_decide_eq_true in Hwf as (Hs & Hm).
    exists [["T"%byte] ++ be_bytes 8 (seconds t)].
    cbn [encode_value]. unfold pack_cQ, pack_Q, timegm_utctimetuple.
    rewrite pack_uint_ok; [|unfold MAX_TIMESTAMP in Hs; simpl; lia].
    cbn [mbind res_bind wire].
    split; [do 2 f_equal; offsets|by rewrite /= ?app_nil_r].
  - assert (Ht : encodes_table t).
    { apply encodes_table_intro. eapply Forall_impl; [exact IH|].
      by intros e [He _]. }
    split; [|by intros t' [= <-]].
    intros Hwf pieces. cbn [encode_value].
    destruct (Ht Hwf (pieces ++ [pack_c "F"])) as (ps & E & Hps).
    rewrite E. cbn [mbind res_bind].
    exists (pack_c "F" :: ps). split.
    + do 2 f_equal; [by rewrite -app_assoc|]. rewrite wire_dict. offsets.
    + by rewrite /= Hps.
  - split; [|done]. intros Hwf pieces.
    destruct (wf_list l Hwf) as (Hall & Hsize).
    pose proof (len_nonneg (piece_wire l)).
    assert (Hl' : Forall (λ v, ∃ t, v = VDict t ∧ wf v = true ∧ encodes_table t) l).
    { apply Forall_forall. intros v Hv.
      rewrite Forall_forall in Hall. destruct (Hall v Hv) as (t & -> & Hwft).
      rewrite Forall_forall in IH. destruct (IH _ Hv) as [_ Ht].
      exists t. split_and!; [done|done|by apply Ht]. }
    cbn [encode_value].
    destruct (encode_list_spec l Hl' [] 0) as (qs & n & E & Hqs).
    rewrite E. cbn [mbind res_bind app]. rewrite Hqs.
    unfold pack_cI, pack_I. rewrite pack_uint_ok; [|simpl; lia].
    cbn [mbind res_bind].
    exists [pack_c "A" ++ be_bytes 4 (len (piece_wire l)); piece_wire l]. split.
    + do 2 f_equal. rewrite wire_list. fold (piece_wire l). offsets.
    + rewrite wire_list. fold (piece_wire l). by rewrite /= app_nil_r.
  - split; [|done]. by intros Hwf.
  - split; [|done]. by intros Hwf.
Qed.

(** ** Equality of the decoded value *)

Lemma Decimal_eqb_decoded d :
  wf_decimal d = true →
  let value := normalize d in
  Decimal_eqb
    (if _exp value <? 0
     then mkDecimal false (signed_int value) (_exp value)
     else mkDecimal false (signed_int value * 10 ^ _exp value) 0) d = true.
Proof.
  unfold wf_decimal. intros [Hd Hr]%andb_true_iff.
  apply bool_decide_eq_true in Hd as [Hs Hc].
  destruct (normalize_spec d Hs Hc) as (Hs' & Hc' & Hsi & Hval).
  cbv zeta. rewrite Hsi. set (c' := _int (normalize d)) in *.
  set (e' := _exp (normalize d)) in *.
  unfold Decimal_eqb, signed_int. rewrite Hs.
  destruct (Z.ltb_spec e' 0) as [Hneg|Hpos]; cbn [_sign _int _exp];
    apply Z.eqb_eq.
  - destruct Hval as [(_ & _ & He0)|(Hle & Hv)]; [lia|].
    rewrite Z.min_r; [|lia]. rewrite Z.sub_diag Z.mul_1_r. lia.
  - destruct Hval as [(Hc0 & Hc0' & He0)|(Hle & Hv)].
    + rewrite Hc0 Hc0'. lia.
    + rewrite Hv. destruct (Z.le_gt_cases 0 (_exp d)) as [He|He].
      * rewrite Z.min_l; [|lia]. rewrite !Z.sub_0_r Z.mul_1_r.
        rewrite -Z.mul_assoc -Z.pow_add_r; [|lia|lia]. do 2 f_equal. lia.
      * rewrite Z.min_r; [|lia]. rewrite Z.sub_diag Z.mul_1_r.
        rewrite -Z.mul_assoc -Z.pow_add_r; [|lia|lia]. do 2 f_equal.
Qed.

Lemma py_eqb_decoded v : wf v = true → py_eqb (decoded v) v = true.
Proof.
  induction v as [s|n|d|t|t IH|l IH| |] using pyobj_nested_ind; intros Hwf;
    try done.
  - by apply bool_decide_eq_true.
  - by apply bool_decide_eq_true.
  - cbn [wf] in Hwf. pose proof (Decimal_eqb_decoded d Hwf) as H.
    cbn [decoded]. cbv zeta in *. by destruct (_ <? 0).
  - by apply bool_decide_eq_true.
  - destruct (wf_dict t Hwf) as (Hall & _ & _). clear Hwf.
    cbn [decoded py_eqb].
    induction t as [|[k v] t IHt]; [done|].
    apply Forall_cons in IH as [Hv IH].
    apply Forall_cons in Hall as [[_ Hwfv] Hall].
    cbn [map fst snd]. rewrite bool_decide_true // (Hv Hwfv) /=. by apply IHt.
  - destruct (wf_list l Hwf) as (Hall & _). clear Hwf.
    cbn [decoded py_eqb].
    induction l as [|v l IHl]; [done|].
    apply Forall_cons in IH as [Hv IH].
    apply Forall_cons in Hall as [(t & -> & Hwfv) Hall].
    cbn [map]. rewrite (Hv Hwfv) /=. by apply IHl.
Qed.

(** ** The round trip *)

Lemma table_round_trip_wire T :
  wf (VDict T) = true →
  ∃ pieces,
    encode_table [] (VDict T) = Ok (pieces, len (table_wire T))
    ∧ join pieces = table_wire T
    ∧ decode_table (table_wire T) 0 = Ok (decoded_dict T, len (table_wire T)).
Proof.
  intros Hwf.
  destruct (encodes_all (VDict T)) as [_ Henc].
  destruct (decodes_all (VDict T)) as [_ Hdec].
  destruct (Henc T eq_refl Hwf []) as (ps & E & Hps).
  exists ps. split_and!; [done|done|].
  unfold decode_table.
  rewrite (Hdec T eq_refl Hwf (S (length (table_wire T))) (table_wire T) [] []);
    [|by rewrite app_nil_r|lia]. done.
Qed.

(** C1, as the code has it: a field table whose keys are distinct
    strings of at most 255 bytes and whose values are long strings,
    integers from 0 to 2^32 - 1, decimals that are not negative and fit
    the wire (at most 28 digits; after normalisation a scale of at most
    255 with a coefficient below 2^31, or an integer below 2^32),
    datetimes of whole seconds from the epoch to year 9999, nested tables
    and arrays of tables, with every length fitting 32 bits, is encoded
    by [encode_table] and decoded by [decode_table] to a mapping with the
    same keys bound to equal values. *)
Theorem table_round_trip T :
  wf (VDict T) = true →
  ∃ pieces size T',
    encode_table [] (VDict T) = Ok (pieces, size)
    ∧ decode_table (join pieces) 0 = Ok (T', size)
    ∧ T'.*1 = T.*1
    ∧ py_eqb (VDict T') (VDict T) = true.
Proof.
  intros Hwf.
  destruct (table_round_trip_wire T Hwf) as (pieces & E & Hj & D).
  exists pieces, (len (table_wire T)), (decoded_dict T).
  rewrite Hj. split_and!; [done|done|apply decoded_dict_keys|].
  apply (py_eqb_decoded (VDict T) Hwf).
Qed.

Lemma table_round_trip_witness :
  wf (VDict sample_table) = true
  ∧ ∃ pieces size T',
      encode_table [] (VDict sample_table) = Ok (pieces, size)
      ∧ decode_table (join pieces) 0 = Ok (T', size)
      ∧ T'.*1 = sample_table.*1
      ∧ py_eqb (VDict T') (VDict sample_table) = true.
Proof.
  split; [by vm_compute|]. apply table_round_trip. by vm_compute.
Defined.

(** C1, counterexample: the table that binds ["x"] to the integer -5, a
    signed 32-bit value. [encode_table] raises [struct.error], so there
    is nothing to decode; and the two's complement form of -5 under tag
    [I] decodes to 4294967291. *)
Lemma signed_integer_not_round_tripped :
  let T := [(str "x", VInt (-5))] in
  - 2 ^ 31 ≤ -5 < 2 ^ 31
  ∧ encode_table [] (VDict T) = Raise struct_error
  ∧ ¬ (∃ pieces size,
         encode_table [] (VDict T) = Ok (pieces, size)
         ∧ decode_table (join pieces) 0 = Ok (T, size))
  ∧ decode_table (be_bytes 4 7 ++ be_bytes 1 1 ++ str "x" ++ str "I"
                    ++ be_bytes 4 (-5)) 0
    = Ok ([(str "x", VInt 4294967291)], 11).
Proof.
  intros T. split_and!; [lia|lia|by vm_compute| |by vm_compute].
  intros (pieces & size & E & _). by vm_compute in E.
Qed.

(** The same holds of a decimal below zero, which is packed as signed
    and unpacked as unsigned: -1.5 comes back as 429496728.1. *)
Lemma negative_decimal_not_round_tripped :
  let T := [(str "d", VDecimal (mkDecimal true 15 (-1)))] in
  ('(pieces, size) ← encode_table [] (VDict T); decode_table (join pieces) 0)
  = Ok ([(str "d", VDecimal (mkDecimal false 4294967281 (-1)))], 12)
  ∧ Decimal_eqb (mkDecimal false 4294967281 (-1)) (mkDecimal true 15 (-1))
    = false.
Proof. split; by vm_compute. Qed.

(** C9, as the code has it: under tag [I] an integer is packed and
    unpacked as an unsigned big-endian number of 32 bits. Every integer
    from 0 to 2^32 - 1 is encoded as [I] followed by its four bytes and
    round-trips through [encode_table] and [decode_table]; on the
    integers below zero of the signed range, from -2^31 to -1,
    [encode_table] raises [struct.error]. *)
Theorem integer_field_is_unsigned key n :
  len key ≤ 255 →
  (0 ≤ n < 2 ^ 32 →
   (∀ pieces,
      encode_value (VInt n) pieces
      = Ok (pieces ++ [["I"%byte] ++ be_bytes 4 n], 5))
   ∧ be_uint (be_bytes 4 n) = n
   ∧ ∃ pieces size,
       encode_table [] (VDict [(key, VInt n)]) = Ok (pieces, size)
       ∧ decode_table (join pieces) 0 = Ok ([(key, VInt n)], size))
  ∧ (- 2 ^ 31 ≤ n < 0 →
     ∀ pieces,
       encode_value (VInt n) pieces = Raise struct_error
       ∧ encode_table pieces (VDict [(key, VInt n)]) = Raise struct_error).
Proof.
  intros Hkey. pose proof (len_nonneg key). split.
  - intros Hn. split_and!.
    + intros pieces. cbn [encode_value].
      case_decide as Hint; [|unfold maxint in Hint; lia].
      unfold pack_cI, pack_I.
      rewrite pack_uint_ok; [|simpl; lia]. done.
    + apply be_uint_be_bytes. simpl. lia.
    + assert (Hwf : wf (VDict [(key, VInt n)]) = true).
      { cbn [wf forallb fst snd]. rewrite !bool_decide_true //.
        - rewrite wire_dict /table_wire /body_wire /= /entry_wire /=.
          offsets.
        - apply NoDup_singleton. }
      destruct (table_round_trip_wire _ Hwf) as (pieces & E & Hj & D).
      exists pieces, (len (table_wire [(key, VInt n)])). by rewrite Hj.
  - intros Hn pieces.
    assert (E : ∀ pieces, encode_value (VInt n) pieces = Raise struct_error).
    { intros ps. cbn [encode_value].
      case_decide as Hint; [|unfold maxint in Hint; lia].
      unfold pack_cI, pack_I, pack_uint.
      rewrite decide_False; [done|simpl; lia]. }
    split; [apply E|].
    unfold encode_table, encode_object, encode_dict. cbn [foldM].
    unfold pack_B. rewrite pack_uint_ok; [|simpl; lia].
    cbn [mbind res_bind]. by rewrite E.
Qed.

Lemma integer_field_is_unsigned_witness :
  len (str "x-max-length") ≤ 255
  ∧ (0 ≤ 1000 < 2 ^ 32
     ∧ ∃ pieces size,
         encode_table [] (VDict [(str "x-max-length", VInt 1000)])
         = Ok (pieces, size)
         ∧ decode_table (join pieces) 0
           = Ok ([(str "x-max-length", VInt 1000)], size))
  ∧ (- 2 ^ 31 ≤ - 2 ^ 31 < 0
     ∧ encode_table [] (VDict [(str "x-max-length", VInt (- 2 ^ 31))])
       = Raise struct_error).
Proof.
  assert (H1 : len (str "x-max-length") ≤ 255) by (by vm_compute).
  assert (H2 : 0 ≤ 1000 < 2 ^ 32) by lia.
  assert (H3 : - 2 ^ 31 ≤ - 2 ^ 31 < 0) by lia.
  split_and!; [exact H1|lia|lia| |lia|lia|].
  - destruct (integer_field_is_unsigned (str "x-max-length") 1000 H1)
      as [H _].
    destruct (H H2) as (_ & _ & H4). exact H4.
  - destruct (integer_field_is_unsigned (str "x-max-length") (- 2 ^ 31) H1)
      as [_ H].
    destruct (H H3 []) as [_ H4]. exact H4.
Defined.

(** C9, counterexample: -1 is a signed 32-bit integer, yet
    [encode_table] raises [struct.error] on it, and its signed form, four
    bytes [ff], decodes under tag [I] to 4294967295. *)
Lemma integer_field_not_signed :
  - 2 ^ 31 ≤ -1 < 2 ^ 31
  ∧ encode_table [] (VDict [(str "k", VInt (-1))]) = Raise struct_error
  ∧ decode_table (be_bytes 4 7 ++ be_bytes 1 1 ++ str "k" ++ str "I"
                    ++ be_bytes 4 (-1)) 0
    = Ok ([(str "k", VInt 4294967295)], 11)
  ∧ 4294967295 ≠ -1.
Proof. split_and!; [lia|lia|by vm_compute|by vm_compute|lia]. Qed.

(** ** Negotiation *)


Ltac run :=
  unfold mbind, mret, M_bind, M_ret, emit, modify, gets, raise; cbn.

Lemma sent_frames_app t1 t2 :
  sent_frames (t1 ++ t2) = sent_frames t1 ++ sent_frames t2.
Proof. apply omap_app. Qed.

Lemma _combine_combine a b : _combine a b = combine a b.
Proof.
  unfold _combine, combine, truthy.
  destruct (a =? 0); simpl; [done|]. by destruct (b =? 0).
Qed.

Section Negotiation.
Variable marshal : frame → bytes.
Variable tune : ConnectionState → Z → Z → ConnectionState.

(** What [_on_connection_tune] leaves behind. *)
Lemma _on_connection_tune_run c n cm fm hb :
  let p := parameters c in
  let cmax := _combine (param_channel_max p) cm in
  let fmax := _combine (param_frame_max p) fm in
  let hint := _combine (param_heartbeat p) hb in
  let r := _on_connection_tune marshal tune
             (FrameMethod n (Connection_Tune cm fm hb)) c in
  r.1 = Ok tt
  ∧ state r.2 = tune (state c) cmax fmax
  ∧ heartbeat_ r.2 = (if truthy hint then Some hint else heartbeat_ c)
  ∧ sent_frames (trace r.2) =
      sent_frames (trace c) ++
      [FrameMethod 0 (Connection_TuneOk cmax fmax hint);
       FrameMethod 0 (Connection_Open (virtual_host p) true)].
Proof.
  intros. subst r. unfold _on_connection_tune.
  unfold rpc, send_method, send_method_with, _send_frame, forM,
    callbacks_add. run.
  fold p. fold cmax fmax hint.
  destruct (truthy hint) eqn:Hh; cbn;
    rewrite /sent_frames ?omap_app -?app_assoc /= ?app_nil_r //.
Qed.

(** C3: on [Connection.Tune] each of [channel_max], [frame_max] and
    [heartbeat] is negotiated as [combine client server], where
    [combine] is the server's value when the client's is 0, the client's
    when the server's is 0, and the smaller one otherwise; these values
    are handed to the connection state and the [Connection.TuneOk] that
    is sent carries exactly them. *)
Theorem tune_negotiates_combine c n server_channel_max server_frame_max
    server_heartbeat :
  let p := parameters c in
  let cmax := combine (param_channel_max p) server_channel_max in
  let fmax := combine (param_frame_max p) server_frame_max in
  let hint := combine (param_heartbeat p) server_heartbeat in
  let r := _on_connection_tune marshal tune
             (FrameMethod n (Connection_Tune server_channel_max
                               server_frame_max server_heartbeat)) c in
  r.1 = Ok tt
  ∧ state r.2 = tune (state c) cmax fmax
  ∧ heartbeat_ r.2 = (if hint =? 0 then heartbeat_ c else Some hint)
  ∧ sent_frames (trace r.2) =
      sent_frames (trace c) ++
      [FrameMethod 0 (Connection_TuneOk cmax fmax hint);
       FrameMethod 0 (Connection_Open (virtual_host p) true)].
Proof.
  intros p cmax fmax hint r.
  destruct (_on_connection_tune_run c n server_channel_max server_frame_max
              server_heartbeat) as (H1 & H2 & H3 & H4).
  rewrite !_combine_combine in H1 H2 H3 H4.
  subst r p cmax fmax hint. repeat split; try done.
  rewrite H3 /truthy. by destruct (combine _ _ =? 0).
Qed.

(** C7, as the code has it: the [frame_max] sent in [Connection.TuneOk]
    and handed to the connection state is [combine client server] as it
    is, with no lower bound applied: a value between 1 and 4095 that the
    negotiation selects, the server's or the client's, is sent and
    handed on unchanged. It is at least 4096 when each of the two values
    is 0 or at least 4096 and they are not both 0. *)
Theorem tune_frame_max_unclamped c n server_channel_max server_frame_max
    server_heartbeat :
  let p := parameters c in
  let cmax := combine (param_channel_max p) server_channel_max in
  let fmax := combine (param_frame_max p) server_frame_max in
  let hint := combine (param_heartbeat p) server_heartbeat in
  let r := _on_connection_tune marshal tune
             (FrameMethod n (Connection_Tune server_channel_max
                               server_frame_max server_heartbeat)) c in
  (state r.2 = tune (state c) cmax fmax
   ∧ sent_frames (trace r.2) =
       sent_frames (trace c) ++
       [FrameMethod 0 (Connection_TuneOk cmax fmax hint);
        FrameMethod 0 (Connection_Open (virtual_host p) true)])
  ∧ (0 < server_frame_max < 4096 →
     param_frame_max p = 0 ∨ server_frame_max ≤ param_frame_max p →
     fmax = server_frame_max)
  ∧ (0 < param_frame_max p < 4096 →
     server_frame_max = 0 ∨ param_frame_max p ≤ server_frame_max →
     fmax = param_frame_max p)
  ∧ ((param_frame_max p = 0 ∨ 4096 ≤ param_frame_max p) →
     (server_frame_max = 0 ∨ 4096 ≤ server_frame_max) →
     fmax ≠ 0 →
     4096 ≤ fmax).
Proof.
  intros p cmax fmax hint r.
  destruct (_on_connection_tune_run c n server_channel_max
              server_frame_max server_heartbeat) as (_ & H2 & _ & H4).
  rewrite !_combine_combine in H2 H4.
  split; [done|].
  subst fmax. unfold combine.
  destruct (Z.eqb_spec (param_frame_max p) 0) as [E1|E1];
    destruct (Z.eqb_spec server_frame_max 0) as [E2|E2]; lia.
Qed.
End Negotiation.


(** C7, counterexample: the client asks for 131072, the server offers
    1000; the [TuneOk] that is sent and the recorded state carry 1000,
    which is neither 0 nor at least 4096. *)
Lemma tune_frame_max_below_4096 :
  let r := _on_connection_tune sample_marshal record_tune
             (FrameMethod 0 (Connection_Tune 0 1000 0)) new_connection in
  sent_frames (trace r.2) =
    [FrameMethod 0 (Connection_TuneOk 0 1000 0);
     FrameMethod 0 (Connection_Open (str "/") true)]
  ∧ frame_max (state r.2) = Some 1000
  ∧ ¬ (1000 = 0 ∨ 4096 ≤ 1000).
Proof. split_and!; [reflexivity | reflexivity | lia]. Qed.

Lemma tune_frame_max_unclamped_witness :
  let c := new_connection in
  let r := _on_connection_tune sample_marshal record_tune
             (FrameMethod 0 (Connection_Tune 0 2048 0)) c in
  state r.2 = mkConnectionState (Some 0) (Some 2048)
  ∧ sent_frames (trace r.2) =
      [FrameMethod 0 (Connection_TuneOk 0 2048 0);
       FrameMethod 0 (Connection_Open (str "/") true)]
  ∧ combine (param_frame_max (parameters c)) 2048 = 2048.
Proof.
  intros c r.
  destruct (tune_frame_max_unclamped sample_marshal record_tune c 0 0 2048 0)
    as ((H1 & H2) & H3 & _).
  split_and!; [exact H1|exact H2|].
  apply H3; [lia|right; by vm_compute].
Defined.

(** ** Channel allocation *)

Lemma foldl_max_ge x l : x ≤ foldl Z.max x l.
Proof.
  revert x. induction l as [|y l IH]; intros x; simpl; [lia|].
  specialize (IH (Z.max x y)). lia.
Qed.

Lemma foldl_max_elem x l : foldl Z.max x l ∈ x :: l.
Proof.
  revert x. induction l as [|y l IH]; intros x; simpl; [by left|].
  specialize (IH (Z.max x y)).
  apply elem_of_cons in IH as [IH|IH].
  - rewrite IH. destruct (Z.max_spec x y) as [[_ ->]|[_ ->]];
      [right; left|left].
  - by do 2 right.
Qed.

Lemma foldl_max_upper x l k : k ∈ l → k ≤ foldl Z.max x l.
Proof.
  revert x. induction l as [|y l IH]; intros x Hk; simpl;
    [by apply elem_of_nil in Hk|].
  apply elem_of_cons in Hk as [->|Hk].
  - pose proof (foldl_max_ge (Z.max x y) l). lia.
  - by apply IH.
Qed.

Lemma py_max_spec l :
  l ≠ [] → py_max l ∈ l ∧ ∀ k, k ∈ l → k ≤ py_max l.
Proof.
  destruct l as [|x l]; [done|]. intros _. simpl. split.
  - apply foldl_max_elem.
  - intros k [->|Hk]%elem_of_cons; [apply foldl_max_ge|by apply foldl_max_upper].
Qed.

Lemma elem_of_channel_numbers (m : gmap Z Channel) k :
  k ∈ (map_to_list m).*1 ↔ is_Some (m !! k).
Proof.
  rewrite list_elem_of_fmap. split.
  - intros [[k' ch] [-> H]]. apply elem_of_map_to_list in H. by eexists.
  - intros [ch H]. exists (k, ch). split; [done|]. by apply elem_of_map_to_list.
Qed.

Lemma channel_numbers_nil (m : gmap Z Channel) :
  (map_to_list m).*1 = [] ↔ m = ∅.
Proof.
  split.
  - intros H. apply fmap_nil_inv in H. by apply map_to_list_empty_iff.
  - intros ->. by rewrite map_to_list_empty.
Qed.

Lemma _next_channel_number_run c :
  _next_channel_number c =
    (if decide (Z.of_nat (size (_channels c)) = channel_limit c)
     then Raise NoFreeChannels
     else if decide (_channels c = ∅) then Ok 1
     else Ok (py_max (map_to_list (_channels c)).*1 + 1), c).
Proof.
  unfold _next_channel_number, channel_limit. run.
  case_decide; [done|].
  case_decide as Hl; case_decide as He; try done.
  - apply nil_length_inv, channel_numbers_nil in Hl. done.
  - subst. rewrite He map_to_list_empty in Hl. done.
Qed.


Lemma channel_run cb channel_number c :
  channel cb channel_number c =
    match chosen_number channel_number c with
    | Ok n =>
        (Ok tt,
         set_channels (<[n := mkChannel n cb]>)
           (set_callbacks
              (registry_add n "Channel.CloseOk" _on_channel_close_cb true) c))
    | Raise e => (Raise e, c)
    end.
Proof.
  unfold channel, chosen_number, callbacks_add.
  destruct channel_number as [n|]; [destruct (truthy n); [done|]|];
    rewrite /mbind /M_bind _next_channel_number_run;
    repeat case_decide; done.
Qed.

(** C5: automatic allocation ([channel] called without a number) raises
    [NoFreeChannels] when the number of channels equals [channel_max]
    (32767 when it is unset or 0) and then changes nothing; otherwise it
    allocates 1 when there is no channel and the greatest existing number
    plus one when there are some. With [channel_max = 2] and two channels
    open it raises [NoFreeChannels]. *)
Theorem channel_allocation c cb :
  let limit := match channel_max (state c) with
               | Some 0 | None => 32767
               | Some n => n
               end in
  let count := Z.of_nat (size (_channels c)) in
  let r := channel cb None c in
  (count = limit → _next_channel_number c = (Raise NoFreeChannels, c)
                   ∧ r = (Raise NoFreeChannels, c))
  ∧ (count ≠ limit → _channels c = ∅ →
       _next_channel_number c = (Ok 1, c)
       ∧ r.1 = Ok tt ∧ _channels r.2 = <[1 := mkChannel 1 cb]> (_channels c))
  ∧ (count ≠ limit → _channels c ≠ ∅ →
       ∃ m, is_Some (_channels c !! m)
            ∧ (∀ k, is_Some (_channels c !! k) → k ≤ m)
            ∧ _next_channel_number c = (Ok (m + 1), c)
            ∧ r.1 = Ok tt
            ∧ _channels r.2 = <[m + 1 := mkChannel (m + 1) cb]> (_channels c))
  ∧ (channel_max (state c) = Some 2 → size (_channels c) = 2%nat →
       r = (Raise NoFreeChannels, c)).
Proof.
  intros limit count r.
  assert (Hlimit : channel_limit c = limit).
  { unfold channel_limit, or_else, truthy, limit, CHANNEL_MAX.
    destruct (channel_max (state c)) as [[| |]|]; done. }
  assert (Hr : r = channel cb None c) by done. clearbody r.
  rewrite channel_run /chosen_number _next_channel_number_run Hlimit in Hr.
  rewrite _next_channel_number_run Hlimit. fold count.
  fold count in Hr.
  split_and!.
  - intros E. rewrite decide_True // in Hr. by rewrite decide_True.
  - intros E He. rewrite decide_False // decide_True // in Hr.
    rewrite decide_False // decide_True //. by subst r.
  - intros E He. rewrite decide_False // decide_False // in Hr.
    rewrite decide_False // decide_False //.
    destruct (py_max_spec (map_to_list (_channels c)).*1) as [Hin Hub].
    { by rewrite channel_numbers_nil. }
    exists (py_max (map_to_list (_channels c)).*1). split_and!.
    + by apply elem_of_channel_numbers.
    + intros k Hk. by apply Hub, elem_of_channel_numbers.
    + done.
    + by subst r.
    + by subst r.
  - intros Hmax Hsize.
    assert (count = limit) as E.
    { unfold count, limit. rewrite Hmax Hsize. done. }
    by rewrite decide_True // in Hr.
Qed.

Lemma channel_allocation_witness :
  let c := set_channels (λ _, <[1 := mkChannel 1 (external 1)]>
                                (<[2 := mkChannel 2 (external 2)]> ∅))
             (open_connection sample_parameters
                (mkConnectionState (Some 2) (Some 131072))) in
  size (_channels c) = 2%nat
  ∧ channel (external 3) None c = (Raise NoFreeChannels, c).
Proof.
  intros c. split; [by vm_compute|].
  apply (channel_allocation c (external 3)); by vm_compute.
Defined.

(** C6, counterexample: [channel] takes a caller-supplied number as it
    is. With [channel_max = 2] and no channel open, asking for channel 5
    leaves 5 among the keys of [_channels]. *)
Lemma supplied_channel_number_out_of_range :
  let c := open_connection sample_parameters
             (mkConnectionState (Some 2) (Some 131072)) in
  let r := channel (external 1) (Some 5) c in
  channels_in_range c ∧ r.1 = Ok tt ∧ ¬ channels_in_range r.2.
Proof.
  intros c r. split_and!.
  - intros k [ch Hk]. by vm_compute in Hk.
  - done.
  - intros H. destruct (H 5) as [_ H5]; [eexists; by vm_compute|].
    by vm_compute in H5.
Qed.

(** The same bound is missed by automatic allocation once a lower
    number has been released: with [channel_max = 2] and only channel 2
    left open, the next number is 3. *)
Lemma allocated_channel_number_out_of_range :
  let c := set_channels (λ _, <[2 := mkChannel 2 (external 2)]> ∅)
             (open_connection sample_parameters
                (mkConnectionState (Some 2) (Some 131072))) in
  let r := channel (external 1) None c in
  channels_in_range c ∧ r.1 = Ok tt ∧ is_Some (_channels r.2 !! 3).
Proof.
  intros c r. split_and!.
  - intros k [ch Hk]. destruct (decide (k = 2)) as [->|Hne]; [by vm_compute|].
    subst c. simpl in Hk. rewrite lookup_insert_ne // in Hk.
  - done.
  - eexists; by vm_compute.
Qed.

Section Channels.
Variable marshal : frame → bytes.

Lemma _on_channel_close_channels f c :
  let r := _on_channel_close marshal f c in
  state r.2 = state c
  ∧ (∀ k, is_Some (_channels r.2 !! k) → is_Some (_channels c !! k)).
Proof.
  unfold _on_channel_close, frame_channel_number, _on_close_ready, rpc,
    send_method, send_method_with, _send_frame, forM, callbacks_add.
  destruct f; run; try done.
  all: repeat (case_match; cbn; try done).
  all: split; [try done|].
  all: intros k; rewrite lookup_delete; destruct (decide (_ = k));
    [by intros [? ?]|done].
Qed.

(** C6, as the code has it: that every channel number in [_channels]
    lies in [1, channel_max] (32767 when unset or 0) is preserved by
    [channel] with a caller-supplied number when that number itself
    lies in the interval (the code does not check it), by automatic
    allocation when every existing number is below the bound, and by
    [_on_channel_close]. *)
Theorem channels_in_range_preserved c cb :
  channels_in_range c →
  (∀ n, 1 ≤ n ≤ channel_limit c →
        channels_in_range (channel cb (Some n) c).2)
  ∧ (1 ≤ channel_limit c →
     (∀ k, is_Some (_channels c !! k) → k < channel_limit c) →
     channels_in_range (channel cb None c).2)
  ∧ (∀ f, channels_in_range (_on_channel_close marshal f c).2).
Proof.
  intros Hinv. split_and!.
  - intros n Hn. rewrite channel_run /chosen_number.
    assert (truthy n = true) as ->.
    { unfold truthy. apply negb_true_iff, Z.eqb_neq. lia. }
    intros k. cbn. unfold channel_limit. cbn.
    rewrite lookup_insert. case_decide; [subst; intros _; apply Hn|apply Hinv].
  - intros Hlim Hlt.
    rewrite channel_run /chosen_number _next_channel_number_run.
    case_decide as E; [apply Hinv|].
    case_decide as He; cbn.
    + intros k. rewrite /channel_limit /= lookup_insert.
      case_decide; [subst k; intros _; apply (conj (Z.le_refl 1) Hlim)|].
      apply Hinv.
    + destruct (py_max_spec (map_to_list (_channels c)).*1) as [Hin Hub].
      { by rewrite channel_numbers_nil. }
      apply elem_of_channel_numbers in Hin.
      intros k. rewrite /channel_limit /= lookup_insert.
      case_decide; [subst k; intros _|apply Hinv].
      pose proof (Hinv _ Hin). pose proof (Hlt _ Hin).
      fold (channel_limit c). lia.
  - intros f. destruct (_on_channel_close_channels f c) as [Hst Hsub].
    intros k Hk. unfold channel_limit. rewrite Hst. by apply Hinv, Hsub.
Qed.
End Channels.

Lemma channels_in_range_preserved_witness :
  let c := set_channels (λ _, <[1 := mkChannel 1 (external 1)]> ∅)
             (open_connection sample_parameters
                (mkConnectionState (Some 2) (Some 131072))) in
  channels_in_range c
  ∧ channels_in_range (channel (external 2) (Some 2) c).2
  ∧ channels_in_range (channel (external 2) None c).2.
Proof.
  intros c.
  assert (Hc : channels_in_range c).
  { intros k [ch Hk]. destruct (decide (k = 1)) as [->|Hne]; [by vm_compute|].
    subst c. simpl in Hk. rewrite lookup_insert_ne // in Hk. }
  destruct (channels_in_range_preserved sample_marshal c (external 2) Hc)
    as (H1 & H2 & _).
  split_and!; [done|apply H1; by vm_compute|apply H2; [by vm_compute|]].
  intros k [ch Hk]. destruct (decide (k = 1)) as [->|Hne]; [by vm_compute|].
  subst c. simpl in Hk. rewrite lookup_insert_ne // in Hk.
Defined.

(** ** Content fragmentation *)


Section Chunks.
Variable max_piece : Z.
Hypothesis max_piece_pos : 1 ≤ max_piece.

Lemma piece_len_bounds (body_buf : bytes) :
  body_buf ≠ [] →
  1 ≤ piece_len body_buf max_piece ≤ len body_buf
  ∧ piece_len body_buf max_piece ≤ max_piece.
Proof.
  intros H. unfold piece_len.
  assert (1 ≤ len body_buf).
  { destruct body_buf; [done|]. rewrite len_cons. pose proof (len_nonneg body_buf). lia. }
  lia.
Qed.

Lemma chunks_concat fuel (body_buf : bytes) :
  (length body_buf ≤ fuel)%nat → concat (chunks fuel max_piece body_buf) = body_buf.
Proof.
  revert body_buf. induction fuel as [|fuel IH]; intros body_buf Hf.
  - destruct body_buf; [done|]. simpl in Hf. lia.
  - destruct body_buf as [|b l]; [done|].
    destruct (piece_len_bounds (b :: l)) as [[H1 H2] H3]; [done|].
    cbn [chunks concat]. rewrite IH; [by rewrite take_drop|].
    rewrite length_drop. unfold len in H2. lia.
Qed.

Lemma chunks_bounded fuel (body_buf : bytes) :
  Forall (λ piece, 1 ≤ len piece ≤ max_piece) (chunks fuel max_piece body_buf).
Proof.
  revert body_buf. induction fuel as [|fuel IH]; intros body_buf.
  - destruct body_buf; constructor.
  - destruct body_buf as [|b l]; [constructor|].
    destruct (piece_len_bounds (b :: l)) as [[H1 H2] H3]; [done|].
    cbn [chunks]. constructor; [|apply IH].
    rewrite len_take; lia.
Qed.

Lemma chunks_sizes fuel (body_buf : bytes) :
  len <$> chunks fuel max_piece body_buf = chunk_sizes fuel max_piece (len body_buf).
Proof.
  revert body_buf. induction fuel as [|fuel IH]; intros body_buf.
  - by destruct body_buf.
  - destruct body_buf as [|b l]; [done|].
    destruct (piece_len_bounds (b :: l)) as [[H1 H2] H3]; [done|].
    cbn [chunks chunk_sizes fmap list_fmap].
    destruct (Z.leb_spec (len (b :: l)) 0) as [Hle|_]; [lia|].
    rewrite IH len_take; [|lia]. rewrite len_drop; [done|lia].
Qed.

Lemma chunk_sizes_length fuel size :
  size ≤ Z.of_nat fuel →
  len (chunk_sizes fuel max_piece size) = (size + max_piece - 1) `div` max_piece
  ∨ size < 0.
Proof.
  revert size. induction fuel as [|fuel IH]; intros size Hf.
  - destruct (decide (size = 0)) as [->|]; [left|right; lia].
    simpl. symmetry. apply Z.div_small. lia.
  - simpl. destruct (Z.leb_spec size 0) as [Hle|Hgt].
    + destruct (decide (size = 0)) as [->|]; [left|right; lia].
      rewrite len_nil. symmetry. apply Z.div_small. lia.
    + left. rewrite len_cons.
      destruct (IH (size - Z.min size max_piece)) as [->|Hneg]; [lia| |lia].
      destruct (Z.min_spec size max_piece) as [[Hlt ->]|[Hge ->]].
      * replace (size - size + max_piece - 1) with (max_piece - 1) by lia.
        rewrite Z.div_small; [|lia].
        replace (size + max_piece - 1) with ((size - 1) + 1 * max_piece) by lia.
        rewrite Z.div_add; [|lia]. rewrite Z.div_small; lia.
      * replace (size + max_piece - 1)
          with ((size - max_piece + max_piece - 1) + 1 * max_piece) by lia.
        rewrite Z.div_add; lia.
Qed.
End Chunks.

Section Fragmentation.
Variable marshal : frame → bytes.

(** The frames sent for the pieces of a body, and the bytes written to
    [outbound_buffer] for them. *)
Lemma send_body_run fuel channel_number max_piece (body_buf : bytes) c :
  1 ≤ max_piece → (length body_buf ≤ fuel)%nat →
  let r := send_body marshal fuel channel_number max_piece body_buf c in
  let frames := FrameBody channel_number <$> chunks fuel max_piece body_buf in
  r.1 = Ok tt
  ∧ state r.2 = state c
  ∧ sent_frames (trace r.2) = sent_frames (trace c) ++ frames
  ∧ outbound_buffer r.2 = outbound_buffer c ++ concat (marshal <$> frames)
  ∧ bytes_sent r.2 = bytes_sent c + len (concat (marshal <$> frames)).
Proof.
  intros Hmp. unfold send_body. revert body_buf c.
  induction fuel as [|fuel IH]; intros body_buf c Hf.
  - destruct body_buf; [|simpl in Hf; lia].
    simpl. rewrite !app_nil_r. split_and!; try done. rewrite len_nil. lia.
  - destruct body_buf as [|b l].
    { simpl. rewrite !app_nil_r. split_and!; try done. rewrite len_nil. lia. }
    destruct (piece_len_bounds max_piece Hmp (b :: l)) as [[H1 H2] H3]; [done|].
    cbn [send_body_with chunks]. unfold read_and_consume.
    rewrite decide_True; [|lia].
    set (n := Z.to_nat _). unfold _send_frame. run.
    match goal with |- context [send_body_with _ _ _ _ _ _ ?c'] =>
      destruct (IH (drop n (b :: l)) c') as (E1 & E2 & E3 & E4 & E5) end.
    { rewrite length_drop. unfold len in H2. simpl in *. lia. }
    split_and!; [done|by rewrite E2| | |].
    + rewrite E3 /= !sent_frames_app /= -?app_assoc /= ?app_nil_r //.
    + rewrite E4 /= -?app_assoc //.
    + rewrite E5 /= !len_app. lia.
Qed.

Local Opaque send_body chunks.

Lemma send_method_run c channel_number method content fm :
  frame_max (state c) = Some fm → 9 ≤ fm →
  let body := content_body content in
  let r := send_method marshal channel_number method content c in
  let frames :=
    [FrameMethod channel_number method] ++
    match content_props content with
    | Some props => [FrameHeader channel_number (len body) props]
    | None => []
    end ++
    (FrameBody channel_number <$> chunks (length body) (fm - 8) body) in
  r.1 = Ok tt
  ∧ sent_frames (trace r.2) = sent_frames (trace c) ++ frames
  ∧ outbound_buffer r.2 = outbound_buffer c ++ concat (marshal <$> frames)
  ∧ bytes_sent r.2 = bytes_sent c + len (concat (marshal <$> frames)).
Proof.
  intros Hfm Hge body r frames. subst r frames body.
  assert (Hmp : max_piece fm = fm - 8).
  { unfold max_piece, HEADER_SIZE, FOOTER_SIZE. lia. }
  assert (Hnil : ∀ n, chunks n (fm - 8) [] = []).
  { intros n. Local Transparent chunks. by destruct n. Local Opaque chunks. }
  unfold send_method, send_method_with.
  change (send_body_with marshal read_and_consume) with (send_body marshal).
  destruct content as [|body|[props|] [body|]]; cbn [content_body content_props].
  all: try destruct body as [|b l].
  all: unfold _send_frame; run.
  all: rewrite ?Hfm ?Hmp ?Hnil.
  all: try match goal with |- context [send_body ?f ?n ?ch ?mp ?b ?c'] =>
         destruct (send_body_run n ch mp b c') as (E1 & _ & E3 & E4 & E5);
           [lia|done|];
         cbv zeta in E3, E4, E5; rewrite ?E1 ?E3 ?E4 ?E5 end.
  all: split_and!; [done| | |].
  all: cbn [trace outbound_buffer bytes_sent set_trace set_outbound_buffer
            set_bytes_sent fmap list_fmap concat app].
  all: rewrite ?sent_frames_app ?app_nil_r -?app_assoc ?len_app ?len_nil.
  all: try done; try lia.
  all: by rewrite /sent_frames !omap_app.
Qed.

Local Transparent send_body chunks.

(** C2: under a negotiated [frame_max] of at least 9, [send_method]
    sends the method frame, one header frame when the content has
    properties, and then exactly [ceil(L / (frame_max - 8))] body
    frames for a body of length [L]; no fragment is longer than
    [frame_max - 8] and the fragments, concatenated in the order sent,
    are the body. These frames, marshalled, are what [send_method]
    appends to [outbound_buffer], and [bytes_sent] grows by their
    length. With [frame_max = 4096] and a body of 10000 bytes the body
    frames have sizes 4088, 4088 and 1824. *)
Theorem send_method_fragmentation c channel_number method content fm :
  frame_max (state c) = Some fm → 9 ≤ fm →
  let body := content_body content in
  let r := send_method marshal channel_number method content c in
  ∃ fragments,
    let frames :=
      [FrameMethod channel_number method] ++
      match content_props content with
      | Some props => [FrameHeader channel_number (len body) props]
      | None => []
      end ++
      (FrameBody channel_number <$> fragments) in
    r.1 = Ok tt
    ∧ sent_frames (trace r.2) = sent_frames (trace c) ++ frames
    ∧ outbound_buffer r.2 = outbound_buffer c ++ concat (marshal <$> frames)
    ∧ bytes_sent r.2 = bytes_sent c + len (concat (marshal <$> frames))
    ∧ len fragments = (len body + (fm - 8) - 1) `div` (fm - 8)
    ∧ Forall (λ piece, len piece ≤ fm - 8) fragments
    ∧ concat fragments = body
    ∧ (fm = 4096 → len body = 10000 →
       len <$> fragments = [4088; 4088; 1824]).
Proof.
  intros Hfm Hge body r.
  destruct (send_method_run c channel_number method content fm Hfm Hge)
    as (E1 & E2 & E3 & E4).
  exists (chunks (length body) (fm - 8) body). split_and!; try done.
  - transitivity (len (len <$> chunks (length body) (fm - 8) body)).
    { unfold len. by rewrite length_fmap. }
    rewrite chunks_sizes; [|lia].
    destruct (chunk_sizes_length (fm - 8) ltac:(lia) (length body) (len body))
      as [->|Hneg]; [done|done|].
    pose proof (len_nonneg body). lia.
  - eapply Forall_impl; [apply chunks_bounded; lia|]. simpl. lia.
  - apply chunks_concat; [lia|done].
  - intros -> Hlen. rewrite chunks_sizes; [|lia].
    replace (length body) with (Z.to_nat 10000) by (unfold len in Hlen; lia).
    rewrite Hlen. by vm_compute.
Qed.
End Fragmentation.

Lemma send_method_fragmentation_witness :
  let c := open_connection sample_parameters
             (mkConnectionState (Some 0) (Some 4096)) in
  let body := replicate (Z.to_nat 10000) "x"%byte in
  let method := Other_Method "Basic.Publish" [] in
  let header := BasicProperties [] in
  let r := send_method sample_marshal 1 method
             (Content (Some header) (Some body)) c in
  ∃ fragments,
    let frames :=
      [FrameMethod 1 method; FrameHeader 1 10000 header] ++
      (FrameBody 1 <$> fragments) in
    r.1 = Ok tt
    ∧ sent_frames (trace r.2) = frames
    ∧ outbound_buffer r.2 = concat (sample_marshal <$> frames)
    ∧ bytes_sent r.2 = len (concat (sample_marshal <$> frames))
    ∧ len fragments = 3
    ∧ Forall (λ piece, len piece ≤ 4088) fragments
    ∧ concat fragments = body
    ∧ len <$> fragments = [4088; 4088; 1824].
Proof.
  intros c body method header r.
  assert (Hlen : len body = 10000) by (by vm_compute).
  destruct (send_method_fragmentation sample_marshal c 1 method
              (Content (Some header) (Some body)) 4096)
    as (fragments & H1 & H2 & H3 & H4 & H5 & H6 & H7 & H8);
    [reflexivity|lia|].
  cbn [content_body content_props] in H2, H3, H4, H5, H8.
  rewrite Hlen in H2, H3, H4, H5.
  exists fragments.
  split_and!; [exact H1|exact H2|exact H3|exact H4|exact H5|exact H6|exact H7|].
  apply H8; [reflexivity|exact Hlen].
Defined.

Section Unnegotiated.
Variable marshal : frame → bytes.
Variable read_and_consume' : bytes → Z → res (bytes * bytes).

(** C8, on the code: with [frame_max] 0 [send_method] does not fall
    back to the default 131072 that [suggested_buffer_size] falls back
    to. Whatever [read_and_consume] does, for a body that is not empty
    [send_method] sends the method frame, the header frame when there
    are properties, and then asks the buffer for
    [min(len(body), 0 - 7 - 1) = -8] bytes, and so on every turn of its
    loop; under a [frame_max] of 131072 it asks for
    [min(len(body), 131064)] bytes. *)
Theorem send_method_frame_max_zero c channel_number method props
    (b : byte) (l : bytes) :
  let body := b :: l in
  let at_frame_max fm :=
    set_state (λ st, mkConnectionState (channel_max st) (Some fm)) c in
  let asking fm size :=
    _send_frame marshal (FrameMethod channel_number method);;
    match props with
    | Some props =>
        _send_frame marshal (FrameHeader channel_number (len body) props)
    | None => mret tt
    end;;
    match read_and_consume' body size with
    | Ok (piece, body_buf) =>
        _send_frame marshal (FrameBody channel_number piece);;
        send_body_with marshal read_and_consume' (length l) channel_number
          (max_piece fm) body_buf
    | Raise e => raise e
    end in
  send_method_with marshal read_and_consume' channel_number method
    (Content props (Some body)) (at_frame_max 0)
  = asking 0 (-8) (at_frame_max 0)
  ∧ suggested_buffer_size (at_frame_max 0) = 131072
  ∧ send_method_with marshal read_and_consume' channel_number method
      (Content props (Some body)) (at_frame_max 131072)
    = asking 131072 (Z.min (len body) 131064) (at_frame_max 131072).
Proof.
  intros body at_frame_max asking.
  assert (H0 : piece_len body (max_piece 0) = -8).
  { unfold piece_len, max_piece, HEADER_SIZE, FOOTER_SIZE.
    pose proof (len_nonneg body). lia. }
  assert (H1 : piece_len body (max_piece 131072) = Z.min (len body) 131064).
  { done. }
  subst asking at_frame_max body. unfold send_method_with.
  split_and!; [|done|].
  all: destruct props as [props|]; unfold _send_frame; run.
  all: cbn [send_body_with]; rewrite ?H0 ?H1.
  all: destruct (read_and_consume' _ _) as [[piece body_buf]|e]; [|done].
  all: unfold _send_frame; by run.
Qed.
End Unnegotiated.

(** ** Closing *)

Lemma set_trace_id c : set_trace (λ _, trace c) c = c.
Proof. by destruct c. Qed.

Lemma forM_emit {A} (g : A → event) l c :
  forM (λ x, emit (g x)) l c = (Ok tt, set_trace (λ _, trace c ++ (g <$> l)) c).
Proof.
  revert c. induction l as [|x l IH]; intros c.
  - simpl. by rewrite app_nil_r set_trace_id.
  - cbn [forM]. run. rewrite IH. cbn. by rewrite -app_assoc.
Qed.

Lemma registry_add_elem prefix key cb one_shot reg :
  cb ∈ (default [] (registry_add prefix key cb one_shot reg !! (prefix, key))).*1.
Proof.
  unfold registry_add. cbn. case_decide as H; [done|].
  rewrite lookup_insert_eq /= fmap_app. apply elem_of_app. right. by left.
Qed.

(** The lifecycle callbacks of the application run in order and leave
    the lifecycle flags alone. *)
Lemma process_application_callables prefix key arg g l c :
  g = (λ '(cb, one_shot),
         finally (invoke_lifecycle cb arg)
           (if one_shot : bool then callbacks_remove prefix key cb
            else mret tt)) →
  Forall application_callable l.*1 →
  let r := forM g l c in
  r.1 = Ok tt
  ∧ trace r.2 = trace c ++ ((λ cb, called cb arg) <$> l.*1)
  ∧ closed r.2 = closed c ∧ closing r.2 = closing c ∧ open r.2 = open c.
Proof.
  intros ->. revert c. induction l as [|[cb one_shot] l IH]; intros c Hl.
  - simpl. by rewrite app_nil_r.
  - apply Forall_cons in Hl as [Hcb Hl]. cbn [forM].
    unfold finally, callbacks_remove. run.
    destruct cb; try done; destruct one_shot; cbn.
    all: match goal with |- context [forM _ _ ?c'] =>
           destruct (IH c' Hl) as (E1 & E2 & E3 & E4 & E5) end.
    all: rewrite E1 E2 E3 E4 E5 /= -app_assoc //.
Qed.

Section Closing.
Variable marshal : frame → bytes.

(** What [close] does on a connection that is neither closing nor
    closed. *)
Lemma close_run code text c :
  closing c = None → closed c = false →
  let r := close marshal code text c in
  r.1 = Ok tt
  ∧ closing r.2 = Some (code, text)
  ∧ closed r.2 = false
  ∧ open r.2 = open c
  ∧ trace r.2 =
      trace c ++
      ((λ n, channel_close n code text) <$> (map_to_list (_channels c)).*1) ++
      (if decide (_channels c = ∅)
       then [sent (FrameMethod 0 (Connection_Close code text 0 0));
             flush_outbound]
       else [])
  ∧ (_channels c = ∅ →
     _on_connection_closed_cb ∈ (entries r.2 0 "Connection.CloseOk").*1).
Proof.
  intros Hclosing Hclosed. unfold close, callbacks_remove. run.
  rewrite Hclosing Hclosed /=. rewrite forM_emit /=.
  case_decide as Hsize.
  - apply map_size_empty_iff in Hsize.
    unfold _on_close_ready, rpc, send_method, send_method_with, _send_frame,
      forM, callbacks_add. run. rewrite Hclosed /=.
    rewrite (decide_True _ _ Hsize).
    split_and!; try done.
    + by rewrite -!app_assoc.
    + intros _. unfold entries. cbn. apply registry_add_elem.
  - assert (Hne : _channels c ≠ ∅) by (intros He; by rewrite He in Hsize).
    rewrite (decide_False _ _ Hne) /= !app_nil_r. split_and!; done.
Qed.

(** C4, as the code has it: when the connection is open and
    [Connection.Close] arrives with [(reply_code, reply_text)], the
    engine takes the local close path with that code and text. It
    records them as the closing reason and asks every channel to close
    with them; when no channel is open it sends
    [Connection.Close(reply_code, reply_text, 0, 0)] and registers
    [_on_connection_closed] for [Connection.CloseOk]. No
    [Connection.CloseOk] is sent, and nothing is invoked or
    disconnected at this point. Only when [_on_connection_closed] runs
    are the callbacks registered for the close invoked, in order, with
    the connection as their argument, and is the transport asked to
    disconnect. *)
Theorem remote_close_takes_local_close_path c n reply_code reply_text
    class_id method_id :
  closing c = None → closed c = false →
  let r := _on_remote_close marshal
             (FrameMethod n (Connection_Close reply_code reply_text
                               class_id method_id)) c in
  (r.1 = Ok tt
   ∧ closing r.2 = Some (reply_code, reply_text)
   ∧ trace r.2 =
       trace c ++
       ((λ k, channel_close k reply_code reply_text)
          <$> (map_to_list (_channels c)).*1) ++
       (if decide (_channels c = ∅)
        then [sent (FrameMethod 0
                      (Connection_Close reply_code reply_text 0 0));
              flush_outbound]
        else [])
   ∧ (_channels c = ∅ →
      _on_connection_closed_cb ∈ (entries r.2 0 "Connection.CloseOk").*1))
  ∧ (∀ c' f,
       Forall application_callable (entries c' 0 "_on_connection_closed").*1 →
       let r' := _on_connection_closed f false c' in
       r'.1 = Ok tt
       ∧ closed r'.2 = true ∧ closing r'.2 = None ∧ open r'.2 = false
       ∧ trace r'.2 =
           trace c' ++
           ((λ cb, called cb None)
              <$> (entries c' 0 "_on_connection_closed").*1) ++
           [disconnect]).
Proof.
  intros Hclosing Hclosed r. split.
  - destruct (close_run reply_code reply_text c Hclosing Hclosed)
      as (H1 & H2 & _ & _ & H5 & H6). done.
  - intros c' f Hl r'. subst r'.
    unfold _on_connection_closed, callbacks_process. run.
    match goal with |- context [forM ?g ?l ?c0] =>
      destruct (process_application_callables 0 "_on_connection_closed"
                  None g l c0 eq_refl Hl) as (E1 & E2 & E3 & E4 & E5);
      destruct (forM g l c0) as [r0 c1] end.
    simpl in E1, E2, E3, E4, E5. rewrite E1. cbn.
    rewrite E2 E3 E4 E5 /= -app_assoc //.
Qed.
End Closing.

(** C4, counterexample: an open connection with no channel receives
    [Connection.Close(320, "CONNECTION_FORCED")]. The only frame sent is
    a [Connection.Close]; no [Connection.CloseOk] is sent, no callback
    is invoked and the transport is not asked to disconnect. *)
Lemma remote_close_sends_close_not_close_ok :
  let c := open_connection sample_parameters
             (mkConnectionState (Some 0) (Some 131072)) in
  let f := FrameMethod 0 (Connection_Close 320 (str "CONNECTION_FORCED") 0 0) in
  let r := dispatch sample_marshal record_tune sample_response_for (0, 9) f c in
  is_open c = true
  ∧ r.1 = Ok tt
  ∧ trace r.2 =
      [sent (FrameMethod 0 (Connection_Close 320 (str "CONNECTION_FORCED") 0 0));
       flush_outbound]
  ∧ (FrameMethod 0 Connection_CloseOk ∉ sent_frames (trace r.2))
  ∧ calls (trace r.2) = []
  ∧ (disconnect ∉ trace r.2).
Proof.
  intros c f r.
  assert (Ht : trace r.2 =
      [sent (FrameMethod 0 (Connection_Close 320 (str "CONNECTION_FORCED") 0 0));
       flush_outbound]); [by vm_compute|].
  split_and!; [by vm_compute|by vm_compute|done| | |]; rewrite Ht.
  - intros H%list_elem_of_singleton. discriminate.
  - done.
  - intros [H|[H|H]%elem_of_cons]%elem_of_cons; [done|done|].
    by apply elem_of_nil in H.
Qed.

Lemma remote_close_takes_local_close_path_witness :
  let c := open_connection sample_parameters
             (mkConnectionState (Some 0) (Some 131072)) in
  let r := _on_remote_close sample_marshal
             (FrameMethod 0 (Connection_Close 320 (str "CONNECTION_FORCED") 0 0))
             c in
  closing r.2 = Some (320, str "CONNECTION_FORCED").
Proof.
  intros c r.
  destruct (remote_close_takes_local_close_path sample_marshal c 0 320
              (str "CONNECTION_FORCED") 0 0)
    as [(_ & H & _) _]; [reflexivity|reflexivity|exact H].
Defined.

(** ** The byte counters *)

Section Accounting.
Variable marshal : frame → bytes.
Variable handle_input : bytes → Z * option frame.
Variable tune : ConnectionState → Z → Z → ConnectionState.
Variable response_for : bytes * bytes → method → option (bytes * bytes).
Variable PROTOCOL_VERSION : Z * Z.

Local Abbreviation accounted := (accounted marshal).

Lemma accounted_ret {A} (a : A) : accounted (mret a).
Proof. intros c. exists []. by rewrite app_nil_r. Qed.

Lemma accounted_raise {A} e : accounted (@raise A e).
Proof. intros c. exists []. by rewrite app_nil_r. Qed.

Lemma accounted_gets {A} (f : Connection → A) : accounted (gets f).
Proof. intros c. exists []. by rewrite app_nil_r. Qed.

Lemma accounted_bind {A B} (m : M A) (f : A → M B) :
  accounted m → (∀ a, accounted (f a)) → accounted (m ≫= f).
Proof.
  intros Hm Hf c. destruct (Hm c) as (evs1 & T1 & C1).
  unfold mbind, M_bind. destruct (m c) as [[a|e] c1]; simpl in *.
  - destruct (Hf a c1) as (evs2 & T2 & C2). exists (evs1 ++ evs2).
    by rewrite T2 T1 C2 C1 foldl_app app_assoc.
  - by exists evs1.
Qed.

Lemma accounted_finally {A} (m : M A) k :
  accounted m → accounted k → accounted (finally m k).
Proof.
  intros Hm Hk c. destruct (Hm c) as (evs1 & T1 & C1).
  unfold finally. destruct (m c) as [r c1]; simpl in *.
  destruct (Hk c1) as (evs2 & T2 & C2).
  exists (evs1 ++ evs2).
  destruct (k c1) as [[[]|e] c2]; simpl in *;
    by rewrite T2 T1 C2 C1 foldl_app app_assoc.
Qed.

Lemma accounted_forM {A} (f : A → M unit) l :
  (∀ a, accounted (f a)) → accounted (forM f l).
Proof.
  intros Hf. induction l as [|a l IH]; simpl.
  - apply accounted_ret.
  - apply accounted_bind; [apply Hf|by intros _].
Qed.

Lemma accounted_modify f :
  (∀ c, trace (f c) = trace c ∧ counters (f c) = counters c) →
  accounted (modify f).
Proof.
  intros Hf c. exists []. unfold modify. simpl.
  destruct (Hf c) as [-> ->]. by rewrite app_nil_r.
Qed.

Lemma accounted_emit e : quiet e → accounted (emit e).
Proof. intros He c. exists [e]. split; [done|]. by destruct e. Qed.

Lemma accounted_send_frame f : accounted (_send_frame marshal f).
Proof.
  intros c. exists [sent f; flush_outbound]. split; [|done].
  unfold _send_frame. run. by rewrite -app_assoc.
Qed.

Lemma accounted_consume {A} count f (k : M A) :
  accounted k →
  accounted (modify (set_bytes_received (λ n, n + count));;
             emit (consumed count f);; k).
Proof.
  intros Hk c. run.
  match goal with |- context [k ?c1] =>
    destruct (Hk c1) as (evs & T & C) end.
  exists (consumed count f :: evs). rewrite T C /=. by rewrite -app_assoc.
Qed.

Lemma accounted_init : accounted _init_connection_state.
Proof. intros c. by exists [initialized]. Qed.

(** One step of the structural proof that an operation is accounted. *)
Ltac acc_step :=
  lazymatch goal with
  | |- accounted (mret _) => apply accounted_ret
  | |- accounted (raise _) => apply accounted_raise
  | |- accounted (gets _) => apply accounted_gets
  | |- accounted (_send_frame _ _) => apply accounted_send_frame
  | |- accounted _init_connection_state => apply accounted_init
  | |- accounted (modify _) => apply accounted_modify; by intros ?
  | |- accounted (emit _) => apply accounted_emit; exact I
  | |- accounted (callbacks_add _ _ _ _) =>
      apply accounted_modify; by intros ?
  | |- accounted (callbacks_remove _ _ _) =>
      apply accounted_modify; by intros ?
  | |- accounted (callbacks_pending _ _) => apply accounted_gets
  | |- accounted (forM _ _) => apply accounted_forM; intros ?
  | |- accounted (finally _ _) => apply accounted_finally
  | |- accounted (_ ≫= _) => apply accounted_bind; [|intros ?]
  | |- accounted (if ?b then _ else _) => destruct b
  | |- accounted (match ?x with _ => _ end) => destruct x
  | |- accounted (let '(_, _) := ?x in _) => destruct x
  end.
Ltac acc := repeat acc_step.

Lemma accounted_send_body fuel channel_number max_piece body_buf :
  accounted (send_body marshal fuel channel_number max_piece body_buf).
Proof.
  unfold send_body.
  revert body_buf. induction fuel as [|fuel IH]; intros body_buf.
  - destruct body_buf; simpl; acc.
  - destruct body_buf as [|b l]; [simpl; acc|].
    cbn [send_body_with]. acc. apply IH.
Qed.

Lemma accounted_send_method channel_number method content :
  accounted (send_method marshal channel_number method content).
Proof.
  unfold send_method, send_method_with.
  destruct content as [|body|props body]; acc; apply accounted_send_body.
Qed.

Lemma accounted_rpc callback channel_number method acceptable_replies :
  accounted (rpc marshal callback channel_number method acceptable_replies).
Proof. unfold rpc. acc. all: apply accounted_send_method. Qed.

Lemma accounted_connect : accounted _connect.
Proof. unfold _connect. acc. Qed.

Lemma accounted_reconnect_ : accounted _reconnect.
Proof. unfold _reconnect. acc. apply accounted_connect. Qed.

Lemma accounted_invoke_lifecycle cb args :
  accounted (invoke_lifecycle cb args).
Proof. unfold invoke_lifecycle. acc. all: apply accounted_reconnect_. Qed.

Lemma accounted_process invoke prefix key args :
  (∀ cb a, accounted (invoke cb a)) →
  accounted (callbacks_process invoke prefix key args).
Proof. intros H. unfold callbacks_process. acc. all: apply H. Qed.

Lemma accounted_on_close_ready : accounted (_on_close_ready marshal).
Proof. unfold _on_close_ready. acc. apply accounted_rpc. Qed.

Lemma accounted_close code text : accounted (close marshal code text).
Proof. unfold close. acc. apply accounted_on_close_ready. Qed.

Lemma accounted_on_connection_closed f from_adapter :
  accounted (_on_connection_closed f from_adapter).
Proof.
  unfold _on_connection_closed. acc.
  all: apply accounted_process, accounted_invoke_lifecycle.
Qed.

Lemma accounted_invoke cb args :
  accounted (invoke marshal tune response_for PROTOCOL_VERSION cb args).
Proof.
  unfold invoke.
  destruct cb, args as [f|]; try apply accounted_raise;
    try apply accounted_on_connection_closed;
    try apply accounted_reconnect_;
    try (apply accounted_emit; exact I).
  - unfold _on_connection_start. acc. all: apply accounted_send_method.
  - unfold _on_connection_tune. acc.
    all: first [apply accounted_send_method | apply accounted_rpc].
  - unfold _on_connection_open. acc.
    all: apply accounted_process, accounted_invoke_lifecycle.
  - unfold _on_remote_close. acc. all: apply accounted_close.
  - unfold _on_channel_close, frame_channel_number. acc.
    all: apply accounted_on_close_ready.
Qed.

Lemma accounted_dispatch f :
  accounted (dispatch marshal tune response_for PROTOCOL_VERSION f).
Proof.
  unfold dispatch, deliver_to_channel, frame_channel_number.
  destruct f; acc.
  all: apply accounted_process, accounted_invoke.
Qed.

Lemma accounted_read_frames fuel data :
  accounted (read_frames marshal handle_input tune response_for
               PROTOCOL_VERSION fuel data).
Proof.
  revert data. induction fuel as [|fuel IH]; intros data.
  - destruct data; simpl; acc.
  - destruct data as [|b l]; [simpl; acc|].
    cbn [read_frames]. destruct (handle_input (b :: l)) as [count [f|]].
    + apply accounted_consume.
      apply accounted_bind; [apply accounted_dispatch|]. intros _. apply IH.
    + acc.
Qed.

Lemma account_totals evs n :
  Forall (λ e, e ≠ initialized) evs →
  foldl (account marshal) n evs
  = (n.1 + sent_total marshal evs, n.2 + consumed_total evs).
Proof.
  revert n. induction evs as [|e evs IH]; intros [s r] Hq; simpl.
  - f_equal; lia.
  - apply Forall_cons in Hq as [He Hq]. rewrite IH //.
    destruct e; simpl; try done; f_equal; lia.
Qed.

(** C10: [_send_frame] adds exactly the length of the marshalled
    frame to [bytes_sent] (the bytes it appends to the outbound buffer)
    and leaves [bytes_received] alone; every complete frame that
    [on_data_available] takes from its input adds exactly the number of
    bytes consumed for it to [bytes_received]; [_init_connection_state]
    sets both counters to 0; and no operation of the connection changes
    the counters in any other way: after each of them the counters are
    the former ones moved by the frames sent, the frames consumed and
    the re-initialisations that the operation went through, in order. *)
Theorem byte_counters_follow_frames :
  (∀ f c, let c' := (_send_frame marshal f c).2 in
     bytes_sent c' = bytes_sent c + len (marshal f)
     ∧ bytes_received c' = bytes_received c
     ∧ outbound_buffer c' = outbound_buffer c ++ marshal f)
  ∧ (∀ fuel b data count f c,
       handle_input (b :: data) = (count, Some f) →
       let c' := set_trace (λ t, t ++ [consumed count f])
                   (set_bytes_received (λ n, n + count) c) in
       bytes_received c' = bytes_received c + count
       ∧ bytes_sent c' = bytes_sent c
       ∧ read_frames marshal handle_input tune response_for
           PROTOCOL_VERSION (S fuel) (b :: data) c
         = (dispatch marshal tune response_for PROTOCOL_VERSION f;;
            read_frames marshal handle_input tune response_for
              PROTOCOL_VERSION fuel (slice_from (b :: data) count)) c')
  ∧ (∀ c, counters (_init_connection_state c).2 = (0, 0))
  ∧ (∀ data, accounted (on_data_available marshal handle_input tune
                          response_for PROTOCOL_VERSION data))
  ∧ (∀ channel_number method content,
       accounted (send_method marshal channel_number method content))
  ∧ (∀ callback channel_number method acceptable_replies,
       accounted (rpc marshal callback channel_number method
                    acceptable_replies))
  ∧ (∀ code text, accounted (close marshal code text))
  ∧ (∀ cb channel_number, accounted (channel cb channel_number))
  ∧ (∀ cb, accounted (add_on_open_callback cb))
  ∧ (∀ cb, accounted (add_on_close_callback cb))
  ∧ accounted (reconnect marshal)
  ∧ accounted (_ensure_closed marshal)
  ∧ accounted (_on_connected marshal PROTOCOL_VERSION)
  ∧ (∀ cb args,
       accounted (invoke marshal tune response_for PROTOCOL_VERSION cb args))
  ∧ (∀ evs n,
       Forall (λ e, e ≠ initialized) evs →
       foldl (account marshal) n evs
       = (n.1 + sent_total marshal evs, n.2 + consumed_total evs)).
Proof.
  assert (Hec : accounted (_ensure_closed marshal)).
  { unfold _ensure_closed. acc. apply accounted_close. }
  split_and!.
  - done.
  - intros fuel b data count f c H. cbn [read_frames]. rewrite H. done.
  - done.
  - intros data. unfold on_data_available. acc. apply accounted_read_frames.
  - apply accounted_send_method.
  - apply accounted_rpc.
  - apply accounted_close.
  - intros cb n. unfold channel, _next_channel_number. acc.
  - intros cb. unfold add_on_open_callback. acc.
  - intros cb. unfold add_on_close_callback. acc.
  - unfold reconnect, add_on_close_callback. acc.
    all: first [apply Hec | apply accounted_reconnect_].
  - done.
  - unfold _on_connected. acc.
  - apply accounted_invoke.
  - intros evs n. apply account_totals.
Qed.
End Accounting.

Lemma byte_counters_follow_frames_witness :
  let c := open_connection sample_parameters
             (mkConnectionState (Some 0) (Some 131072)) in
  let data := be_bytes 8 0 in
  sample_handle_input data = (8, Some FrameHeartbeat)
  ∧ bytes_received
      (on_data_available sample_marshal sample_handle_input record_tune
         sample_response_for (0, 9) data c).2 = bytes_received c + 8.
Proof.
  intros c data. split; [reflexivity|].
  destruct (byte_counters_follow_frames sample_marshal sample_handle_input
              record_tune sample_response_for (0, 9))
    as (_ & H & _).
  destruct (H 7%nat "000"%byte (be_bytes 7 0) 8 FrameHeartbeat c eq_refl)
    as (H1 & _ & _).
  exact H1.
Defined.

(** ** The decoder on arbitrary input *)

Lemma be_uint_acc_nonneg bs a :
  0 ≤ a → 0 ≤ fold_left (λ acc b, acc * 256 + Z_of_byte b) bs a.
Proof.
  revert a. induction bs as [|b bs IH]; intros a Ha; simpl; [done|].
  apply IH. unfold Z_of_byte. lia.
Qed.

Lemma be_uint_nonneg bs : 0 ≤ be_uint bs.
Proof. by apply be_uint_acc_nonneg. Qed.

Lemma unpack_from_uint_inv n encoded offset z :
  unpack_from_uint n encoded offset = Ok z →
  0 ≤ offset ∧ offset + Z.of_nat n ≤ len encoded ∧ 0 ≤ z.
Proof.
  unfold unpack_from_uint. case_decide as H; [|done].
  intros [= <-]. split_and!; [lia|lia|apply be_uint_nonneg].
Qed.

Lemma unpack_from_uint_err n encoded offset e :
  unpack_from_uint n encoded offset = Raise e → e = struct_error.
Proof. unfold unpack_from_uint. case_decide; congruence. Qed.

Lemma index_err encoded offset e :
  index encoded offset = Raise e → e = IndexError.
Proof. unfold index. repeat case_match; congruence. Qed.

Lemma index_inv encoded offset b :
  index encoded offset = Ok b → 0 ≤ offset < len encoded.
Proof.
  unfold index. case_decide as H; [|done].
  destruct (encoded !! _) eqn:E; [|done]. intros _.
  apply lookup_lt_Some in E. unfold len. lia.
Qed.

(** Every iteration of the two loops and every nested call starts at
    least one byte further, so the bytes left from the offset bound the
    depth of the recursion. *)
Lemma decode_fuel_enough encoded fuel :
  (∀ offset, 1 ≤ Z.of_nat fuel → len encoded - offset + 1 ≤ Z.of_nat fuel →
     ends_from (offset + 4) (decode_table_fuel fuel encoded offset))
  ∧ (∀ limit result offset,
       1 ≤ Z.of_nat fuel → len encoded - offset + 1 ≤ Z.of_nat fuel →
       ends_from offset (decode_entries fuel encoded limit result offset))
  ∧ (∀ offset_end value offset,
       2 ≤ Z.of_nat fuel → len encoded - offset + 2 ≤ Z.of_nat fuel →
       ends_from offset (decode_array fuel encoded offset_end value offset)).
Proof.
  induction fuel as [|fuel (IHt & IHe & IHa)];
    [split_and!; intros; simpl in *; lia|].
  split_and!.
  - intros offset _ Hf. cbn [decode_table_fuel].
    destruct (unpack_from_I encoded offset) as [z|e] eqn:E;
      [|by apply unpack_from_uint_err in E as ->].
    apply unpack_from_uint_inv in E as (H1 & H2 & H3).
    cbn [mbind res_bind]. apply IHe; lia.
  - intros limit result offset _ Hf. rewrite decode_entries_unfold.
    case_decide as Hlim; [|simpl; lia].
    destruct (unpack_from_B encoded offset) as [keylen|e] eqn:E;
      [|by apply unpack_from_uint_err in E as ->].
    apply unpack_from_uint_inv in E as (H1 & H2 & H3).
    cbn [mbind res_bind].
    destruct (index encoded (offset + 1 + keylen)) as [kind|e] eqn:E;
      [|by apply index_err in E as ->].
    apply index_inv in E. cbn [mbind res_bind].
    assert (Hv : ends_from (offset + 1 + keylen + 1)
                   (decode_value fuel encoded kind (offset + 1 + keylen + 1))).
    { unfold decode_value.
      repeat case_decide; try done.
      - destruct (unpack_from_I _ _) as [z|e] eqn:E';
          [|by apply unpack_from_uint_err in E' as ->].
        apply unpack_from_uint_inv in E' as (? & ? & ?). simpl. lia.
      - destruct (unpack_from_I _ _) as [z|e] eqn:E';
          [|by apply unpack_from_uint_err in E' as ->].
        simpl. lia.
      - destruct (unpack_from_B _ _) as [z|e] eqn:E';
          [|by apply unpack_from_uint_err in E' as ->].
        cbn [mbind res_bind].
        destruct (unpack_from_I _ _) as [z'|e] eqn:E'';
          [|by apply unpack_from_uint_err in E'' as ->].
        simpl. lia.
      - destruct (unpack_from_Q _ _) as [z|e] eqn:E';
          [|by apply unpack_from_uint_err in E' as ->].
        cbn [mbind res_bind]. unfold utcfromtimestamp.
        case_decide; [simpl; lia|done].
      - specialize (IHt (offset + 1 + keylen + 1) ltac:(lia) ltac:(lia)).
        destruct (decode_table_fuel _ _ _) as [[v o]|e]; simpl in *; [lia|done].
      - destruct (unpack_from_I _ _) as [z|e] eqn:E';
          [|by apply unpack_from_uint_err in E' as ->].
        apply unpack_from_uint_inv in E' as (? & ? & ?).
        cbn [mbind res_bind].
        specialize (IHa (offset + 1 + keylen + 1 + 4 + z) []
                      (offset + 1 + keylen + 1 + 4) ltac:(lia) ltac:(lia)).
        destruct (decode_array _ _ _ _ _) as [[v o]|e]; simpl in *; [|done].
        case_decide; [done|simpl; lia]. }
    destruct (decode_value _ _ _ _) as [[v o]|e]; simpl in Hv; [|done].
    cbn [mbind res_bind].
    match goal with |- ends_from _ (decode_entries _ _ _ ?r _) =>
      specialize (IHe limit r o ltac:(lia) ltac:(lia)) end.
    destruct (decode_entries _ _ _ _ _) as [[? ?]|?]; simpl in *; [lia|done].
  - intros offset_end value offset Hf2 Hf. cbn [decode_array].
    case_decide as Hlim; [|simpl; lia].
    destruct (decide (offset + 4 ≤ len encoded)) as [Hin|Hout].
    + specialize (IHt offset ltac:(lia) ltac:(lia)).
      destruct (decode_table_fuel _ _ _) as [[v o]|e]; simpl in IHt; [|done].
      cbn [mbind res_bind].
      specialize (IHa offset_end (value ++ [VDict v]) o ltac:(lia) ltac:(lia)).
      destruct (decode_array _ _ _ _ _) as [[? ?]|?]; simpl in *; [lia|done].
    + destruct fuel as [|fuel']; [lia|]. cbn [decode_table_fuel].
      unfold unpack_from_I, unpack_from_uint.
      rewrite decide_False; [|simpl; lia]. done.
Qed.

(** X1: [decode_table] comes to an end on every buffer and every
    offset that is not negative: the recursion bound of its loops, one
    more than the length of the buffer, is never reached, so the outcome
    is a table or a Python exception; and a table is returned with an
    offset at least four bytes behind the one given. *)
Theorem decode_table_has_enough_fuel encoded offset :
  0 ≤ offset →
  decode_table encoded offset ≠ Raise OutOfFuel
  ∧ ∀ T offset', decode_table encoded offset = Ok (T, offset') →
                 offset + 4 ≤ offset'.
Proof.
  intros Hoff. unfold decode_table.
  destruct (decide (offset + 4 ≤ len encoded)) as [H|H].
  - destruct (decode_fuel_enough encoded (S (length encoded))) as (Ht & _ & _).
    specialize (Ht offset ltac:(lia) ltac:(unfold len; lia)).
    destruct (decode_table_fuel _ _ _) as [[v o]|e]; simpl in Ht.
    + split; [done|]. by intros T o' [= <- <-].
    + split; [congruence|done].
  - cbn [decode_table_fuel]. unfold unpack_from_I, unpack_from_uint.
    rewrite decide_False; [|simpl; lia]. done.
Qed.

Lemma decode_table_has_enough_fuel_witness :
  0 ≤ 2
  ∧ decode_table (str "xy" ++ be_bytes 4 100 ++ be_bytes 1 1 ++ str "kF") 2
    ≠ Raise OutOfFuel.
Proof.
  split; [lia|].
  apply (decode_table_has_enough_fuel
           (str "xy" ++ be_bytes 4 100 ++ be_bytes 1 1 ++ str "kF") 2).
  lia.
Defined.

(** X2: a table that the codec carries round-trips in place: when
    [encode_table] appends it to pieces that are already there and more
    bytes follow, [decode_table] at the offset where the table starts
    gives the same keys bound to equal values and returns the offset
    right behind the table. *)
Theorem table_round_trip_in_place T pieces post :
  wf (VDict T) = true →
  ∃ pieces' size T',
    encode_table pieces (VDict T) = Ok (pieces', size)
    ∧ decode_table (join pieces' ++ post) (len (join pieces))
      = Ok (T', len (join pieces) + size)
    ∧ T'.*1 = T.*1
    ∧ py_eqb (VDict T') (VDict T) = true.
Proof.
  intros Hwf.
  destruct (encodes_all (VDict T)) as [_ Henc].
  destruct (decodes_all (VDict T)) as [_ Hdec].
  destruct (Henc T eq_refl Hwf pieces) as (ps & E & Hps).
  exists (pieces ++ ps), (len (table_wire T)), (decoded_dict T).
  split_and!;
    [done| |apply decoded_dict_keys|apply (py_eqb_decoded (VDict T) Hwf)].
  unfold decode_table, join. rewrite concat_app Hps -app_assoc.
  apply (Hdec T eq_refl Hwf _ _ (concat pieces) post); [done|].
  rewrite !length_app. lia.
Qed.

Lemma table_round_trip_in_place_witness :
  wf (VDict sample_table) = true
  ∧ ∃ pieces' size T',
      encode_table [str "head"] (VDict sample_table) = Ok (pieces', size)
      ∧ decode_table (join pieces' ++ str "tail") (len (join [str "head"]))
        = Ok (T', len (join [str "head"]) + size)
      ∧ T'.*1 = sample_table.*1
      ∧ py_eqb (VDict T') (VDict sample_table) = true.
Proof.
  split; [by vm_compute|].
  apply (table_round_trip_in_place sample_table [str "head"] (str "tail")).
  by vm_compute.
Defined.

(** ** What the encoder rejects *)

Lemma foldM_app {A B} (f : B → A → res B) l1 l2 b :
  foldM f (l1 ++ l2) b = (b' ← foldM f l1 b; foldM f l2 b').
Proof.
  revert b. induction l1 as [|a l1 IH]; intros b; simpl; [done|].
  destruct (f b a); simpl; [apply IH|done].
Qed.

(** X3: the first item of a dictionary that [encode_table] cannot
    encode decides the exception. After items that the codec carries, a
    key of more than 255 bytes raises [struct.error]; a value that is
    [None] or of no supported type raises [InvalidTableError]; and a list
    in which tables that the codec carries are followed by a string, an
    integer, a decimal, a datetime or a list, none of which has
    [iteritems], raises [AttributeError]. *)
Theorem encode_table_rejects pieces t1 key v t2 :
  Forall (λ e, len e.1 ≤ 255 ∧ wf e.2 = true) t1 →
  let table := VDict (t1 ++ (key, v) :: t2) in
  (255 < len key → encode_table pieces table = Raise struct_error)
  ∧ (len key ≤ 255 → v = VNone ∨ v = VOther →
     encode_table pieces table = Raise InvalidTableError)
  ∧ (len key ≤ 255 →
     (∃ l1 x l2, v = VList (l1 ++ x :: l2)
        ∧ Forall (λ v, ∃ t, v = VDict t ∧ wf v = true) l1
        ∧ match x with
          | VStr _ | VInt _ | VDecimal _ | VDatetime _ | VList _ => True
          | VDict _ | VNone | VOther => False
          end) →
     encode_table pieces table = Raise AttributeError).
Proof.
  intros Hwf table.
  assert (Henc : Forall (λ e : bytes * pyobj, encodes_value e.2) t1).
  { apply Forall_forall. intros e _. apply encodes_all. }
  assert (Hrun : ∀ r,
    (∀ ps n,
       (klen ← pack_B (len key);
        '(ps', n') ← encode_value v (ps ++ [klen; key]);
        Ok (ps', n + (1 + len key) + n')) = Raise r) →
    encode_table pieces table = Raise r).
  { intros r Hr. unfold encode_table, table, encode_object, encode_dict.
    rewrite foldM_app.
    destruct (encode_items_spec t1 Henc Hwf (pieces ++ [[]]) 0) as (qs & E & _).
    cbv zeta in E. rewrite E.
    cbn [mbind res_bind foldM].
    specialize (Hr (((pieces ++ [[]]) ++ qs)) (0 + len (body_wire t1))).
    destruct (pack_B (len key)) as [klen|e]; cbn [mbind res_bind] in *;
      [|by injection Hr as ->].
    destruct (encode_value v _) as [[ps' n']|e]; cbn [mbind res_bind] in *;
      [done|by injection Hr as ->]. }
  pose proof (len_nonneg key).
  split_and!.
  - intros Hk. apply Hrun. intros ps n. unfold pack_B, pack_uint.
    rewrite decide_False; [done|simpl; lia].
  - intros Hk Hv. apply Hrun. intros ps n. unfold pack_B.
    rewrite pack_uint_ok; [|simpl; lia]. by destruct Hv as [-> | ->].
  - intros Hk (l1 & x & l2 & -> & Hl1 & Hx). apply Hrun. intros ps n.
    unfold pack_B. rewrite pack_uint_ok; [|simpl; lia].
    cbn [mbind res_bind encode_value]. rewrite foldM_app.
    assert (Hl1' : Forall (λ v, ∃ t, v = VDict t ∧ wf v = true
                                      ∧ encodes_table t) l1).
    { eapply Forall_impl; [exact Hl1|]. intros v' (t & -> & Hw).
      exists t. split_and!; [done|done|]. by apply (encodes_all (VDict t)). }
    destruct (encode_list_spec l1 Hl1' [] 0) as (qs & n1 & -> & _).
    cbn [mbind res_bind foldM]. by destruct x.
Qed.

Lemma encode_table_rejects_witness :
  encode_table [] (VDict [(str "a", VInt 1); (str "b", VOther)])
  = Raise InvalidTableError
  ∧ encode_table []
      (VDict [(str "a", VInt 1);
              (str "b", VList [VDict [(str "k", VInt 2)]; VInt 3; VNone])])
    = Raise AttributeError.
Proof.
  assert (Ha : Forall (λ e : bytes * pyobj, len e.1 ≤ 255 ∧ wf e.2 = true)
                 [(str "a", VInt 1)]).
  { repeat constructor. by vm_compute. }
  split.
  - destruct (encode_table_rejects [] [(str "a", VInt 1)] (str "b") VOther []
                Ha) as (_ & H & _).
    apply H; [by vm_compute|by right].
  - destruct (encode_table_rejects [] [(str "a", VInt 1)] (str "b")
                (VList [VDict [(str "k", VInt 2)]; VInt 3; VNone]) [] Ha)
      as (_ & _ & H).
    apply H; [by vm_compute|].
    exists [VDict [(str "k", VInt 2)]], (VInt 3), [VNone].
    split_and!; [reflexivity| |exact I].
    repeat constructor. exists [(str "k", VInt 2)]. split; [reflexivity|].
    by vm_compute.
Defined.

(** ** The size that the encoder returns *)









(** ** The decoder on malformed tables *)

(** The first entry of a table that is not empty. *)
Lemma decode_table_first_entry (encoded pre post key : bytes) size tag :
  encoded = pre ++ be_bytes 4 size ++ be_bytes 1 (len key) ++ key ++ [tag]
              ++ post →
  0 < size < 2 ^ 32 → len key ≤ 255 →
  ∃ fuel, length encoded = S fuel ∧
  decode_table encoded (len pre) =
    '(value, offset) ←
      decode_value fuel encoded tag (len pre + 4 + 1 + len key + 1);
    decode_entries fuel encoded (len pre + 4 + size) (dict_set [] key value)
      offset.
Proof.
  intros Henc Hsize Hkey.
  assert (∃ fuel, length encoded = S fuel) as [fuel Hfuel].
  { rewrite Henc !length_app be_bytes_length. eexists. simpl. done. }
  exists fuel. split; [done|].
  unfold decode_table. rewrite Hfuel. cbn [decode_table_fuel].
  unfold unpack_from_I.
  rewrite (unpack_from_uint_at 4 _ pre
             (be_bytes 1 (len key) ++ key ++ [tag] ++ post) _ size);
    [|done|done|simpl; lia].
  cbn [mbind res_bind].
  replace (len pre + 4) with (len (pre ++ be_bytes 4 size)) by offsets.
  rewrite (decode_entries_entry fuel encoded (pre ++ be_bytes 4 size) post
             key tag);
    [|by rewrite Henc -!app_assoc|done|offsets].
  by replace (len (pre ++ be_bytes 4 size)) with (len pre + 4) by offsets.
Qed.

Lemma decode_entries_done fuel encoded limit result offset :
  limit ≤ offset →
  decode_entries (S fuel) encoded limit result offset = Ok (result, offset).
Proof. intros H. rewrite decode_entries_unfold decide_False //. lia. Qed.

(** X5: a table whose first entry carries a tag other than [S], [I],
    [D], [T], [F] and [A] makes [decode_table] raise
    [InvalidTableError], wherever the table lies in the buffer and
    whatever follows the tag. *)
Theorem decode_table_unknown_kind (pre post key : bytes) size tag :
  0 < size < 2 ^ 32 → len key ≤ 255 →
  tag ∉ [("S"%byte); ("I"%byte); ("D"%byte); ("T"%byte); ("F"%byte);
         ("A"%byte)] →
  decode_table
    (pre ++ be_bytes 4 size ++ be_bytes 1 (len key) ++ key ++ [tag] ++ post)
    (len pre)
  = Raise InvalidTableError.
Proof.
  intros Hsize Hkey Htag.
  destruct (decode_table_first_entry _ pre post key size tag eq_refl Hsize Hkey)
    as (fuel & _ & ->).
  rewrite !not_elem_of_cons in Htag.
  destruct Htag as (H1 & H2 & H3 & H4 & H5 & H6 & _).
  unfold decode_value. by rewrite !decide_False.
Qed.

Lemma decode_table_unknown_kind_witness :
  decode_table (be_bytes 4 3 ++ be_bytes 1 1 ++ str "k" ++ str "x") 0
  = Raise InvalidTableError.
Proof.
  apply (decode_table_unknown_kind [] [] (str "k") 3 "x");
    [lia|by vm_compute|].
  rewrite !not_elem_of_cons. split_and!; try done. apply not_elem_of_nil.
Defined.

(** X6: the length of a string field is not checked against the
    buffer. When it runs beyond the end, the value is what is left of
    the buffer, and the offset returned is the one the length announces,
    beyond the end of the buffer. *)
Theorem decode_table_string_cut (pre key s : bytes) size n :
  0 < size < 2 ^ 32 → len key ≤ 255 → len s ≤ n < 2 ^ 32 →
  size ≤ 1 + len key + 5 + n →
  decode_table
    (pre ++ be_bytes 4 size ++ be_bytes 1 (len key) ++ key ++ ["S"%byte]
       ++ be_bytes 4 n ++ s)
    (len pre)
  = Ok ([(key, VStr s)], len pre + 4 + 1 + len key + 5 + n).
Proof.
  intros Hsize Hkey Hn Hlim. pose proof (len_nonneg s).
  destruct (decode_table_first_entry _ pre (be_bytes 4 n ++ s) key size "S"
              eq_refl Hsize Hkey) as (fuel & Hfuel & ->).
  unfold decode_value. case_decide; [|done]. unfold unpack_from_I.
  rewrite (unpack_from_uint_at 4 _
             (pre ++ be_bytes 4 size ++ be_bytes 1 (len key) ++ key
                ++ ["S"%byte])
             s _ n); [|layout|offsets|simpl; lia].
  cbn [mbind res_bind].
  destruct fuel as [|fuel].
  { rewrite !length_app !be_bytes_length /= in Hfuel. lia. }
  rewrite decode_entries_done; [|lia].
  do 2 f_equal; [|lia]. cbn [dict_set]. do 3 f_equal.
  unfold slice.
  replace (pre ++ be_bytes 4 size ++ be_bytes 1 (len key) ++ key ++ ["S"%byte]
             ++ be_bytes 4 n ++ s)
    with ((pre ++ be_bytes 4 size ++ be_bytes 1 (len key) ++ key ++ ["S"%byte]
             ++ be_bytes 4 n) ++ s) by layout.
  rewrite drop_app_length'; last first.
  { rewrite !length_app !be_bytes_length /=. unfold len. lia. }
  apply take_ge. unfold len in *. lia.
Qed.

Lemma decode_table_string_cut_witness :
  decode_table
    (be_bytes 4 8 ++ be_bytes 1 1 ++ str "k" ++ str "S" ++ be_bytes 4 1000
       ++ str "ab") 0
  = Ok ([(str "k", VStr (str "ab"))], 1011).
Proof.
  apply (decode_table_string_cut [] (str "k") (str "ab") 8 1000);
    [lia|by vm_compute| |by vm_compute].
  split; [by vm_compute|lia].
Defined.

(** X7: the length of an array is checked against the tables read.
    When the first table of an array is longer than the length the array
    announces, [decode_table] raises [TableDecodingError]. *)
Theorem decode_table_array_overrun (pre post key : bytes) size t n :
  0 < size < 2 ^ 32 → len key ≤ 255 → wf (VDict t) = true →
  0 < n < len (table_wire t) → n < 2 ^ 32 →
  decode_table
    (pre ++ be_bytes 4 size ++ be_bytes 1 (len key) ++ key ++ ["A"%byte]
       ++ be_bytes 4 n ++ table_wire t ++ post)
    (len pre)
  = Raise TableDecodingError.
Proof.
  intros Hsize Hkey Hwf Hn Hn32.
  destruct (wf_dict t Hwf) as (_ & _ & Hbody).
  destruct (decode_table_first_entry _ pre (be_bytes 4 n ++ table_wire t ++ post)
              key size "A" eq_refl Hsize Hkey) as (fuel & Hfuel & ->).
  unfold decode_value. do 5 (case_decide; [done|]). case_decide; [|done].
  unfold unpack_from_I.
  set (hd := pre ++ be_bytes 4 size ++ be_bytes 1 (len key) ++ key
               ++ ["A"%byte]).
  rewrite (unpack_from_uint_at 4 _ hd (table_wire t ++ post) _ n);
    [|subst hd; layout|subst hd; offsets|simpl; lia].
  cbn [mbind res_bind].
  assert (Hlen : (length hd + 4 + length (table_wire t) ≤ S fuel)%nat).
  { rewrite -Hfuel. subst hd. rewrite !length_app !be_bytes_length /=. lia. }
  assert (Hhd : len pre + 4 + 1 + len key + 1 + 4 = len (hd ++ be_bytes 4 n)).
  { subst hd. offsets. }
  rewrite Hhd.
  destruct fuel as [|[|fuel]]; [lia|lia|].
  cbn [decode_array]. rewrite decide_True; [|lia].
  destruct (decodes_all (VDict t)) as [_ Hdec].
  rewrite (Hdec t eq_refl Hwf (S fuel) _ (hd ++ be_bytes 4 n) post);
    [|subst hd; layout|lia].
  cbn [mbind res_bind].
  destruct fuel as [|fuel].
  { pose proof (len_nonneg (body_wire t)).
    rewrite /table_wire length_app be_bytes_length in Hlen. lia. }
  cbn [decode_array]. rewrite decide_False; [|lia].
  cbn [mbind res_bind]. rewrite decide_True; [done|lia].
Qed.

Lemma decode_table_array_overrun_witness :
  decode_table
    (be_bytes 4 20 ++ be_bytes 1 1 ++ str "k" ++ str "A" ++ be_bytes 4 3
       ++ table_wire [(str "a", VInt 1)]) 0
  = Raise TableDecodingError.
Proof.
  apply (decode_table_array_overrun [] [] (str "k") 20 [(str "a", VInt 1)] 3);
    [lia|by vm_compute|by vm_compute| |lia].
  split; [lia|by vm_compute].
Defined.

(** ** Keys that occur more than once *)

Lemma dict_set_keys (d : dict) k v :
  (dict_set d k v).*1 = if decide (k ∈ d.*1) then d.*1 else d.*1 ++ [k].
Proof.
  induction d as [|[k' x] d IH]; [done|]. cbn [dict_set].
  destruct (decide (k' = k)) as [->|Hne]; rewrite !fmap_cons; cbn [fst].
  - rewrite decide_True //. by left.
  - rewrite IH. destruct (decide (k ∈ d.*1)) as [Hin|Hnin].
    + rewrite decide_True //. by right.
    + rewrite decide_False //. intros [?|?]%elem_of_cons; by simplify_eq.
Qed.

Lemma dict_set_NoDup (d : dict) k v : NoDup d.*1 → NoDup (dict_set d k v).*1.
Proof.
  intros Hd. rewrite dict_set_keys. case_decide as Hk; [done|].
  apply NoDup_app. split_and!; [done| |apply NoDup_singleton].
  intros x Hx ->%list_elem_of_singleton. done.
Qed.

Lemma dict_set_elem (d : dict) k v : (k, v) ∈ dict_set d k v.
Proof.
  induction d as [|[k' x] d IH]; simpl; [by left|].
  case_decide; [subst; by left|by right].
Qed.

Lemma dict_set_elem_ne (d : dict) k v k' v' :
  k' ≠ k → (k', v') ∈ d → (k', v') ∈ dict_set d k v.
Proof.
  intros Hne. induction d as [|[k0 x] d IH]; simpl;
    [by intros ?%elem_of_nil|].
  intros [E|Hin]%elem_of_cons.
  - injection E as <- <-. rewrite decide_False //. by left.
  - case_decide; right; [done|by apply IH].
Qed.

Lemma collect_NoDup_keys result t :
  NoDup result.*1 → NoDup (collect result t).*1.
Proof.
  revert result. induction t as [|[k v] t IH]; intros result Hr; [done|].
  apply IH. by apply dict_set_NoDup.
Qed.

Lemma collect_elem result t k v :
  (k, v) ∈ result → k ∉ t.*1 → (k, v) ∈ collect result t.
Proof.
  revert result. induction t as [|[k' v'] t IH]; intros result Hin Hk; [done|].
  rewrite fmap_cons not_elem_of_cons in Hk. destruct Hk as [Hne Hk].
  apply IH; [|done]. by apply dict_set_elem_ne.
Qed.

(** X8: a table on the wire may hold a key more than once. When its
    keys are of at most 255 bytes and its values are ones the codec
    carries, [decode_table] returns a dictionary with each key once,
    bound to the value of the last entry that has this key. *)
Theorem decode_table_last_entry_wins t :
  Forall (λ e, len e.1 ≤ 255 ∧ wf e.2 = true) t →
  len (body_wire t) < 2 ^ 32 →
  ∃ T',
    decode_table (table_wire t) 0 = Ok (T', len (table_wire t))
    ∧ NoDup T'.*1
    ∧ ∀ t1 k v t2,
        t = t1 ++ (k, v) :: t2 → k ∉ t2.*1 → (k, decoded v) ∈ T'.
Proof.
  intros Hwf Hsize. exists (collect [] t). split_and!.
  - unfold decode_table.
    apply (decode_table_spec t) with (pre := []) (post := []);
      [|done|done|by rewrite app_nil_r|lia].
    apply Forall_forall. intros e _. apply decodes_all.
  - apply collect_NoDup_keys. constructor.
  - intros t1 k v t2 -> Hk. rewrite /collect foldl_app /=.
    apply collect_elem; [apply dict_set_elem|done].
Qed.

Lemma decode_table_last_entry_wins_witness :
  let t := [(str "k", VInt 1); (str "j", VInt 5); (str "k", VInt 2)] in
  ∃ T',
    decode_table (table_wire t) 0 = Ok (T', len (table_wire t))
    ∧ NoDup T'.*1
    ∧ (str "k", VInt 2) ∈ T'.
Proof.
  intros t.
  assert (Ht : Forall (λ e : bytes * pyobj, len e.1 ≤ 255 ∧ wf e.2 = true) t).
  { repeat constructor; by vm_compute. }
  assert (Hs : len (body_wire t) < 2 ^ 32) by (by vm_compute).
  destruct (decode_table_last_entry_wins t Ht Hs) as (T' & H1 & H2 & H3).
  exists T'. split_and!; [exact H1|exact H2|].
  apply (H3 [(str "k", VInt 1); (str "j", VInt 5)] (str "k") (VInt 2) []);
    [reflexivity|apply not_elem_of_nil].
Defined.

(** ** Datetimes and empty tables *)

(** X9: a datetime travels as its whole seconds since the epoch. From
    the epoch to year 9999 it is encoded, and decoded to the datetime of
    the same second with no microseconds, whatever microseconds it had;
    a datetime before the epoch makes [encode_table] raise
    [struct.error]. *)
Theorem datetime_field_whole_seconds key t :
  len key ≤ 255 →
  (0 ≤ seconds t ≤ MAX_TIMESTAMP →
   ∃ pieces size,
     encode_table [] (VDict [(key, VDatetime t)]) = Ok (pieces, size)
     ∧ decode_table (join pieces) 0
       = Ok ([(key, VDatetime (mkDatetime (seconds t) 0))], size))
  ∧ (seconds t < 0 →
     encode_table [] (VDict [(key, VDatetime t)]) = Raise struct_error).
Proof.
  intros Hkey. pose proof (len_nonneg key). split.
  - intros Hs.
    set (t0 := mkDatetime (seconds t) 0).
    assert (Hwf : wf (VDict [(key, VDatetime t0)]) = true).
    { cbn [wf forallb fst snd]. rewrite !bool_decide_true //.
      - rewrite wire_dict /table_wire /body_wire /= /entry_wire /=. offsets.
      - apply NoDup_singleton. }
    destruct (table_round_trip_wire _ Hwf) as (pieces & E & Hj & D).
    exists pieces, (len (table_wire [(key, VDatetime t0)])).
    by rewrite Hj.
  - intros Hneg. unfold encode_table, encode_object, encode_dict. cbn [foldM].
    unfold pack_B. rewrite pack_uint_ok; [|simpl; lia].
    cbn [mbind res_bind encode_value].
    unfold pack_cQ, pack_Q, pack_uint, timegm_utctimetuple.
    rewrite decide_False; [done|lia].
Qed.

Lemma datetime_field_whole_seconds_witness :
  let t := mkDatetime 1577836800 250000 in
  len (str "at") ≤ 255
  ∧ 0 ≤ seconds t ≤ MAX_TIMESTAMP
  ∧ ∃ pieces size,
      encode_table [] (VDict [(str "at", VDatetime t)]) = Ok (pieces, size)
      ∧ decode_table (join pieces) 0
        = Ok ([(str "at", VDatetime (mkDatetime 1577836800 0))], size).
Proof.
  intros t.
  assert (H1 : len (str "at") ≤ 255) by (by vm_compute).
  assert (H2 : 0 ≤ seconds t ≤ MAX_TIMESTAMP) by (by vm_compute).
  split_and!; [exact H1|apply H2|apply H2|].
  destruct (datetime_field_whole_seconds (str "at") t H1) as [H _].
  exact (H H2).
Defined.

(** X10: [None] and the empty dictionary are encoded alike, as the
    four zero bytes of an empty table, and these decode to the empty
    dictionary wherever they lie in a buffer. *)
Theorem empty_table_wire pieces (pre post : bytes) :
  encode_table pieces VNone = Ok (pieces ++ [be_bytes 4 0], 4)
  ∧ encode_table pieces (VDict []) = Ok (pieces ++ [be_bytes 4 0], 4)
  ∧ decode_table (pre ++ be_bytes 4 0 ++ post) (len pre) = Ok ([], len pre + 4).
Proof.
  assert (H : ∀ (l : list bytes) x y, <[length l := x]> (l ++ [y]) = l ++ [x]).
  { intros l x y. rewrite insert_app_r_alt; [|lia]. by rewrite Nat.sub_diag. }
  split_and!.
  - rewrite /encode_table /encode_object /encode_dict /=. by rewrite H.
  - rewrite /encode_table /encode_object /encode_dict /=. by rewrite H.
  - apply (decode_table_spec []) with (post := post); try done.
    rewrite !length_app !be_bytes_length /=. lia.
Qed.

(** ** The negotiation rule *)

(** X11: [_combine] is symmetric and associative, returns one of its
    two arguments, is 0 only when both are 0, and never exceeds an
    argument that is not 0; combining a value with itself gives it
    back. *)
Theorem _combine_bounds a b :
  _combine a b = _combine b a
  ∧ (_combine a b = 0 ↔ a = 0 ∧ b = 0)
  ∧ (_combine a b = a ∨ _combine a b = b)
  ∧ (a ≠ 0 → _combine a b ≤ a)
  ∧ (b ≠ 0 → _combine a b ≤ b)
  ∧ _combine a a = a
  ∧ ∀ c, _combine (_combine a b) c = _combine a (_combine b c).
Proof.
  assert (H : ∀ x y, _combine x y =
                     if decide (x = 0) then y
                     else if decide (y = 0) then x else Z.min x y).
  { intros x y. unfold _combine, truthy.
    destruct (Z.eqb_spec x 0), (Z.eqb_spec y 0); simpl;
      repeat case_decide; done. }
  split_and!; [..|intros c]; rewrite !H; repeat case_decide; lia.
Qed.

(** ** The registry of callbacks *)

Lemma lookup_registry_add (prefix : Z) (key : string) (cb : callback)
    (one_shot : bool) (reg : registry) (prefix' : Z) (key' : string) :
  default [] (registry_add prefix key cb one_shot reg !! (prefix', key')) =
    if decide ((prefix, key) = (prefix', key')) then
      if decide (cb ∈ (default [] (reg !! (prefix, key))).*1)
      then default [] (reg !! (prefix, key))
      else default [] (reg !! (prefix, key)) ++ [(cb, one_shot)]
    else default [] (reg !! (prefix', key')).
Proof.
  unfold registry_add.
  destruct (decide ((prefix, key) = (prefix', key'))) as [E|E].
  - injection E as <- <-. case_decide; [done|]. by rewrite lookup_insert_eq.
  - case_decide; [done|]. by rewrite lookup_insert_ne.
Qed.

Lemma lookup_registry_remove (prefix : Z) (key : string) (cb : callback)
    (reg : registry) (prefix' : Z) (key' : string) :
  default [] (registry_remove prefix key cb reg !! (prefix', key')) =
    if decide ((prefix, key) = (prefix', key'))
    then filter (λ e, e.1 ≠ cb) (default [] (reg !! (prefix, key)))
    else default [] (reg !! (prefix', key')).
Proof.
  unfold registry_remove.
  destruct (decide ((prefix, key) = (prefix', key'))) as [E|E].
  - injection E as <- <-.
    destruct (reg !! (prefix, key)) as [l|] eqn:El; [|by rewrite El].
    by rewrite lookup_insert_eq.
  - destruct (reg !! (prefix, key)) as [l|] eqn:El; [|done].
    by rewrite lookup_insert_ne.
Qed.

(** Settles the comparisons of two keys of the registry. *)
Ltac key_cases :=
  repeat match goal with
  | |- context [decide (@eq (Z * string) ?a ?b)] =>
      let H := fresh in
      destruct (decide (a = b)) as [H|H];
        [try (by injection H)|try done]; clear H
  end.

Ltac registry_lookup :=
  repeat (first [rewrite lookup_registry_remove | rewrite lookup_registry_add];
          key_cases).

Lemma set_callbacks_trace_id c :
  set_callbacks (λ _, callbacks c) (set_trace (λ t, t ++ []) c) = c.
Proof. destruct c. by rewrite /set_callbacks /set_trace /= app_nil_r. Qed.

(** The lifecycle callbacks of the application change nothing but the
    trace and the entries under their own key. *)
Lemma process_application_registry prefix key arg g l c :
  g = (λ '(cb, one_shot),
         finally (invoke_lifecycle cb arg)
           (if one_shot : bool then callbacks_remove prefix key cb
            else mret tt)) →
  Forall application_callable l.*1 →
  ∃ reg : registry,
    forM g l c =
      (Ok tt,
       set_callbacks (λ _, reg)
         (set_trace (λ t, t ++ ((λ cb, called cb arg) <$> l.*1)) c))
    ∧ ∀ p k, (p, k) ≠ (prefix, key) → reg !! (p, k) = callbacks c !! (p, k).
Proof.
  intros ->. revert c. induction l as [|[cb one_shot] l IH]; intros c Hl.
  - exists (callbacks c). by rewrite /= set_callbacks_trace_id.
  - apply Forall_cons in Hl as [Hcb Hl]. cbn [forM].
    unfold finally, callbacks_remove. run.
    destruct cb; try done; destruct one_shot; cbn.
    all: match goal with |- context [forM _ _ ?c'] =>
           destruct (IH c' Hl) as (reg & E & Hreg) end.
    all: exists reg; split;
      [etransitivity; [exact E|];
       destruct c; rewrite /set_callbacks /set_trace /= -app_assoc //|].
    all: intros p k Hne; rewrite Hreg //=.
    all: unfold registry_remove; case_match; [|done].
    all: by rewrite lookup_insert_ne.
Qed.

(** ** Closing twice, allocation, and frames without a body *)

Section Operations.
Variable marshal : frame → bytes.

(** X12: [close] does nothing on a connection that is closing or
    closed, and after any call of [close] a further call, with whatever
    code and text, does nothing: the code and text of the first call
    stay. *)
Theorem close_twice code text code' text' c :
  let r := close marshal code text c in
  (closing c ≠ None ∨ closed c = true → r = (Ok tt, c))
  ∧ close marshal code' text' r.2 = (Ok tt, r.2).
Proof.
  intros r.
  assert (Hnoop : ∀ co te c0, closing c0 ≠ None ∨ closed c0 = true →
                    close marshal co te c0 = (Ok tt, c0)).
  { intros co te c0 H. unfold close. run.
    destruct (closing c0) as [p|]; [done|].
    destruct H as [H|H]; [done|]. by rewrite H. }
  split; [apply Hnoop|].
  destruct (closing c) as [p|] eqn:Hclosing.
  { subst r. rewrite (Hnoop code text c); [|left; congruence].
    apply Hnoop. left. simpl. congruence. }
  destruct (closed c) eqn:Hclosed.
  { subst r. rewrite (Hnoop code text c); [|by right]. apply Hnoop. by right. }
  destruct (close_run marshal code text c Hclosing Hclosed) as (_ & H & _).
  apply Hnoop. left. fold r in H. congruence.
Qed.

(** X13: when the content has no body, or an empty one, [send_method]
    needs no negotiated [frame_max]: it sends the method frame, then a
    header frame of body size 0 when the content has properties, and no
    body frame. *)
Theorem send_method_without_body c channel_number method content :
  content_body content = [] →
  let r := send_method marshal channel_number method content c in
  r.1 = Ok tt
  ∧ sent_frames (trace r.2) =
      sent_frames (trace c) ++
      [FrameMethod channel_number method] ++
      match content_props content with
      | Some props => [FrameHeader channel_number 0 props]
      | None => []
      end
  ∧ state r.2 = state c
  ∧ callbacks r.2 = callbacks c.
Proof.
  intros Hbody r. subst r. unfold send_method, send_method_with.
  destruct content as [|body|[props|] [body|]]; cbn in Hbody; subst;
    unfold _send_frame; run;
    rewrite /sent_frames !omap_app /= ?app_nil_r -?app_assoc //.
Qed.

(** X14: [rpc] with a callback registers it under every acceptable
    reply on the channel, leaves every other key of the registry as it
    was, and sends the method frame alone; without a callback it is
    [send_method]. *)
Theorem rpc_registers_replies c cb channel_number method replies :
  let r := rpc marshal (Some cb) channel_number method replies c in
  r.1 = Ok tt
  ∧ (∀ reply, reply ∈ replies →
       cb ∈ (entries r.2 channel_number reply).*1)
  ∧ (∀ prefix key, (prefix = channel_number → key ∉ replies) →
       entries r.2 prefix key = entries c prefix key)
  ∧ sent_frames (trace r.2) =
      sent_frames (trace c) ++ [FrameMethod channel_number method]
  ∧ rpc marshal None channel_number method replies
    = send_method marshal channel_number method NoContent.
Proof.
  intros r.
  assert (Hloop : ∀ c0,
    let r0 := forM (λ reply, callbacks_add channel_number reply cb true)
                replies c0 in
    r0.1 = Ok tt ∧ trace r0.2 = trace c0
    ∧ (∀ reply, reply ∈ replies → cb ∈ (entries r0.2 channel_number reply).*1)
    ∧ (∀ reply, cb ∈ (entries c0 channel_number reply).*1 →
                cb ∈ (entries r0.2 channel_number reply).*1)
    ∧ (∀ prefix key, (prefix = channel_number → key ∉ replies) →
         entries r0.2 prefix key = entries c0 prefix key)).
  { induction replies as [|reply replies IH]; intros c0.
    - simpl. split_and!; try done. by intros reply ?%elem_of_nil.
    - cbn [forM]. unfold callbacks_add. run.
      match goal with |- context [forM _ _ ?c1] =>
        destruct (IH c1) as (E1 & E2 & E3 & E4 & E5); set (c' := c1) in * end.
      split_and!; [done|done| | |].
      + intros reply' [->|Hin]%elem_of_cons; [|by apply E3].
        apply E4. unfold entries. cbn. apply registry_add_elem.
      + intros reply' Hin. apply E4. unfold entries in *. cbn.
        unfold registry_add. case_decide; [done|].
        destruct (decide (reply' = reply)) as [->|Hne].
        * rewrite lookup_insert_eq /= fmap_app. apply elem_of_app. by left.
        * rewrite lookup_insert_ne //. congruence.
      + intros prefix key Hk. rewrite E5; last first.
        { intros ->. specialize (Hk eq_refl).
          rewrite not_elem_of_cons in Hk. tauto. }
        unfold entries. cbn. unfold registry_add. case_decide; [done|].
        rewrite lookup_insert_ne //. intros [= <- <-].
        specialize (Hk eq_refl). rewrite not_elem_of_cons in Hk. tauto. }
  split_and!; [..|done]; subst r; unfold rpc; rewrite /mbind /M_bind;
    destruct (Hloop c) as (E1 & E2 & E3 & E4 & E5);
    destruct (forM _ replies c) as [r0 c1]; simpl in E1, E2, E3, E4, E5;
    subst r0; unfold send_method, send_method_with, _send_frame; run.
  - done.
  - done.
  - done.
  - rewrite E2 /sent_frames !omap_app /= ?app_nil_r -?app_assoc //.
Qed.

(** What [_on_close_ready] does while the connection is closing. *)
Lemma _on_close_ready_run code text c :
  closing c = Some (code, text) → closed c = false →
  ∃ c1,
    _on_close_ready marshal c = (Ok tt, c1)
    ∧ trace c1 =
        trace c ++
        [sent (FrameMethod 0 (Connection_Close code text 0 0)); flush_outbound]
    ∧ callbacks c1 =
        registry_add 0 "Connection.CloseOk" _on_connection_closed_cb true
          (callbacks c)
    ∧ closing c1 = closing c ∧ closed c1 = false ∧ open c1 = open c
    ∧ state c1 = state c ∧ _channels c1 = _channels c.
Proof.
  intros Hclosing Hclosed.
  unfold _on_close_ready, rpc, send_method, send_method_with, _send_frame,
    forM, callbacks_add.
  run. rewrite Hclosed Hclosing /=. eexists. split; [reflexivity|].
  cbn. by rewrite -app_assoc.
Qed.

(** [close] on a connection with no channel. *)
Lemma close_step code text c :
  closing c = None → closed c = false → _channels c = ∅ →
  ∃ c1,
    close marshal code text c = (Ok tt, c1)
    ∧ trace c1 =
        trace c ++
        [sent (FrameMethod 0 (Connection_Close code text 0 0)); flush_outbound]
    ∧ callbacks c1 =
        registry_add 0 "Connection.CloseOk" _on_connection_closed_cb true
          (registry_remove 0 "_on_connection_close"
             reconnection_strategy_on_connection_closed (callbacks c))
    ∧ closing c1 = Some (code, text) ∧ closed c1 = false ∧ open c1 = open c.
Proof.
  intros Hclosing Hclosed Hch. unfold close, callbacks_remove. run.
  rewrite Hclosing Hclosed /=. rewrite forM_emit /=.
  rewrite Hch map_to_list_empty /=.
  destruct (decide (size (∅ : gmap Z Channel) = 0%nat)) as [_|Hne]; [|done].
  match goal with |- context [_on_close_ready marshal ?c0] =>
    destruct (_on_close_ready_run code text c0)
      as (c1 & -> & T & R & G & D & O & _)
  end; [done|done|].
  exists c1. split; [done|]. rewrite T R G D O /=.
  by rewrite app_nil_r.
Qed.

(** [close] on a connection with channels. *)
Lemma close_channels_step code text c :
  closing c = None → closed c = false → _channels c ≠ ∅ →
  close marshal code text c =
    (Ok tt,
     set_trace (λ _, trace c ++
                     ((λ n, channel_close n code text)
                        <$> (map_to_list (_channels c)).*1))
       (set_callbacks
          (registry_remove 0 "_on_connection_close"
             reconnection_strategy_on_connection_closed)
          (set_closing (Some (code, text)) c))).
Proof.
  intros Hclosing Hclosed Hch. unfold close, callbacks_remove. run.
  rewrite Hclosing Hclosed /=. rewrite forM_emit /=.
  case_decide as Hsize; [by apply map_size_empty_iff in Hsize|].
  done.
Qed.

Lemma _on_channel_close_run n m c :
  _on_channel_close marshal (FrameMethod n m) c =
    let c' := set_channels (delete n) c in
    if bool_decide (is_Some (closing c))
       && bool_decide (size (delete n (_channels c)) = 0%nat)
    then _on_close_ready marshal c'
    else (Ok tt, c').
Proof.
  unfold _on_channel_close, frame_channel_number. run.
  by destruct (_ && _).
Qed.

(** The channels of a closing connection close one after the other. *)
Lemma channels_drain code text ns :
  ∀ c,
    closing c = Some (code, text) → closed c = false →
    NoDup ns → ns ≠ [] →
    (∀ k, k ∈ ns ↔ is_Some (_channels c !! k)) →
    let r := forM (λ n, _on_channel_close marshal
                          (FrameMethod n Channel_CloseOk)) ns c in
    r.1 = Ok tt ∧ _channels r.2 = ∅
    ∧ trace r.2 =
        trace c ++
        [sent (FrameMethod 0 (Connection_Close code text 0 0)); flush_outbound].
Proof.
  induction ns as [|n ns IH]; intros c Hclosing Hclosed Hnd Hne Hkeys; [done|].
  apply NoDup_cons in Hnd as [Hn Hnd].
  cbn [forM]. rewrite /mbind /M_bind _on_channel_close_run. cbv zeta.
  rewrite Hclosing (bool_decide_true (is_Some (Some _))); [|by eexists].
  cbn [andb].
  destruct ns as [|k ns'].
  - assert (Hempty : delete n (_channels c) = ∅).
    { apply map_eq. intros k. rewrite lookup_empty lookup_delete.
      case_decide; [done|]. apply eq_None_not_Some. intros Hk%Hkeys.
      apply list_elem_of_singleton in Hk. done. }
    rewrite Hempty bool_decide_true //.
    destruct (_on_close_ready_run code text (set_channels (delete n) c))
      as (c1 & -> & T & _ & _ & _ & _ & _ & Hch); [done|done|].
    cbn. split_and!; [done|by rewrite Hch /= Hempty|].
    by rewrite T.
  - assert (Hk : is_Some (delete n (_channels c) !! k)).
    { rewrite lookup_delete. case_decide as E.
      - subst k. exfalso. apply Hn. by left.
      - apply Hkeys. right. by left. }
    rewrite bool_decide_false; last first.
    { intros Hsize%map_size_empty_iff. rewrite Hsize lookup_empty in Hk.
      by destruct Hk. }
    apply (IH (set_channels (delete n) c)); [done|done|done|done|].
    intros j. cbn. rewrite lookup_delete. case_decide as E.
    + subst j. split; [done|by intros []].
    + rewrite -Hkeys. split; [by right|].
      intros [->|?]%elem_of_cons; done.
Qed.

(** While a channel is left, [_on_channel_close] only removes its
    channel. *)
Lemma channels_remain ns :
  ∀ c k,
    is_Some (closing c) → k ∉ ns → is_Some (_channels c !! k) →
    let r := forM (λ n, _on_channel_close marshal
                          (FrameMethod n Channel_CloseOk)) ns c in
    r.1 = Ok tt ∧ trace r.2 = trace c.
Proof.
  induction ns as [|n ns IH]; intros c k Hclosing Hk Hin; [done|].
  apply not_elem_of_cons in Hk as [Hne Hk].
  cbn [forM]. rewrite /mbind /M_bind _on_channel_close_run. cbv zeta.
  assert (Hin' : is_Some (delete n (_channels c) !! k)).
  { by rewrite lookup_delete_ne. }
  rewrite (bool_decide_false (size _ = 0%nat)); last first.
  { intros Hsize%map_size_empty_iff. rewrite Hsize lookup_empty in Hin'.
    by destruct Hin'. }
  rewrite andb_false_r.
  by apply (IH (set_channels (delete n) c) k).
Qed.

(** X15: [close] on a connection with channels calls [close] on every
    channel, with the code and text, and itself sends nothing: it only
    keeps the code and text in [closing]. Whatever the channels did in
    the meantime, [_on_channel_close] sends nothing while a channel is
    left, and when it has run for every channel, in whatever order, it
    has sent [Connection.Close] with that code and text, once, and
    [_channels] is empty. *)
Theorem close_waits_for_channels c code text ns :
  closing c = None → closed c = false →
  NoDup ns → ns ≠ [] →
  (∀ k, k ∈ ns ↔ is_Some (_channels c !! k)) →
  let r1 := close marshal code text c in
  let on_channels_closed ns c1 :=
    forM (λ n, _on_channel_close marshal (FrameMethod n Channel_CloseOk))
      ns c1 in
  r1.1 = Ok tt
  ∧ trace r1.2 =
      trace c ++
      ((λ n, channel_close n code text) <$> (map_to_list (_channels c)).*1)
  ∧ (∀ k, k ∈ ns → channel_close k code text ∈ trace r1.2)
  ∧ closing r1.2 = Some (code, text) ∧ closed r1.2 = false
  ∧ _channels r1.2 = _channels c
  ∧ ∀ c1,
      closing c1 = Some (code, text) → closed c1 = false →
      _channels c1 = _channels c →
      (∀ ns1 ns2, ns = ns1 ++ ns2 → ns2 ≠ [] →
         (on_channels_closed ns1 c1).1 = Ok tt
         ∧ trace (on_channels_closed ns1 c1).2 = trace c1)
      ∧ (on_channels_closed ns c1).1 = Ok tt
      ∧ _channels (on_channels_closed ns c1).2 = ∅
      ∧ trace (on_channels_closed ns c1).2 =
          trace c1 ++
          [sent (FrameMethod 0 (Connection_Close code text 0 0));
           flush_outbound].
Proof.
  intros Hclosing Hclosed Hnd Hne Hkeys r1 on_channels_closed.
  assert (Hch : _channels c ≠ ∅).
  { intros He. destruct ns as [|k ns']; [done|].
    destruct (proj1 (Hkeys k)) as [ch Hk]; [by left|].
    by rewrite He lookup_empty in Hk. }
  subst r1. rewrite close_channels_step //. cbn [fst snd].
  split_and!; [done|done| |done|done|done|].
  - intros k Hk. cbn. apply elem_of_app. right.
    apply list_elem_of_fmap. exists k. split; [done|].
    by apply elem_of_channel_numbers, Hkeys.
  - intros c1 Hclosing1 Hclosed1 Hch1. split.
    + intros ns1 ns2 -> Hns2. destruct ns2 as [|k ns2]; [done|].
      apply NoDup_app in Hnd as (_ & Hdis & _).
      apply (channels_remain ns1 c1 k).
      * by rewrite Hclosing1.
      * intros Hk. apply (Hdis k Hk). by left.
      * rewrite Hch1. apply Hkeys. apply elem_of_app. right. by left.
    + apply channels_drain; [done|done|done|done|].
      intros k. by rewrite Hch1.
Qed.

(** X16: [reconnect] on a connection that is closing only registers
    [_reconnect] for the close; on an open connection with no channel it
    registers [_reconnect] and closes with code 200 and text "Normal
    shutdown", sending [Connection.Close]; on a connection that is
    neither, it resets the state (buffers, channels, counters and
    lifecycle flags), registers [_on_connection_start] for
    [Connection.Start] and asks the adapter to connect to the host and
    the port of the parameters, 5672 when there is none. *)
Theorem reconnect_paths c :
  (closing c ≠ None →
   reconnect marshal c =
     (Ok tt,
      set_callbacks (registry_add 0 "_on_connection_closed" _reconnect_cb false)
        c))
  ∧ (closing c = None → open c = true → closed c = false → _channels c = ∅ →
     let r := reconnect marshal c in
     r.1 = Ok tt
     ∧ closing r.2 = Some (200, str "Normal shutdown")
     ∧ trace r.2 =
         trace c ++
         [sent (FrameMethod 0
                  (Connection_Close 200 (str "Normal shutdown") 0 0));
          flush_outbound]
     ∧ _reconnect_cb ∈ (entries r.2 0 "_on_connection_closed").*1)
  ∧ (closing c = None → open c = false →
     let r := reconnect marshal c in
     r.1 = Ok tt
     ∧ trace r.2 =
         trace c ++
         [initialized; on_connect_attempt;
          connect (host (parameters c))
            (match port (parameters c) with
             | Some 0 | None => 5672
             | Some n => n
             end)]
     ∧ buffer r.2 = [] ∧ outbound_buffer r.2 = []
     ∧ _channels r.2 = ∅ ∧ counters r.2 = (0, 0)
     ∧ closed r.2 = true ∧ closing r.2 = None ∧ open r.2 = false
     ∧ parameters r.2 = parameters c
     ∧ _on_connection_start_cb ∈ (entries r.2 0 "Connection.Start").*1).
Proof.
  split_and!.
  - intros Hclosing. unfold reconnect, add_on_close_callback, callbacks_add.
    run. by destruct (closing c).
  - intros Hclosing Hopen Hclosed Hch r. subst r.
    unfold reconnect, add_on_close_callback, callbacks_add, _ensure_closed.
    run. rewrite Hclosing Hopen /=.
    rewrite /is_open /= Hopen Hclosing Hclosed /=.
    match goal with |- context [close marshal ?co ?te ?c0] =>
      destruct (close_step co te c0) as (c1 & -> & T & R & G & D & O)
    end; [done|done|done|].
    cbn. split_and!; [done|done|done|].
    rewrite /entries R. rewrite lookup_registry_add. key_cases.
    rewrite lookup_registry_remove. key_cases. apply registry_add_elem.
  - intros Hclosing Hopen r. subst r.
    unfold reconnect, _reconnect, _init_connection_state, _connect,
      callbacks_add. run. rewrite Hclosing Hopen /=.
    split_and!; try done.
    + rewrite -!app_assoc /=. do 4 f_equal.
      unfold or_else, truthy, PORT.
      by destruct (port (parameters c)) as [[| |]|].
    + rewrite /entries /=. apply registry_add_elem.
Qed.
End Operations.

Lemma send_method_without_body_witness :
  let c := open_connection sample_parameters (mkConnectionState None None) in
  let content := Content (Some (BasicProperties [])) None in
  let r := send_method sample_marshal 1 (Other_Method "Basic.Publish" [])
             content c in
  r.1 = Ok tt
  ∧ sent_frames (trace r.2) =
      [FrameMethod 1 (Other_Method "Basic.Publish" []);
       FrameHeader 1 0 (BasicProperties [])].
Proof.
  intros c content r.
  destruct (send_method_without_body sample_marshal c 1
              (Other_Method "Basic.Publish" []) content eq_refl)
    as (H1 & H2 & _).
  split; [exact H1|exact H2].
Defined.

Lemma close_waits_for_channels_witness :
  let r1 := close sample_marshal 200 (str "bye") busy_connection in
  let on_channels_closed ns c1 :=
    forM (λ n, _on_channel_close sample_marshal
                 (FrameMethod n Channel_CloseOk)) ns c1 in
  channel_close 1 200 (str "bye") ∈ trace r1.2
  ∧ channel_close 2 200 (str "bye") ∈ trace r1.2
  ∧ closing r1.2 = Some (200, str "bye")
  ∧ trace (on_channels_closed [2] r1.2).2 = trace r1.2
  ∧ trace (on_channels_closed [2; 1] r1.2).2 =
      trace r1.2 ++
      [sent (FrameMethod 0 (Connection_Close 200 (str "bye") 0 0));
       flush_outbound].
Proof.
  intros r1 on_channels_closed.
  destruct (close_waits_for_channels sample_marshal busy_connection 200
              (str "bye") [2; 1])
    as (_ & _ & H3 & H4 & H5 & H6 & H7).
  - reflexivity.
  - reflexivity.
  - apply NoDup_cons. split; [|apply NoDup_singleton].
    intros H%list_elem_of_singleton. discriminate H.
  - discriminate.
  - intros k. split.
    + intros [->|[->|[]%elem_of_nil]%elem_of_cons]%elem_of_cons;
        eexists; by vm_compute.
    + intros [ch Hk]. destruct (decide (k = 1)) as [->|Hne1].
      { right. by left. }
      destruct (decide (k = 2)) as [->|Hne2]; [by left|].
      unfold busy_connection in Hk. simpl in Hk.
      rewrite lookup_insert_ne // lookup_insert_ne // in Hk.
  - destruct (H7 r1.2 H4 H5 H6) as (H8 & _ & _ & H9).
    destruct (H8 [2] [1] eq_refl ltac:(discriminate)) as [_ H10].
    split_and!; [| |exact H4|exact H10|exact H9].
    + apply H3. right. by left.
    + apply H3. by left.
Defined.

Lemma reconnect_paths_witness :
  let c := open_connection sample_parameters
             (mkConnectionState (Some 0) (Some 131072)) in
  let r := reconnect sample_marshal c in
  closing r.2 = Some (200, str "Normal shutdown")
  ∧ _reconnect_cb ∈ (entries r.2 0 "_on_connection_closed").*1.
Proof.
  intros c r.
  destruct (reconnect_paths sample_marshal c) as (_ & H & _).
  destruct H as (_ & H2 & _ & H4); [reflexivity..|].
  split; [exact H2|exact H4].
Defined.

(** X17: automatic allocation never takes a number in use. When
    [channel] without a number succeeds, the channel is stored under a
    number that was free, every channel that was there is still there
    under its number, and there is one channel more. *)
Theorem channel_never_reuses cb c :
  (channel cb None c).1 = Ok tt →
  ∃ n,
    _channels c !! n = None
    ∧ _channels (channel cb None c).2 = <[n := mkChannel n cb]> (_channels c)
    ∧ size (_channels (channel cb None c).2) = S (size (_channels c))
    ∧ ∀ k ch, _channels c !! k = Some ch →
              _channels (channel cb None c).2 !! k = Some ch.
Proof.
  rewrite channel_run /chosen_number _next_channel_number_run.
  case_decide as Hfull; [done|]. intros _.
  assert (∃ n, _channels c !! n = None
               ∧ (if decide (_channels c = ∅) then Ok 1
                  else Ok (py_max (map_to_list (_channels c)).*1 + 1)) = Ok n)
    as (n & Hn & ->).
  { case_decide as He.
    - exists 1. by rewrite He lookup_empty.
    - destruct (py_max_spec (map_to_list (_channels c)).*1) as [Hin Hub].
      { by rewrite channel_numbers_nil. }
      eexists. split; [|done].
      apply eq_None_not_Some. intros Hs%elem_of_channel_numbers.
      apply Hub in Hs. lia. }
  exists n. cbn. split_and!; [done|done|by rewrite map_size_insert_None|].
  intros k ch Hk. rewrite lookup_insert_ne //. congruence.
Qed.

Lemma channel_never_reuses_witness :
  (channel (external 3) None busy_connection).1 = Ok tt
  ∧ ∃ n,
      _channels busy_connection !! n = None
      ∧ _channels (channel (external 3) None busy_connection).2
        = <[n := mkChannel n (external 3)]> (_channels busy_connection)
      ∧ size (_channels (channel (external 3) None busy_connection).2)
        = S (size (_channels busy_connection))
      ∧ ∀ k ch, _channels busy_connection !! k = Some ch →
                _channels (channel (external 3) None busy_connection).2 !! k
                = Some ch.
Proof.
  split; [by vm_compute|].
  apply (channel_never_reuses (external 3) busy_connection). by vm_compute.
Defined.

(** ** Frames that reach their handler *)

Section Handlers.
Variable marshal : frame → bytes.
Variable handle_input : bytes → Z * option frame.
Variable tune : ConnectionState → Z → Z → ConnectionState.
Variable response_for : bytes * bytes → method → option (bytes * bytes).
Variable PROTOCOL_VERSION : Z * Z.

Local Abbreviation dispatch :=
  (dispatch marshal tune response_for PROTOCOL_VERSION).
Local Abbreviation on_data_available :=
  (on_data_available marshal handle_input tune response_for PROTOCOL_VERSION).

(** A method frame for which one one-shot handler is registered goes
    to that handler, which is then removed. *)
Lemma dispatch_one_shot c channel_number method cb :
  entries c channel_number (method_key method) = [(cb, true)] →
  dispatch (FrameMethod channel_number method) c
  = finally (invoke marshal tune response_for PROTOCOL_VERSION cb
               (Some (FrameMethod channel_number method)))
            (callbacks_remove channel_number (method_key method) cb) c.
Proof.
  intros E. unfold dispatch, callbacks_pending, callbacks_process. run.
  rewrite E. cbn. rewrite E. cbn [forM]. rewrite /mbind /M_bind /mret /M_ret.
  destruct (finally _ _ c) as [[[]|e] c']; done.
Qed.

Local Opaque PRODUCT str.

Lemma start_step c server_properties mechanisms locales response :
  let start := Connection_Start PROTOCOL_VERSION.1 PROTOCOL_VERSION.2
                 server_properties mechanisms locales in
  entries c 0 "Connection.Start" = [(_on_connection_start_cb, true)] →
  response_for (default default_credentials (credentials (parameters c))) start
    = Some response →
  ∃ c1,
    dispatch (FrameMethod 0 start) c = (Ok tt, c1)
    ∧ parameters c1 = parameters c ∧ state c1 = state c
    ∧ trace c1 =
        trace c ++
        [erase_credentials;
         sent (FrameMethod 0
                 (Connection_StartOk [(str "product", VStr PRODUCT)]
                    response.1 response.2));
         flush_outbound]
    ∧ callbacks c1 =
        registry_remove 0 "Connection.Start" _on_connection_start_cb
          (registry_add 0 "Connection.Tune" _on_connection_tune_cb true
             (callbacks c))
    ∧ open c1 = open c ∧ closing c1 = closing c ∧ closed c1 = false
    ∧ server_properties_ c1 = Some server_properties.
Proof.
  intros start Hstart Hresp.
  rewrite (dispatch_one_shot _ _ _ _on_connection_start_cb) //.
  unfold finally, invoke, _on_connection_start, send_method,
    send_method_with, _send_frame,
    callbacks_add, callbacks_remove. run.
  rewrite decide_False; [|by destruct PROTOCOL_VERSION; intros []]. run.
  fold start. rewrite Hresp. run. eexists. split; [reflexivity|].
  cbn. rewrite -!app_assoc. done.
Qed.

Lemma tune_step c n server_channel_max server_frame_max server_heartbeat :
  let p := parameters c in
  let cmax := _combine (param_channel_max p) server_channel_max in
  let fmax := _combine (param_frame_max p) server_frame_max in
  let hint := _combine (param_heartbeat p) server_heartbeat in
  entries c n "Connection.Tune" = [(_on_connection_tune_cb, true)] →
  ∃ c2,
    dispatch (FrameMethod n (Connection_Tune server_channel_max
                               server_frame_max server_heartbeat)) c
    = (Ok tt, c2)
    ∧ parameters c2 = p ∧ state c2 = tune (state c) cmax fmax
    ∧ sent_frames (trace c2) =
        sent_frames (trace c) ++
        [FrameMethod 0 (Connection_TuneOk cmax fmax hint);
         FrameMethod 0 (Connection_Open (virtual_host p) true)]
    ∧ calls (trace c2) = calls (trace c)
    ∧ callbacks c2 =
        registry_remove n "Connection.Tune" _on_connection_tune_cb
          (registry_add 0 "Connection.OpenOk" _on_connection_open_cb true
             (callbacks c))
    ∧ open c2 = open c ∧ closing c2 = closing c ∧ closed c2 = closed c
    ∧ server_properties_ c2 = server_properties_ c.
Proof.
  intros p cmax fmax hint Htune.
  rewrite (dispatch_one_shot _ _ _ _on_connection_tune_cb) //.
  unfold finally, invoke, _on_connection_tune, rpc, send_method,
    send_method_with, _send_frame,
    forM, callbacks_add, callbacks_remove. run.
  fold p. fold cmax fmax hint.
  destruct (truthy hint); cbn; (eexists; split; [reflexivity|]); cbn;
    rewrite /sent_frames /calls ?omap_app -?app_assoc /= ?app_nil_r //.
Qed.

Lemma open_step c n known_hosts :
  entries c n "Connection.OpenOk" = [(_on_connection_open_cb, true)] →
  dispatch (FrameMethod n (Connection_OpenOk known_hosts)) c
  = finally
      (callbacks_process invoke_lifecycle 0 "_on_connection_open" None)
      (callbacks_remove n "Connection.OpenOk" _on_connection_open_cb)
      (set_open true
         (set_callbacks
            (registry_add 0 "Connection.Close" _on_remote_close_cb true)
            (set_known_hosts (Some known_hosts) c))).
Proof.
  intros Hopen.
  rewrite (dispatch_one_shot _ _ _ _on_connection_open_cb); [|done].
  unfold finally, invoke, _on_connection_open, callbacks_add. by run.
Qed.

(** X18: the handshake. On a connection that waits for
    [Connection.Start], with no handler yet for [Connection.Tune] and
    [Connection.OpenOk], the three frames of the server
    ([Connection.Start] of the client's protocol version,
    [Connection.Tune], [Connection.OpenOk]) are answered by
    [Connection.StartOk] with the response of the credentials,
    [Connection.TuneOk] with the negotiated limits and
    [Connection.Open] for the virtual host, in this order and nothing
    else. The connection is not open after the first two. On the third
    it is marked open, with the negotiated limits in the connection
    state, the server's properties and known hosts kept and the handler
    of a [Connection.Close] from the server registered, and no callable
    called so far; from that state the callables registered for the
    opening are processed, and what they do then is theirs. *)
Theorem handshake_opens_connection c server_properties mechanisms locales
    response server_channel_max server_frame_max server_heartbeat known_hosts :
  let p := parameters c in
  let start := Connection_Start PROTOCOL_VERSION.1 PROTOCOL_VERSION.2
                 server_properties mechanisms locales in
  let cmax := _combine (param_channel_max p) server_channel_max in
  let fmax := _combine (param_frame_max p) server_frame_max in
  let hint := _combine (param_heartbeat p) server_heartbeat in
  entries c 0 "Connection.Start" = [(_on_connection_start_cb, true)] →
  entries c 0 "Connection.Tune" = [] →
  entries c 0 "Connection.OpenOk" = [] →
  closing c = None →
  open c = false →
  response_for (default default_credentials (credentials p)) start
    = Some response →
  let r1 := dispatch (FrameMethod 0 start) c in
  let r2 := dispatch (FrameMethod 0 (Connection_Tune server_channel_max
                                       server_frame_max server_heartbeat))
              r1.2 in
  ∃ c3,
    r1.1 = Ok tt ∧ r2.1 = Ok tt
    ∧ dispatch (FrameMethod 0 (Connection_OpenOk known_hosts)) r2.2
      = finally
          (callbacks_process invoke_lifecycle 0 "_on_connection_open" None)
          (callbacks_remove 0 "Connection.OpenOk" _on_connection_open_cb)
          c3
    ∧ is_open r1.2 = false ∧ is_open r2.2 = false ∧ is_open c3 = true
    ∧ sent_frames (trace c3) =
        sent_frames (trace c) ++
        [FrameMethod 0 (Connection_StartOk [(str "product", VStr PRODUCT)]
                          response.1 response.2);
         FrameMethod 0 (Connection_TuneOk cmax fmax hint);
         FrameMethod 0 (Connection_Open (virtual_host p) true)]
    ∧ calls (trace c3) = calls (trace c)
    ∧ entries c3 0 "_on_connection_open" = entries c 0 "_on_connection_open"
    ∧ state c3 = tune (state c) cmax fmax
    ∧ server_properties_ c3 = Some server_properties
    ∧ known_hosts_ c3 = Some known_hosts
    ∧ _on_remote_close_cb ∈ (entries c3 0 "Connection.Close").*1.
Proof.
  intros p start cmax fmax hint Hstart Htune Hopen Hclosing Hnotopen
    Hresp r1 r2.
  destruct (start_step c server_properties mechanisms locales response
              Hstart Hresp)
    as (c1 & E1 & P1 & S1 & T1 & R1 & O1 & G1 & D1 & V1).
  fold start in E1. subst r1. rewrite E1 in r2 |- *. cbn [fst snd] in *.
  assert (Htune1 : entries c1 0 "Connection.Tune"
                   = [(_on_connection_tune_cb, true)]).
  { rewrite /entries R1. registry_lookup.
    unfold entries in Htune. by rewrite Htune. }
  destruct (tune_step c1 0 server_channel_max server_frame_max server_heartbeat
              Htune1)
    as (c2 & E2 & P2 & S2 & T2 & K2 & R2 & O2 & G2 & D2 & V2).
  subst r2. rewrite E2. cbn [fst snd] in *.
  assert (Hopen2 : entries c2 0 "Connection.OpenOk"
                   = [(_on_connection_open_cb, true)]).
  { rewrite /entries R2 R1. registry_lookup.
    unfold entries in Hopen. by rewrite Hopen. }
  assert (Hsame : entries c2 0 "_on_connection_open"
                  = entries c 0 "_on_connection_open").
  { rewrite /entries R2 R1. by registry_lookup. }
  eexists. split_and!; [done|done|by apply open_step|..].
  all: cbv zeta in T2, S2; rewrite P1 in T2; rewrite P1 in S2.
  - by rewrite /is_open O1 Hnotopen.
  - by rewrite /is_open O2 O1 Hnotopen.
  - by rewrite /is_open /= G2 G1 Hclosing D2 D1.
  - by rewrite /= T2 T1 sent_frames_app /= -!app_assoc.
  - by rewrite /= K2 T1 /calls omap_app /= app_nil_r.
  - rewrite -Hsame /entries /=. by registry_lookup.
  - by rewrite /= S2 S1.
  - by rewrite /= V2.
  - done.
  - rewrite /entries /=. apply registry_add_elem.
Qed.

(** X19: [_on_connection_start] refuses a server it cannot talk to.
    On a [Connection.Start] of another protocol version, and on a
    protocol header, it raises [ProtocolVersionMismatch]. When the
    credentials have no response for the mechanisms offered it raises
    [LoginError] if the parameters carry credentials, and
    [AttributeError] if they carry none and the default ones were used:
    the message of the [LoginError] reads the [TYPE] of the credentials
    of the parameters. In each case nothing is sent and no handler is
    registered: only [closed] is cleared, and in the last two cases the
    server's properties are kept. *)
Theorem connection_start_refused c n version_major version_minor
    server_properties mechanisms locales :
  let start := Connection_Start version_major version_minor
                 server_properties mechanisms locales in
  let r := _on_connection_start marshal response_for PROTOCOL_VERSION
             (FrameMethod n start) c in
  ((version_major, version_minor) ≠ PROTOCOL_VERSION →
   r = (Raise ProtocolVersionMismatch, set_closed false c))
  ∧ ((version_major, version_minor) = PROTOCOL_VERSION →
     ∀ given,
       credentials (parameters c) = Some given →
       response_for given start = None →
       r = (Raise LoginError,
            set_server_properties (Some server_properties)
              (set_closed false c)))
  ∧ ((version_major, version_minor) = PROTOCOL_VERSION →
     credentials (parameters c) = None →
     response_for default_credentials start = None →
     r = (Raise AttributeError,
          set_server_properties (Some server_properties)
            (set_closed false c)))
  ∧ (∀ a b major minor,
       _on_connection_start marshal response_for PROTOCOL_VERSION
         (FrameProtocolHeader a b major minor) c
       = (Raise ProtocolVersionMismatch, set_closed false c)).
Proof.
  intros start r. subst r. unfold _on_connection_start. run.
  split_and!.
  - intros Hv. by rewrite decide_True.
  - intros Hv given Hc Hr. rewrite decide_False; [|by intros []]. run.
    fold start. by rewrite Hc /= Hr.
  - intros Hv Hc Hr. rewrite decide_False; [|by intros []]. run.
    fold start. by rewrite Hc /= Hr.
  - done.
Qed.

Local Transparent PRODUCT str.

(** X20: data that does not hold a complete frame is kept. When the
    decoder finds no frame in the buffer followed by the data,
    [on_data_available] only appends the data to the buffer, and the
    next call behaves as one call on the two pieces of data joined. *)
Theorem incomplete_frame_is_kept data c :
  (handle_input (buffer c ++ data)).2 = None →
  on_data_available data c
  = (Ok tt, set_buffer (λ b, b ++ data) c)
  ∧ ∀ data',
      on_data_available data' (set_buffer (λ b, b ++ data) c)
      = on_data_available (data ++ data') c.
Proof.
  intros Hnone. split.
  - unfold on_data_available. run.
    destruct (buffer c ++ data) as [|b l] eqn:E;
      [by rewrite /= /set_buffer /= E|].
    cbn [length read_frames]. destruct (handle_input (b :: l)) as [n [f|]];
      [done|]. run. by rewrite /set_buffer /= E.
  - intros data'. unfold on_data_available. run. by rewrite -app_assoc.
Qed.

(** X21: closing a connection with no channel, from end to end.
    [close] sends [Connection.Close] with the code and text; when the
    server's [Connection.CloseOk] arrives, the callables registered for
    the close (the reconnection strategy's among them: [close] removes
    it under another key, [_on_connection_close]) are called in order,
    then the transport is asked to disconnect; the connection is closed,
    no longer closing and not open, and the handler of
    [Connection.CloseOk] is gone. *)
Theorem close_handshake c code text :
  closing c = None → closed c = false → _channels c = ∅ →
  entries c 0 "Connection.CloseOk" = [] →
  Forall application_callable (entries c 0 "_on_connection_closed").*1 →
  let r1 := close marshal code text c in
  let r2 := dispatch (FrameMethod 0 Connection_CloseOk) r1.2 in
  r1.1 = Ok tt ∧ r2.1 = Ok tt
  ∧ trace r2.2 =
      trace c ++
      [sent (FrameMethod 0 (Connection_Close code text 0 0)); flush_outbound] ++
      ((λ cb, called cb None) <$> (entries c 0 "_on_connection_closed").*1) ++
      [disconnect]
  ∧ closed r2.2 = true ∧ closing r2.2 = None ∧ is_open r2.2 = false
  ∧ entries r2.2 0 "Connection.CloseOk" = [].
Proof.
  intros Hclosing Hclosed Hch Hok Happ r1 r2.
  destruct (close_step marshal code text c Hclosing Hclosed Hch)
    as (c1 & E1 & T1 & R1 & G1 & D1 & O1).
  subst r1. rewrite E1 in r2 |- *. cbn [fst snd] in *.
  assert (Hok1 : entries c1 0 "Connection.CloseOk"
                 = [(_on_connection_closed_cb, true)]).
  { rewrite /entries R1. registry_lookup. unfold entries in Hok.
    by rewrite Hok. }
  assert (Hsame : entries c1 0 "_on_connection_closed"
                  = entries c 0 "_on_connection_closed").
  { rewrite /entries R1. by registry_lookup. }
  subst r2.
  rewrite (dispatch_one_shot _ _ _ _on_connection_closed_cb) //.
  unfold finally, invoke, _on_connection_closed, callbacks_process,
    callbacks_remove. run.
  change (entries (set_open false (set_closing None (set_closed true c1))) 0
            "_on_connection_closed")
    with (entries c1 0 "_on_connection_closed").
  rewrite Hsame.
  match goal with |- context [forM ?g ?l ?c0] =>
    destruct (process_application_registry 0 "_on_connection_closed"
                None g l c0 eq_refl Happ) as (reg & -> & Hreg) end.
  cbn. split_and!; try done.
  - by rewrite T1 -!app_assoc.
  - rewrite /entries /=. registry_lookup.
    rewrite Hreg //=. unfold entries in Hok1. by rewrite Hok1.
Qed.

(** X22: a channel opened under a number given by the caller and then
    closed by the server. [channel] stores the channel under the number
    and registers [_on_channel_close] for the channel's
    [Channel.CloseOk]; when that frame arrives the channel is removed
    and the handler is gone, so that [_channels] is as before when the
    number was free. *)
Theorem channel_closed_by_server c cb n :
  n ≠ 0 → closing c = None → entries c n "Channel.CloseOk" = [] →
  let r1 := channel cb (Some n) c in
  let r2 := dispatch (FrameMethod n Channel_CloseOk) r1.2 in
  r1.1 = Ok tt
  ∧ _channels r1.2 !! n = Some (mkChannel n cb)
  ∧ r2.1 = Ok tt
  ∧ _channels r2.2 = delete n (_channels c)
  ∧ (_channels c !! n = None → _channels r2.2 = _channels c)
  ∧ entries r2.2 n "Channel.CloseOk" = [].
Proof.
  intros Hn Hclosing Hentries r1 r2. subst r1 r2.
  rewrite channel_run /chosen_number.
  assert (truthy n = true) as ->.
  { unfold truthy. by apply negb_true_iff, Z.eqb_neq. }
  cbn [fst snd].
  rewrite (dispatch_one_shot _ _ _ _on_channel_close_cb); last first.
  { rewrite /entries /=. registry_lookup. unfold entries in Hentries.
    by rewrite Hentries. }
  unfold finally, invoke. rewrite _on_channel_close_run. cbv zeta.
  cbn [closing set_channels set_callbacks].
  rewrite Hclosing. cbn.
  assert (Hdel : delete n (<[n:=mkChannel n cb]> (_channels c))
                 = delete n (_channels c)).
  { apply map_eq. intros k. rewrite !lookup_delete.
    case_decide; [done|]. by rewrite lookup_insert_ne. }
  split_and!; [done|by rewrite lookup_insert_eq|done|done| |].
  - intros Hnone. rewrite Hdel. by apply delete_id.
  - rewrite /entries /=. registry_lookup. unfold entries in Hentries.
    by rewrite Hentries.
Qed.

(** X23: a frame for a channel. A content frame, or a method frame
    with no callback pending, on a channel number above 0 is delivered
    to that channel when it is in [_channels]; when it is not, a
    [KeyError] is raised and, in [on_data_available], the frame has been
    counted and whatever followed it in the data is dropped: the buffer
    is left empty. On channel 0 such a frame is ignored. *)
Theorem frame_for_channel c n f :
  for_channel c n f →
  (0 < n → _channels c !! n = None → dispatch f c = (Raise KeyError, c))
  ∧ (0 < n → is_Some (_channels c !! n) →
     dispatch f c = (Ok tt, set_trace (λ t, t ++ [deliver n f]) c))
  ∧ (n ≤ 0 → dispatch f c = (Ok tt, c))
  ∧ (0 < n → _channels c !! n = None →
     ∀ data count,
       buffer c ++ data ≠ [] →
       handle_input (buffer c ++ data) = (count, Some f) →
       on_data_available data c
       = (Raise KeyError,
          set_trace (λ t, t ++ [consumed count f])
            (set_bytes_received (λ k, k + count)
               (set_buffer (λ _, []) c)))).
Proof.
  intros Hf.
  assert (Hd : ∀ c', _channels c' = _channels c → callbacks c' = callbacks c →
            dispatch f c' =
              if decide (0 < n) then
                match _channels c !! n with
                | Some _ => (Ok tt, set_trace (λ t, t ++ [deliver n f]) c')
                | None => (Raise KeyError, c')
                end
              else (Ok tt, c')).
  { intros c' Hch Hcb.
    destruct f as [| k m | k ? ? | k ? |]; try done; simpl in Hf.
    - destruct Hf as [-> Hf].
      unfold dispatch, callbacks_pending, deliver_to_channel. run.
      rewrite /entries Hcb. unfold entries in Hf. rewrite Hf /=.
      case_decide; [|done]. rewrite Hch. by destruct (_channels c !! n).
    - subst k. unfold dispatch, deliver_to_channel. run.
      case_decide; [|done]. rewrite Hch. by destruct (_channels c !! n).
    - subst k. unfold dispatch, deliver_to_channel. run.
      case_decide; [|done]. rewrite Hch. by destruct (_channels c !! n). }
  split_and!.
  - intros Hn Hnone. rewrite Hd // decide_True // Hnone //.
  - intros Hn [ch Hsome]. rewrite Hd // decide_True // Hsome //.
  - intros Hn. rewrite Hd // decide_False //. lia.
  - intros Hn Hnone data count Hne Hin.
    unfold on_data_available. run.
    destruct (buffer c ++ data) as [|b l] eqn:E; [done|].
    cbn [length read_frames]. rewrite Hin. run.
    rewrite Hd // decide_True // Hnone //.
Qed.
End Handlers.

Lemma handshake_opens_connection_witness :
  let c := fresh_connection in
  let start := Connection_Start 0 9 [] (str "PLAIN") (str "en_US") in
  let r1 := dispatch sample_marshal record_tune sample_response_for (0, 9)
              (FrameMethod 0 start) c in
  let r2 := dispatch sample_marshal record_tune sample_response_for (0, 9)
              (FrameMethod 0 (Connection_Tune 0 4096 0)) r1.2 in
  ∃ c3,
    dispatch sample_marshal record_tune sample_response_for (0, 9)
      (FrameMethod 0 (Connection_OpenOk [])) r2.2
    = finally
        (callbacks_process invoke_lifecycle 0 "_on_connection_open" None)
        (callbacks_remove 0 "Connection.OpenOk" _on_connection_open_cb)
        c3
    ∧ is_open r2.2 = false ∧ is_open c3 = true
    ∧ calls (trace c3) = []
    ∧ entries c3 0 "_on_connection_open" = [(external 1, false)]
    ∧ state c3 = mkConnectionState (Some 0) (Some 4096).
Proof.
  intros c start r1 r2.
  destruct (handshake_opens_connection sample_marshal record_tune
              sample_response_for (0, 9) c [] (str "PLAIN") (str "en_US")
              (str "PLAIN",
               ["000"%byte] ++ str "guest" ++ ["000"%byte] ++ str "guest")
              0 4096 0 [])
    as (c3 & _ & _ & H3 & _ & H5 & H6 & _ & H8 & H9 & H10 & _).
  - reflexivity.
  - reflexivity.
  - reflexivity.
  - reflexivity.
  - reflexivity.
  - reflexivity.
  - exists c3.
    split_and!; [exact H3|exact H5|exact H6|exact H8|exact H9|exact H10].
Defined.

Lemma connection_start_refused_witness :
  let start version_minor :=
    FrameMethod 0 (Connection_Start 0 version_minor [] (str "EXTERNAL")
                     (str "en_US")) in
  let no_response (_ : bytes * bytes) (_ : method) :=
    @None (bytes * bytes) in
  let given :=
    mkConnectionParameters (str "localhost") None (str "/")
      (Some (str "user", str "secret")) 0 131072 0 in
  let c := (__init__ given None ∅).2 in
  _on_connection_start sample_marshal sample_response_for (0, 9) (start 8)
    fresh_connection
  = (Raise ProtocolVersionMismatch, set_closed false fresh_connection)
  ∧ _on_connection_start sample_marshal no_response (0, 9) (start 9) c
    = (Raise LoginError, set_server_properties (Some []) (set_closed false c))
  ∧ _on_connection_start sample_marshal no_response (0, 9) (start 9)
      fresh_connection
    = (Raise AttributeError,
       set_server_properties (Some []) (set_closed false fresh_connection)).
Proof.
  intros start no_response given c. split_and!.
  - destruct (connection_start_refused sample_marshal sample_response_for
                (0, 9) fresh_connection 0 0 8 [] (str "EXTERNAL")
                (str "en_US")) as (H & _).
    apply H. discriminate.
  - destruct (connection_start_refused sample_marshal no_response
                (0, 9) c 0 0 9 [] (str "EXTERNAL") (str "en_US"))
      as (_ & H & _).
    apply (H eq_refl (str "user", str "secret")); reflexivity.
  - destruct (connection_start_refused sample_marshal no_response
                (0, 9) fresh_connection 0 0 9 [] (str "EXTERNAL")
                (str "en_US")) as (_ & _ & H & _).
    apply H; reflexivity.
Defined.

Lemma incomplete_frame_is_kept_witness :
  let c := open_connection sample_parameters
             (mkConnectionState (Some 0) (Some 131072)) in
  on_data_available sample_marshal sample_handle_input record_tune
    sample_response_for (0, 9) (be_bytes 3 0) c
  = (Ok tt, set_buffer (λ b, b ++ be_bytes 3 0) c).
Proof.
  intros c.
  apply (incomplete_frame_is_kept sample_marshal sample_handle_input
           record_tune sample_response_for (0, 9) (be_bytes 3 0) c).
  reflexivity.
Defined.

Lemma close_handshake_witness :
  let c := open_connection sample_parameters
             (mkConnectionState (Some 0) (Some 131072)) in
  let r1 := close sample_marshal 200 (str "bye") c in
  let r2 := dispatch sample_marshal record_tune sample_response_for (0, 9)
              (FrameMethod 0 Connection_CloseOk) r1.2 in
  trace r2.2 =
    [sent (FrameMethod 0 (Connection_Close 200 (str "bye") 0 0));
     flush_outbound;
     called reconnection_strategy_on_connection_closed None;
     called (external 1) None;
     disconnect]
  ∧ closed r2.2 = true.
Proof.
  intros c r1 r2.
  destruct (close_handshake sample_marshal record_tune sample_response_for
              (0, 9) c 200 (str "bye"))
    as (_ & _ & H3 & H4 & _).
  - reflexivity.
  - reflexivity.
  - reflexivity.
  - reflexivity.
  - vm_compute. repeat constructor.
  - split; [exact H3|exact H4].
Defined.

Lemma channel_closed_by_server_witness :
  let c := open_connection sample_parameters
             (mkConnectionState (Some 0) (Some 131072)) in
  let r1 := channel (external 2) (Some 7) c in
  let r2 := dispatch sample_marshal record_tune sample_response_for (0, 9)
              (FrameMethod 7 Channel_CloseOk) r1.2 in
  _channels r1.2 !! 7 = Some (mkChannel 7 (external 2))
  ∧ _channels r2.2 = _channels c.
Proof.
  intros c r1 r2.
  destruct (channel_closed_by_server sample_marshal record_tune
              sample_response_for (0, 9) c (external 2) 7)
    as (_ & H2 & _ & _ & H5 & _).
  - discriminate.
  - reflexivity.
  - reflexivity.
  - split; [exact H2|apply H5; reflexivity].
Defined.

Lemma frame_for_channel_witness :
  let c := open_connection sample_parameters
             (mkConnectionState (Some 0) (Some 131072)) in
  let f := FrameBody 3 (str "payload") in
  dispatch sample_marshal record_tune sample_response_for (0, 9) f c
  = (Raise KeyError, c).
Proof.
  intros c f.
  destruct (frame_for_channel sample_marshal sample_handle_input record_tune
              sample_response_for (0, 9) c 3 f eq_refl) as (H & _).
  apply H; [lia|reflexivity].
Defined.

(** ** The input loop comes to an end *)

Section Bounded.
Variable marshal : frame → bytes.
Variable handle_input : bytes → Z * option frame.
Variable tune : ConnectionState → Z → Z → ConnectionState.
Variable response_for : bytes * bytes → method → option (bytes * bytes).
Variable PROTOCOL_VERSION : Z * Z.

Lemma bounded_ret {A} (a : A) : bounded (mret a).
Proof. by intros c. Qed.

Lemma bounded_raise {A} e : e ≠ OutOfFuel → bounded (@raise A e).
Proof. intros He c. simpl. congruence. Qed.

Lemma bounded_gets {A} (f : Connection → A) : bounded (gets f).
Proof. by intros c. Qed.

Lemma bounded_modify f : bounded (modify f).
Proof. by intros c. Qed.

Lemma bounded_bind {A B} (m : M A) (f : A → M B) :
  bounded m → (∀ a, bounded (f a)) → bounded (m ≫= f).
Proof.
  intros Hm Hf c. specialize (Hm c). unfold mbind, M_bind.
  destruct (m c) as [[a|e] c1]; simpl in *; [apply Hf|].
  intros [= ->]. by apply Hm.
Qed.

Lemma bounded_finally {A} (m : M A) k :
  bounded m → bounded k → bounded (finally m k).
Proof.
  intros Hm Hk c. specialize (Hm c). unfold finally.
  destruct (m c) as [r c1]. specialize (Hk c1).
  destruct (k c1) as [[[]|e] c2]; simpl in *; [done|].
  intros [= ->]. by apply Hk.
Qed.

Lemma bounded_forM {A} (f : A → M unit) l :
  (∀ a, bounded (f a)) → bounded (forM f l).
Proof.
  intros Hf. induction l as [|a l IH]; simpl.
  - apply bounded_ret.
  - apply bounded_bind; [apply Hf|by intros _].
Qed.

(** One step of the structural proof that an operation is bounded. *)
Ltac bnd_step :=
  lazymatch goal with
  | |- bounded (mret _) => apply bounded_ret
  | |- bounded (raise _) => apply bounded_raise; discriminate
  | |- bounded (gets _) => apply bounded_gets
  | |- bounded (modify _) => apply bounded_modify
  | |- bounded (emit _) => apply bounded_modify
  | |- bounded (callbacks_add _ _ _ _) => apply bounded_modify
  | |- bounded (callbacks_remove _ _ _) => apply bounded_modify
  | |- bounded (callbacks_pending _ _) => apply bounded_gets
  | |- bounded (_send_frame _ _) => unfold _send_frame
  | |- bounded (forM _ _) => apply bounded_forM; intros ?
  | |- bounded (finally _ _) => apply bounded_finally
  | |- bounded (_ ≫= _) => apply bounded_bind; [|intros ?]
  | |- bounded (if ?b then _ else _) => destruct b
  | |- bounded (match ?x with _ => _ end) => destruct x
  | |- bounded (let '(_, _) := ?x in _) => destruct x
  end.
Ltac bnd := repeat bnd_step.

Lemma bounded_send_method_no_content channel_number method :
  bounded (send_method marshal channel_number method NoContent).
Proof. unfold send_method, send_method_with. bnd. Qed.

Lemma bounded_rpc callback channel_number method acceptable_replies :
  bounded (rpc marshal callback channel_number method acceptable_replies).
Proof. unfold rpc. bnd. all: apply bounded_send_method_no_content. Qed.

Lemma bounded_reconnect_ : bounded _reconnect.
Proof. unfold _reconnect, _init_connection_state, _connect. bnd. Qed.

Lemma bounded_invoke_lifecycle cb args : bounded (invoke_lifecycle cb args).
Proof. unfold invoke_lifecycle. bnd. all: apply bounded_reconnect_. Qed.

Lemma bounded_process invoke prefix key args :
  (∀ cb a, bounded (invoke cb a)) →
  bounded (callbacks_process invoke prefix key args).
Proof. intros H. unfold callbacks_process. bnd. all: apply H. Qed.

Lemma bounded_on_close_ready : bounded (_on_close_ready marshal).
Proof. unfold _on_close_ready. bnd. apply bounded_rpc. Qed.

Lemma bounded_close code text : bounded (close marshal code text).
Proof. unfold close. bnd. apply bounded_on_close_ready. Qed.

Lemma bounded_on_connection_closed f from_adapter :
  bounded (_on_connection_closed f from_adapter).
Proof.
  unfold _on_connection_closed. bnd.
  all: apply bounded_process, bounded_invoke_lifecycle.
Qed.

Lemma bounded_invoke cb args :
  bounded (invoke marshal tune response_for PROTOCOL_VERSION cb args).
Proof.
  unfold invoke.
  destruct cb, args as [f|]; try (apply bounded_raise; discriminate);
    try apply bounded_on_connection_closed;
    try apply bounded_reconnect_;
    try apply bounded_modify.
  - unfold _on_connection_start. bnd.
    all: apply bounded_send_method_no_content.
  - unfold _on_connection_tune. bnd.
    all: first [apply bounded_send_method_no_content | apply bounded_rpc].
  - unfold _on_connection_open. bnd.
    all: apply bounded_process, bounded_invoke_lifecycle.
  - unfold _on_remote_close. bnd. all: apply bounded_close.
  - unfold _on_channel_close, frame_channel_number. bnd.
    all: apply bounded_on_close_ready.
Qed.

Lemma bounded_dispatch f :
  bounded (dispatch marshal tune response_for PROTOCOL_VERSION f).
Proof.
  unfold dispatch, deliver_to_channel, frame_channel_number.
  destruct f; bnd.
  all: apply bounded_process, bounded_invoke.
Qed.

Hypothesis handle_input_consumes :
  ∀ data count f, handle_input data = (count, Some f) → 1 ≤ count.

Lemma bounded_read_frames fuel data :
  (length data ≤ fuel)%nat →
  bounded (read_frames marshal handle_input tune response_for
             PROTOCOL_VERSION fuel data).
Proof.
  revert data. induction fuel as [|fuel IH]; intros data Hf.
  - destruct data; [apply bounded_ret|simpl in Hf; lia].
  - destruct data as [|b l]; [apply bounded_ret|].
    cbn [read_frames].
    destruct (handle_input (b :: l)) as [count [f|]] eqn:E; [|bnd].
    apply handle_input_consumes in E.
    bnd; [apply bounded_dispatch|]. apply IH.
    unfold slice_from. rewrite decide_True; [|lia].
    rewrite length_drop. simpl in *. lia.
Qed.

(** X24: when the decoder consumes at least one byte with every frame
    it returns, the loop of [on_data_available] comes to an end on every
    input and in every state, whatever the handlers of the frames do:
    its recursion bound, the number of bytes at hand, is never reached,
    so the outcome is a return or a Python exception. *)
Theorem on_data_available_bounded data c :
  (on_data_available marshal handle_input tune response_for PROTOCOL_VERSION
     data c).1 ≠ Raise OutOfFuel.
Proof.
  revert c. change (bounded (on_data_available marshal handle_input tune
                               response_for PROTOCOL_VERSION data)).
  unfold on_data_available. bnd. by apply bounded_read_frames.
Qed.
End Bounded.

Lemma on_data_available_bounded_witness :
  (on_data_available sample_marshal sample_handle_input record_tune
     sample_response_for (0, 9) (be_bytes 20 0) fresh_connection).1
  ≠ Raise OutOfFuel.
Proof.
  apply (on_data_available_bounded sample_marshal sample_handle_input
           record_tune sample_response_for (0, 9)).
  intros data count f. unfold sample_handle_input.
  case_decide; intros [= <- _]. lia.
Defined.

(** ** A new connection *)

(** X25: [Connection.__init__] on a callback manager that holds
    nothing leaves a connection that waits for [Connection.Start].
    Nothing has been sent; the adapter has been asked once to connect to
    the host and the port of the parameters, 5672 when there is none;
    the connection is closed, not closing and not open, with no channel
    and both counters at 0. [_on_connection_start] is the one handler of
    [Connection.Start], the callable given for the opening, if any, is
    the one entry for the opening, the reconnection strategy's callable
    the one entry for the close, and no handler is registered yet for
    [Connection.Tune], [Connection.OpenOk] and [Connection.CloseOk]. *)
Theorem init_awaits_start p on_open_callback :
  let r := __init__ p on_open_callback ∅ in
  let c := r.2 in
  r.1 = Ok tt
  ∧ trace c =
      [initialized; on_connect_attempt;
       connect (host p)
         (match port p with Some 0 | None => 5672 | Some n => n end)]
  ∧ parameters c = p
  ∧ closed c = true ∧ closing c = None ∧ open c = false ∧ is_open c = false
  ∧ _channels c = ∅ ∧ counters c = (0, 0)
  ∧ entries c 0 "Connection.Start" = [(_on_connection_start_cb, true)]
  ∧ entries c 0 "_on_connection_open" =
      match on_open_callback with Some cb => [(cb, false)] | None => [] end
  ∧ entries c 0 "_on_connection_closed" =
      [(reconnection_strategy_on_connection_closed, false)]
  ∧ entries c 0 "Connection.Tune" = []
  ∧ entries c 0 "Connection.OpenOk" = []
  ∧ entries c 0 "Connection.CloseOk" = [].
Proof.
  intros r c. subst c r.
  unfold __init__, add_on_open_callback, add_on_close_callback,
    _init_connection_state, _connect, callbacks_add.
  destruct on_open_callback as [cb|]; run.
  all: split_and!; try done.
  all: try (do 3 f_equal; unfold or_else, truthy, PORT;
            by destruct (port p) as [[| |]|]).
Qed.
